(** * deletweet: the rate-limit-aware deletion scheduler

    A shallow embedding of the two schedulers of the repository and of the
    web server's run control:

    - [TweetDeleter] (src/index.js): [deleteTweet], [sleep],
      [fetchUserTweets] and the command-line scheduler
      [deleteTweetsInBatches];
    - the web server (src/unnamed/part_000): the globals [deleter],
      [deletionInProgress], [deletionStats], the handlers of
      [POST /api/delete-tweets] and [GET /api/deletion-progress], and the
      background job [processDeletion];
    - the rest of the command-line program (src/index.js):
      [validateCredentials], [askConfirmation] and [main];
    - the other routes of the server (src/unnamed/part_000):
      [GET /api/status], [POST /api/initialize] and [GET /api/tweets];
    - the script of the page (src/unnamed/part_001): the globals [tweets]
      and [selectedTweets], the selection handlers, [deleteSelected] and
      [pollDeletionProgress].

    src/index.js holds two versions of the command-line tool; the first one,
    which has the deletion scheduler, is the one embedded here.

    JavaScript numbers that hold array indices, counters and epoch times are
    integers here ([Z] and [nat]); the percentage of the progress endpoint is
    computed on IEEE-754 doubles, as JavaScript does, with Rocq's primitive
    floats.  The remote endpoint, the wall clock and the file system are the
    environment of a run: a record [World] that answers the n-th remote call,
    gives the clock reading taken after it, and says whether the log file can
    be written.  [POST /api/initialize] is not guarded by
    [deletionInProgress]: handled while the web job awaits, it replaces the
    deleter object under the job, and the world also says after which calls
    that has happened.  Loops that the code does not bound take a [fuel]
    argument, and tell whether they were left or ran out of it. *)

From Stdlib Require Import ZArith List String Bool Lia Floats.
Import ListNotations.
Open Scope string_scope.
Open Scope list_scope.
Open Scope Z_scope.

Set Implicit Arguments.

(* ================================================================== *)
(** ** JavaScript primitives used by the code *)

Module JS.

(** [Array.prototype.slice]: a negative index counts from the end, every
    index is clamped to the array. *)
Definition relIndex (len k : Z) : Z :=
  if k <? 0 then Z.max (len + k) 0 else Z.min k len.

Definition slice {A : Type} (l : list A) (start stop : Z) : list A :=
  let len := Z.of_nat (List.length l) in
  let k := relIndex len start in
  let final := relIndex len stop in
  firstn (Z.to_nat (final - k)) (skipn (Z.to_nat k) l).

(** [Math.ceil (a / b)] for integers [a] and [b > 0]. *)
Definition ceilDiv (a b : Z) : Z := - ((- a) / b).

(** [String.prototype.startsWith]. *)
Definition startsWith (s p : string) : bool := String.prefix p s.

(** [x || d] for a number [x] that may be [NaN] ([None]): [NaN] and [0] are
    falsy. *)
Definition orDefault (x : option Z) (d : Z) : Z :=
  match x with
  | Some z => if z =? 0 then d else z
  | None => d
  end.

(** Truthiness of an optional number, as tested by [if (x)]: missing values
    and [0] are falsy. *)
Definition truthy (x : option Z) : option Z :=
  match x with
  | Some z => if z =? 0 then None else Some z
  | None => None
  end.

(** An integer counter as a JavaScript number (exact below 2^53). *)
Definition toNumber (n : Z) : float := PrimFloat.of_uint63 (Uint63.of_Z n).

(** [Math.round]: the integer closest to the exact value of the double,
    ties towards +infinity.  Not-a-number and the infinities have no integer
    value; the progress endpoint never produces them. *)
Definition mathRound (x : float) : Z :=
  match Prim2SF x with
  | S754_finite s m e =>
      let v := if s then Z.neg m else Z.pos m in
      if 0 <=? e then v * 2 ^ e
      else (2 * v + 2 ^ (- e)) / 2 ^ (1 - e)
  | _ => 0
  end.

End JS.

(* ================================================================== *)
(** ** Data model *)

(** A post as the listing endpoint returns it. *)
Record Tweet := mkTweet {
  id : string;
  text : string;
  created_at : string
}.

(** An entry of [this.deletedTweets], the log written by [saveDeletionLog].
    The command-line scheduler records the text and creation date of the
    post, the web job only its id.  [deleted_at] is the clock reading whose
    ISO rendering the code stores. *)
Record LogEntry := mkLogEntry {
  log_id : string;
  log_text : option string;
  log_created_at : option string;
  deleted_at : Z
}.

(** [error.rateLimit]: [reset] is the epoch second at which the quota is
    restored, when the platform reports one. *)
Record RateLimit := mkRateLimit { reset : option Z }.

(** What the remote client throws. *)
Record ApiError := mkApiError {
  code : Z;
  message : string;
  rateLimit : option RateLimit
}.

(** Outcome of one call of [client.v2.deleteTweet]. *)
Inductive ApiReply :=
| Resolved
| Rejected (e : ApiError).

(** A JavaScript completion: a returned value or a thrown error. *)
Inductive Completion (A : Type) :=
| Return (a : A)
| Throw (e : ApiError).
Arguments Return {A} a.
Arguments Throw {A} e.

(** The object returned by [deleteTweet]. *)
Record DeleteResult := mkDeleteResult {
  success : bool;
  result_id : string;
  error : option string
}.

(** The [TweetDeleter] object. *)
Record TweetDeleter := mkTweetDeleter {
  tweetsPerBatch : Z;
  batchDelayMinutes : Z;
  deletedTweets : list LogEntry;
  maxDeletionsPerDay : Z
}.

(** The constructor; its arguments are [parseInt] of the two environment
    variables ([None] for [NaN]). *)
Definition newTweetDeleter (envTweetsPerBatch envBatchDelay : option Z)
  : TweetDeleter :=
  {| tweetsPerBatch := JS.orDefault envTweetsPerBatch 5;
     batchDelayMinutes := JS.orDefault envBatchDelay 90;
     deletedTweets := [];
     maxDeletionsPerDay := 15 |}.

Definition pushLog (this : TweetDeleter) (e : LogEntry) : TweetDeleter :=
  {| tweetsPerBatch := tweetsPerBatch this;
     batchDelayMinutes := batchDelayMinutes this;
     deletedTweets := deletedTweets this ++ [e];
     maxDeletionsPerDay := maxDeletionsPerDay this |}.

(** The environment of a run.  [reinitialized n] tells whether
    [POST /api/initialize] has assigned a new object to the global [deleter]
    of the server since the web job last used the log of the old one, when
    the job comes back from its n-th call of the endpoint or, with [n] the
    number of calls it has made, when it saves the log.  The command-line
    tool has no such global. *)
Record World := mkWorld {
  endpoint : nat -> ApiReply;  (** reply to the n-th call of the endpoint *)
  clock : nat -> Z;            (** [new Date()], in ms, after the n-th call *)
  writeFileOk : bool;          (** whether [fs.writeFile] resolves *)
  reinitialized : nat -> bool  (** whether the global was replaced *)
}.

(** The object the global [deleter] holds when the web job comes back to it.
    [initializeDeleter] builds the new object with [new TweetDeleter()],
    which reads the environment variables of the process again, and nothing
    in the program changes them: the new object has the batch size and the
    delay of the old one, an empty log and the daily limit of the
    constructor. *)
Definition reloaded (replaced : bool) (d : TweetDeleter) : TweetDeleter :=
  {| tweetsPerBatch := tweetsPerBatch d;
     batchDelayMinutes := batchDelayMinutes d;
     deletedTweets := if replaced then [] else deletedTweets d;
     maxDeletionsPerDay := if replaced then 15 else maxDeletionsPerDay d |}.

(* ================================================================== *)
(** ** [TweetDeleter] methods shared by both schedulers *)

(** [deleteTweet]: a throttling error (code 429) is thrown again, every other
    failure is turned into a result with [success: false]. *)
Definition deleteTweet (reply : ApiReply) (tweetId : string)
  : Completion DeleteResult :=
  match reply with
  | Resolved =>
      Return {| success := true; result_id := tweetId; error := None |}
  | Rejected e =>
      if code e =? 429 then Throw e
      else Return {| success := false; result_id := tweetId;
                     error := Some (message e) |}
  end.

(** [sleep (minutes)]: the number of one-minute timers awaited by
    [for (let i = 0; i < minutes; i++)]. *)
Fixpoint sleepFrom (fuel : nat) (i minutes : Z) : nat :=
  match fuel with
  | O => O
  | S fuel' =>
      if i <? minutes then S (sleepFrom fuel' (i + 1) minutes) else O
  end.

Definition sleep (minutes : Z) : nat :=
  sleepFrom (Z.to_nat minutes) 0 minutes.

(** [error.rateLimit?.reset], as the condition of an [if]. *)
Definition resetOf (e : ApiError) : option Z :=
  match rateLimit e with
  | Some rl => JS.truthy (reset rl)
  | None => None
  end.

(** [Math.ceil ((new Date (reset * 1000) - new Date ()) / (1000 * 60))], for
    a reset time that [Date] can hold and whose distance to the clock
    reading is an exact double (see [withinDates]): the quotient is then
    rounded by less than the ceiling can see.  Further away [new Date] is
    an invalid date, the minutes are [NaN] and [sleep] returns at once; the
    integers used here have no such value. *)
Definition minutesUntilReset (resetEpoch now : Z) : Z :=
  JS.ceilDiv (resetEpoch * 1000 - now) (1000 * 60).

(** The argument of [sleep] after a throttling error: the command-line
    scheduler adds five minutes and falls back to a day, the web job adds one
    minute and falls back to a quarter of an hour. *)
Definition rateLimitWaitCli (e : ApiError) (now : Z) : Z :=
  match resetOf e with
  | Some r => minutesUntilReset r now + 5
  | None => 24 * 60
  end.

Definition rateLimitWaitWeb (e : ApiError) (now : Z) : Z :=
  match resetOf e with
  | Some r => minutesUntilReset r now + 1
  | None => 15
  end.

(* ================================================================== *)
(** ** Observable events of a run *)

(** Which call of [sleep] an event comes from. *)
Inductive SleepSite :=
| RateLimitWait   (** inside the handler of a throttling error *)
| BatchDelay.     (** after a batch, before the next one *)

(** How one attempt on an item ended. *)
Inductive Attempt :=
| Deleted (timestamp : Z)
| Failed (reason : string)
| Throttled.

(** The progress counters of the web server, [deletionStats]. *)
Record Stats := mkStats {
  deleted : nat;
  failed : nat;
  total : nat
}.

Inductive Event :=
| EvBatch (batch : list string)              (** a batch was sliced off *)
| EvAttempt (tweetId : string) (a : Attempt) (** a call of [deleteTweet] *)
| EvSleep (site : SleepSite) (minutes : Z)   (** a call of [sleep] *)
| EvPause (ms : Z)                           (** the timer after an item *)
| EvProgress (snapshot : Stats)              (** the counters, updated *)
| EvSave (log : list LogEntry).              (** the log, as saved *)

(* ================================================================== *)
(** ** The web server (src/unnamed/part_000) *)

Module Web.

(** The three globals of the server. *)
Record Server := mkServer {
  deleter : option TweetDeleter;
  deletionInProgress : bool;
  deletionStats : Stats
}.

Definition initial : Server :=
  {| deleter := None;
     deletionInProgress := false;
     deletionStats := {| deleted := 0; failed := 0; total := 0 |} |}.

(** [initializeDeleter]: the global is assigned before the credentials are
    validated; the result is the validity.  The constructor is taken to
    return, as it does once the keys of the client are set; were it to
    throw, the global would keep its value and the result would be
    [false]. *)
Definition initializeDeleter (envTweetsPerBatch envBatchDelay : option Z)
    (credentialsValid : bool) (s : Server) : bool * Server :=
  (credentialsValid,
   {| deleter := Some (newTweetDeleter envTweetsPerBatch envBatchDelay);
      deletionInProgress := deletionInProgress s;
      deletionStats := deletionStats s |}).

(** Answers of [POST /api/delete-tweets]. *)
Inductive Response :=
| NotInitialized          (** 400, 'Not initialized' *)
| AlreadyInProgress       (** 400, 'Deletion already in progress' *)
| NoTweetIds              (** 400, 'No tweet IDs provided' *)
| DeletionStarted (total : nat).

(** The handler of [POST /api/delete-tweets].  [tweetIds] is [None] when
    the body has no array under that name.  The third component is the
    argument of the background call of [processDeletion], if any.  Nothing
    in the [try] block throws ([processDeletion] is asynchronous, its errors
    are its own), so the [catch] of the handler is left out. *)
Definition postDeleteTweets (tweetIds : option (list string)) (s : Server)
  : Response * Server * option (list string) :=
  match deleter s with
  | None => (NotInitialized, s, None)
  | Some _ =>
      if deletionInProgress s then (AlreadyInProgress, s, None)
      else
        match tweetIds with
        | None => (NoTweetIds, s, None)
        | Some [] => (NoTweetIds, s, None)
        | Some ids =>
            (DeletionStarted (List.length ids),
             {| deleter := deleter s;
                deletionInProgress := true;
                deletionStats := {| deleted := 0; failed := 0;
                                    total := List.length ids |} |},
             Some ids)
        end
  end.

(** The body of [GET /api/deletion-progress]. *)
Record ProgressReport := mkProgressReport {
  inProgress : bool;
  stats : Stats;
  progress : Z
}.

(** [Math.round (((deleted + failed) / total) * 100)] on doubles. *)
Definition percent (st : Stats) : Z :=
  if (0 <? total st)%nat then
    JS.mathRound
      (((JS.toNumber (Z.of_nat (deleted st))
         + JS.toNumber (Z.of_nat (failed st)))
        / JS.toNumber (Z.of_nat (total st)))
       * JS.toNumber 100)%float
  else 0.

Definition deletionProgress (s : Server) : ProgressReport :=
  {| inProgress := deletionInProgress s;
     stats := deletionStats s;
     progress := percent (deletionStats s) |}.

(** The objects [{ id }] built by [tweetIds.map (id => ({ id }))]. *)
Record TweetRef := mkTweetRef { ref_id : string }.

(** The state of one call of [processDeletion]: the object the global
    [deleter] held when the job last used it, the counters the job updates,
    the index [i] of the outer loop, the number of remote calls made so far,
    and the events so far. *)
Record Job := mkJob {
  job_deleter : TweetDeleter;
  job_stats : Stats;
  job_i : Z;
  job_calls : nat;
  job_trace : list Event
}.

Definition emit (st : Job) (evs : list Event) : Job :=
  {| job_deleter := job_deleter st;
     job_stats := job_stats st;
     job_i := job_i st;
     job_calls := job_calls st;
     job_trace := job_trace st ++ evs |}.

Definition setI (st : Job) (i : Z) : Job :=
  {| job_deleter := job_deleter st;
     job_stats := job_stats st;
     job_i := i;
     job_calls := job_calls st;
     job_trace := job_trace st |}.

Definition incDeleted (s : Stats) : Stats :=
  {| deleted := S (deleted s); failed := failed s; total := total s |}.

Definition incFailed (s : Stats) : Stats :=
  {| deleted := deleted s; failed := S (failed s); total := total s |}.

(** The body of [for (const tweet of batch)].  [current] is the global
    [deleter] as the job finds it after the [await]. *)
Definition item (w : World) (tweet : TweetRef) (st : Job) : Job :=
  let n := job_calls st in
  let tweetId := ref_id tweet in
  let current := reloaded (reinitialized w n) (job_deleter st) in
  match deleteTweet (endpoint w n) tweetId with
  | Return result =>
      if success result then
        let now := clock w n in
        {| job_deleter :=
             pushLog current
               {| log_id := tweetId; log_text := None;
                  log_created_at := None; deleted_at := now |};
           job_stats := incDeleted (job_stats st);
           job_i := job_i st;
           job_calls := S n;
           job_trace :=
             job_trace st
             ++ [EvAttempt tweetId (Deleted now);
                 EvProgress (incDeleted (job_stats st));
                 EvPause 1000] |}
      else
        {| job_deleter := current;
           job_stats := incFailed (job_stats st);
           job_i := job_i st;
           job_calls := S n;
           job_trace :=
             job_trace st
             ++ [EvAttempt tweetId
                   (Failed (match error result with
                            | Some m => m
                            | None => ""
                            end));
                 EvProgress (incFailed (job_stats st));
                 EvPause 1000] |}
  | Throw e =>
      if code e =? 429 then
        (* sleep, then [i--; continue]: the outer index is decremented and
           the [for ... of] moves on to the next element of the batch *)
        {| job_deleter := current;
           job_stats := job_stats st;
           job_i := job_i st - 1;
           job_calls := S n;
           job_trace :=
             job_trace st
             ++ [EvAttempt tweetId Throttled;
                 EvSleep RateLimitWait (rateLimitWaitWeb e (clock w n))] |}
      else
        {| job_deleter := current;
           job_stats := incFailed (job_stats st);
           job_i := job_i st;
           job_calls := S n;
           job_trace :=
             job_trace st
             ++ [EvAttempt tweetId (Failed (message e));
                 EvProgress (incFailed (job_stats st))] |}
  end.

Definition forOf (w : World) (batch : list TweetRef) (st : Job) : Job :=
  fold_left (fun s tweet => item w tweet s) batch st.

(** The outer loop [for (let i = 0; i < tweets.length; i +=
    deleter.tweetsPerBatch)].  [fuel] bounds the number of iterations; the
    boolean tells whether the loop was left. *)
Fixpoint batches (w : World) (tweets : list TweetRef) (fuel : nat)
    (st : Job) : Job * bool :=
  match fuel with
  | O => (st, false)
  | S fuel' =>
      let len := Z.of_nat (List.length tweets) in
      if job_i st <? len then
        let batch :=
          JS.slice tweets (job_i st)
            (job_i st + tweetsPerBatch (job_deleter st)) in
        let st1 := forOf w batch (emit st [EvBatch (map ref_id batch)]) in
        let st2 :=
          if job_i st1 + tweetsPerBatch (job_deleter st1) <? len
          then emit st1
                 [EvSleep BatchDelay (batchDelayMinutes (job_deleter st1))]
          else st1 in
        batches w tweets fuel'
          (setI st2 (job_i st2 + tweetsPerBatch (job_deleter st2)))
      else (st, true)
  end.

Inductive RunStatus :=
| Running     (** the loop has not been left yet *)
| Completed   (** the log was saved *)
| Crashed.    (** an exception reached the outer [catch] *)

Record Run := mkRun {
  server : Server;
  trace : list Event;
  status : RunStatus
}.

(** [processDeletion (tweetIds)]: [try { loops; saveDeletionLog } catch
    { log } finally { deletionInProgress = false }].  A missing deleter
    makes [deleter.tweetsPerBatch] (or [deleter.saveDeletionLog]) throw.
    [deleter.saveDeletionLog ()] is called on the object the global holds
    at that moment. *)
Definition processDeletion (w : World) (fuel : nat)
    (tweetIds : list string) (s : Server) : Run :=
  match deleter s with
  | None =>
      {| server := {| deleter := None;
                      deletionInProgress := false;
                      deletionStats := deletionStats s |};
         trace := [];
         status := Crashed |}
  | Some d =>
      let tweets := map mkTweetRef tweetIds in
      let '(st, finished) :=
        batches w tweets fuel
          {| job_deleter := d; job_stats := deletionStats s;
             job_i := 0; job_calls := 0; job_trace := [] |} in
      if finished then
        let current :=
          reloaded (reinitialized w (job_calls st)) (job_deleter st) in
        if writeFileOk w then
          {| server := {| deleter := Some current;
                          deletionInProgress := false;
                          deletionStats := job_stats st |};
             trace := job_trace st ++ [EvSave (deletedTweets current)];
             status := Completed |}
        else
          {| server := {| deleter := Some current;
                          deletionInProgress := false;
                          deletionStats := job_stats st |};
             trace := job_trace st;
             status := Crashed |}
      else
        {| server := {| deleter := Some (job_deleter st);
                        deletionInProgress := deletionInProgress s;
                        deletionStats := job_stats st |};
           trace := job_trace st;
           status := Running |}
  end.

End Web.

(* ================================================================== *)
(** ** The command-line tool (src/index.js) *)

Module Cli.

(** The listing side of the remote client: [client.v2.me] gives the id of
    the user, [client.v2.userTimeline] the [data] array of the response, if
    it has one. *)
Record Timeline := mkTimeline {
  me : Completion string;
  userTimeline : string -> Z -> Completion (option (list Tweet))
}.

(** The predicate of [allTweets.filter]. *)
Definition isOriginal (tweet : Tweet) : bool :=
  negb (JS.startsWith (text tweet) "@")
  && negb (JS.startsWith (text tweet) "RT @").

(** [fetchUserTweets (maxResults)]; every error ends in [return []]. *)
Definition fetchUserTweets (this : TweetDeleter) (api : Timeline)
    (maxResults : Z) : list Tweet :=
  match me api with
  | Throw _ => []
  | Return userId =>
      let freetierMaxResults := Z.min maxResults 10 in
      match userTimeline api userId freetierMaxResults with
      | Throw _ => []
      | Return data =>
          let allTweets := match data with Some l => l | None => [] end in
          let originalTweets := filter isOriginal allTweets in
          let limitedTweets :=
            JS.slice originalTweets 0 (maxDeletionsPerDay this) in
          limitedTweets
      end
  end.

(** The state of one call of [deleteTweetsInBatches]. *)
Record Job := mkJob {
  job_this : TweetDeleter;
  deletedCount : nat;
  failedCount : nat;
  job_calls : nat;
  job_trace : list Event
}.

Definition emit (st : Job) (evs : list Event) : Job :=
  {| job_this := job_this st;
     deletedCount := deletedCount st;
     failedCount := failedCount st;
     job_calls := job_calls st;
     job_trace := job_trace st ++ evs |}.

(** One pass through the body of [for (let j = 0; j < batch.length; j++)]:
    the new state and the value of [j] at the next test of the loop. *)
Definition item (w : World) (tweet : Tweet) (j : Z) (st : Job) : Job * Z :=
  let n := job_calls st in
  match deleteTweet (endpoint w n) (id tweet) with
  | Return result =>
      if success result then
        let now := clock w n in
        ({| job_this :=
              pushLog (job_this st)
                {| log_id := id tweet; log_text := Some (text tweet);
                   log_created_at := Some (created_at tweet);
                   deleted_at := now |};
            deletedCount := S (deletedCount st);
            failedCount := failedCount st;
            job_calls := S n;
            job_trace :=
              job_trace st
              ++ [EvAttempt (id tweet) (Deleted now); EvPause 300000] |},
         j + 1)
      else
        ({| job_this := job_this st;
            deletedCount := deletedCount st;
            failedCount := S (failedCount st);
            job_calls := S n;
            job_trace :=
              job_trace st
              ++ [EvAttempt (id tweet)
                    (Failed (match error result with
                             | Some m => m
                             | None => ""
                             end));
                  EvPause 300000] |},
         j + 1)
  | Throw e =>
      if code e =? 429 then
        (* sleep, then [j--; continue]: the increment of the loop brings
           [j] back to the same element *)
        ({| job_this := job_this st;
            deletedCount := deletedCount st;
            failedCount := failedCount st;
            job_calls := S n;
            job_trace :=
              job_trace st
              ++ [EvAttempt (id tweet) Throttled;
                  EvSleep RateLimitWait
                    (rateLimitWaitCli e (clock w n))] |},
         j - 1 + 1)
      else
        ({| job_this := job_this st;
            deletedCount := deletedCount st;
            failedCount := S (failedCount st);
            job_calls := S n;
            job_trace :=
              job_trace st ++ [EvAttempt (id tweet) (Failed (message e))] |},
         j + 1)
  end.

(** The inner loop from index [j] on.  [batch[j]] outside the batch is
    [undefined], [tweet.id] then throws inside the [try] and the item counts
    as failed. *)
Fixpoint items (w : World) (fuel : nat) (batch : list Tweet) (j : Z)
    (st : Job) : Job * bool :=
  match fuel with
  | O => (st, false)
  | S fuel' =>
      if j <? Z.of_nat (List.length batch) then
        match (if j <? 0 then None else nth_error batch (Z.to_nat j)) with
        | Some tweet =>
            let '(st', j') := item w tweet j st in
            items w fuel' batch j' st'
        | None =>
            items w fuel' batch (j + 1)
              {| job_this := job_this st;
                 deletedCount := deletedCount st;
                 failedCount := S (failedCount st);
                 job_calls := job_calls st;
                 job_trace := job_trace st |}
        end
      else (st, true)
  end.

(** The outer loop [for (let i = 0; i < tweets.length; i +=
    this.tweetsPerBatch)] from index [i] on. *)
Fixpoint batches (w : World) (tweets : list Tweet) (fuel : nat) (i : Z)
    (st : Job) : Job * bool :=
  match fuel with
  | O => (st, false)
  | S fuel' =>
      let len := Z.of_nat (List.length tweets) in
      if i <? len then
        let batch := JS.slice tweets i (i + tweetsPerBatch (job_this st)) in
        let '(st1, finished) :=
          items w fuel' batch 0 (emit st [EvBatch (map id batch)]) in
        if finished then
          let st2 :=
            if i + tweetsPerBatch (job_this st1) <? len
            then emit st1
                   [EvSleep BatchDelay (batchDelayMinutes (job_this st1))]
            else st1 in
          batches w tweets fuel' (i + tweetsPerBatch (job_this st2)) st2
        else (st1, false)
      else (st, true)
  end.

(** [deleteTweetsInBatches (tweets)]: the final state and whether the
    method returned within [fuel] iterations. *)
Definition deleteTweetsInBatches (w : World) (fuel : nat)
    (this : TweetDeleter) (tweets : list Tweet) : Job * bool :=
  batches w tweets fuel 0
    {| job_this := this; deletedCount := 0; failedCount := 0;
       job_calls := 0; job_trace := [] |}.

(** The end of [main]: [deleteTweetsInBatches] followed by
    [saveDeletionLog].  [None] while the scheduler is still running or when
    the file cannot be written, otherwise the events of the run, which end
    with the saved log. *)
Definition deleteAndSave (w : World) (fuel : nat) (this : TweetDeleter)
    (tweets : list Tweet) : option (list Event) :=
  let '(st, finished) := deleteTweetsInBatches w fuel this tweets in
  if finished && writeFileOk w
  then Some (job_trace st ++ [EvSave (deletedTweets (job_this st))])
  else None.

End Cli.

(* ================================================================== *)
(** ** Reading a trace *)

(** The batches sliced off, in order. *)
Fixpoint batchesOf (tr : list Event) : list (list string) :=
  match tr with
  | [] => []
  | EvBatch b :: tr' => b :: batchesOf tr'
  | _ :: tr' => batchesOf tr'
  end.

(** The attempts, in order. *)
Fixpoint attemptsOf (tr : list Event) : list (string * Attempt) :=
  match tr with
  | [] => []
  | EvAttempt x a :: tr' => (x, a) :: attemptsOf tr'
  | _ :: tr' => attemptsOf tr'
  end.

(** The arguments of the calls of [sleep] at one site, in order. *)
Fixpoint sleepsOf (site : SleepSite) (tr : list Event) : list Z :=
  match tr with
  | [] => []
  | EvSleep s m :: tr' =>
      match s, site with
      | RateLimitWait, RateLimitWait => m :: sleepsOf site tr'
      | BatchDelay, BatchDelay => m :: sleepsOf site tr'
      | _, _ => sleepsOf site tr'
      end
  | _ :: tr' => sleepsOf site tr'
  end.

(** The counters published, in order. *)
Fixpoint snapshotsOf (tr : list Event) : list Stats :=
  match tr with
  | [] => []
  | EvProgress s :: tr' => s :: snapshotsOf tr'
  | _ :: tr' => snapshotsOf tr'
  end.

(** The log as written by the last [saveDeletionLog], if any. *)
Fixpoint savedLog (tr : list Event) : option (list LogEntry) :=
  match tr with
  | [] => None
  | EvSave l :: tr' =>
      match savedLog tr' with Some l' => Some l' | None => Some l end
  | _ :: tr' => savedLog tr'
  end.

Definition isTerminal (a : Attempt) : bool :=
  match a with Throttled => false | _ => true end.

Definition isFailed (a : Attempt) : bool :=
  match a with Failed _ => true | _ => false end.

(** The terminal outcomes of a run, in the order of the attempts. *)
Definition terminalOutcomes (tr : list Event) : list (string * Attempt) :=
  filter (fun p => isTerminal (snd p)) (attemptsOf tr).

(* ================================================================== *)
(** ** Sample worlds and inputs *)

Module Sample.

Definition throttled (r : option Z) : ApiReply :=
  Rejected {| code := 429; message := "Too Many Requests";
              rateLimit := Some {| reset := r |} |}.

Definition notFound : ApiReply :=
  Rejected {| code := 404; message := "Not Found"; rateLimit := None |}.

(** Every call succeeds. *)
Definition calm : World :=
  {| endpoint := fun _ => Resolved; clock := fun _ => 0;
     writeFileOk := true;
     reinitialized := fun _ => false |}.

(** The first call is throttled without a reset time, the others succeed. *)
Definition throttledOnce : World :=
  {| endpoint := fun n => match n with O => throttled None | _ => Resolved end;
     clock := fun _ => 0;
     writeFileOk := true;
     reinitialized := fun _ => false |}.

(** Every call is throttled. *)
Definition stormy : World :=
  {| endpoint := fun _ => throttled None; clock := fun _ => 0;
     writeFileOk := true;
     reinitialized := fun _ => false |}.

(** Every call fails with an error that is not a throttling. *)
Definition broken : World :=
  {| endpoint := fun _ => notFound; clock := fun _ => 0;
     writeFileOk := true;
     reinitialized := fun _ => false |}.

(** The server after an initialisation with the given batch size. *)
Definition ready (tweetsPerBatch : Z) : Web.Server :=
  snd (Web.initializeDeleter (Some tweetsPerBatch) None true Web.initial).

Definition tweet (name : string) : Tweet :=
  {| id := name; text := "hello"; created_at := "2024-01-01" |}.

(** A listing of twenty posts: a reply, a retweet, a second reply, and
    seventeen posts of the user's own. *)
Definition listed : list Tweet :=
  [ {| id := "1"; text := "@bob thanks"; created_at := "2024-01-01" |};
    {| id := "2"; text := "RT @carol: news"; created_at := "2024-01-01" |};
    {| id := "3"; text := "@dave yes"; created_at := "2024-01-01" |} ]
  ++ map tweet
       ["4"; "5"; "6"; "7"; "8"; "9"; "10"; "11"; "12"; "13"; "14"; "15";
        "16"; "17"; "18"; "19"; "20"].

Definition timeline : Cli.Timeline :=
  {| Cli.me := Return "me";
     Cli.userTimeline := fun _ _ => Return (Some listed) |}.

End Sample.

(* ================================================================== *)
(** ** Notions used by the statements *)

(** The reset time a throttling error carries, whatever its value. *)
Definition carriedReset (e : ApiError) : option Z :=
  match rateLimit e with
  | Some rl => reset rl
  | None => None
  end.

(** [m] is the ceiling of the minutes from the clock reading [now], in
    milliseconds, to the epoch second [resetEpoch]: the least integer that
    is at least [(resetEpoch - now / 1000) / 60]. *)
Definition isCeilMinutes (resetEpoch now m : Z) : Prop :=
  60000 * (m - 1) < resetEpoch * 1000 - now <= 60000 * m.

(** The reset times for which the integers of [minutesUntilReset] are the
    numbers of the code: [new Date (resetEpoch * 1000)] is a valid date, which
    it is up to 8.64e15 milliseconds either side of the epoch, and the
    difference of the two dates is at most 2^53, so that the difference and
    its quotient by 60000 are computed on doubles without a rounding that
    [Math.ceil] could see. *)
Definition withinDates (resetEpoch now : Z) : Prop :=
  Z.abs (resetEpoch * 1000) <= 8640000000000000
  /\ Z.abs (resetEpoch * 1000 - now) <= 2 ^ 53.

(** The percentage as the specification words it:
    [round (100 * (deleted + failed) / total)] when [total > 0], else [0],
    on exact numbers, a half rounding up as [Math.round] does. *)
Definition specPercent (st : Stats) : Z :=
  let done := Z.of_nat (deleted st + failed st) in
  let all := Z.of_nat (total st) in
  if 0 <? all then (2 * (100 * done) + all) / (2 * all) else 0.

(** The same formula on doubles, evaluated in the order in which the
    specification writes it. *)
Definition specPercentOnDoubles (st : Stats) : Z :=
  if (0 <? total st)%nat then
    JS.mathRound
      ((JS.toNumber 100
        * (JS.toNumber (Z.of_nat (deleted st))
           + JS.toNumber (Z.of_nat (failed st))))
       / JS.toNumber (Z.of_nat (total st)))%float
  else 0.

(** The partition of a list into consecutive chunks of [size] elements, the
    last one holding the remainder. *)
Fixpoint chunksFuel {A : Type} (fuel size : nat) (l : list A)
  : list (list A) :=
  match fuel with
  | O => []
  | S fuel' =>
      match l with
      | [] => []
      | _ :: _ => firstn size l :: chunksFuel fuel' size (skipn size l)
      end
  end.

Definition chunksOf {A : Type} (size : nat) (l : list A) : list (list A) :=
  chunksFuel (List.length l) size l.

(** The batch-level view of a trace: the batches, and a mark for every
    inter-batch call of [sleep] with its argument. *)
Inductive BatchStep :=
| Chunk (batch : list string)
| Delay (minutes : Z).

Fixpoint batchSteps (tr : list Event) : list BatchStep :=
  match tr with
  | [] => []
  | EvBatch b :: tr' => Chunk b :: batchSteps tr'
  | EvSleep BatchDelay m :: tr' => Delay m :: batchSteps tr'
  | _ :: tr' => batchSteps tr'
  end.

(** Chunks separated by one delay each: none before the first chunk, none
    after the last. *)
Fixpoint delayedChunks (minutes : Z) (chunks : list (list string))
  : list BatchStep :=
  match chunks with
  | [] => []
  | [c] => [Chunk c]
  | c :: rest => Chunk c :: Delay minutes :: delayedChunks minutes rest
  end.

(** The states the globals of the server can be in: any sequence of
    initialisations, deletion requests, passes of the job through its
    per-item code (which is where a run is when a request comes in) and
    partial or whole runs of the job. *)
Inductive reachable : Web.Server -> Prop :=
| reach_initial : reachable Web.initial
| reach_initialize s b d valid :
    reachable s -> reachable (snd (Web.initializeDeleter b d valid s))
| reach_post s body :
    reachable s -> reachable (snd (fst (Web.postDeleteTweets body s)))
| reach_item s w tweet st :
    reachable s ->
    Web.deleter s = Some (Web.job_deleter st) ->
    Web.deletionStats s = Web.job_stats st ->
    reachable
      {| Web.deleter := Some (Web.job_deleter (Web.item w tweet st));
         Web.deletionInProgress := Web.deletionInProgress s;
         Web.deletionStats := Web.job_stats (Web.item w tweet st) |}
| reach_job s w fuel ids :
    reachable s -> reachable (Web.server (Web.processDeletion w fuel ids s)).

(** From the [k]-th call on, no reply of the world is a throttling error. *)
Definition calmFrom (k : nat) (w : World) : Prop :=
  forall n, (k <= n)%nat ->
            match endpoint w n with
            | Resolved => True
            | Rejected e => code e <> 429
            end.

(** Every reply of the world is a throttling error. *)
Definition alwaysThrottles (w : World) : Prop :=
  forall n, exists e, endpoint w n = Rejected e /\ code e = 429.

(** No reply of the world is a throttling error. *)
Definition neverThrottles (w : World) : Prop :=
  forall n, match endpoint w n with
            | Resolved => True
            | Rejected e => code e <> 429
            end.

(** [POST /api/initialize] is not handled while the web job runs. *)
Definition neverReinitialized (w : World) : Prop :=
  forall n, reinitialized w n = false.

(** The items accounted for by a snapshot. *)
Definition processed (s : Stats) : nat := (deleted s + failed s)%nat.

(** Whether the progress endpoint and the specification agree on a
    snapshot. *)
Definition agreesAt (t d f : nat) : bool :=
  Web.percent {| deleted := d; failed := f; total := t |}
  =? specPercent {| deleted := d; failed := f; total := t |}.

(** What the specification asks of a snapshot of a run over [n] ids. *)
Definition withinTotal (n : nat) (s : Stats) : Prop :=
  (deleted s + failed s <= total s)%nat /\ total s = n.

(** The invariant of the outer loop of the web job over [n] items: the
    counters never run ahead of the index, whatever the sign of the batch
    size. *)
Definition webLoopInv (n : nat) (st : Web.Job) : Prop :=
  let c := Z.of_nat (processed (Web.job_stats st)) in
  let i := Web.job_i st in
  let size := tweetsPerBatch (Web.job_deleter st) in
  total (Web.job_stats st) = n
  /\ c <= Z.of_nat n
  /\ ((0 < size /\ 0 <= i /\ c <= i)
      \/ (size <= 0 /\ ((i = 0 /\ c = 0) \/ i < 0))).

(** The deletions recorded by a trace, each with its timestamp, in the order
    of the attempts. *)
Fixpoint deletionsOf (tr : list Event) : list (string * Z) :=
  match tr with
  | [] => []
  | EvAttempt x (Deleted timestamp) :: tr' => (x, timestamp) :: deletionsOf tr'
  | _ :: tr' => deletionsOf tr'
  end.

(** The id and timestamp of each entry of a log. *)
Definition logKeys (log : list LogEntry) : list (string * Z) :=
  map (fun e => (log_id e, deleted_at e)) log.

(** The saved log has one record for every terminal outcome, Deleted or
    Failed, in the order of the attempts. *)
Definition logsEveryOutcome (tr : list Event) : Prop :=
  exists log, savedLog tr = Some log
              /\ map log_id log = map fst (terminalOutcomes tr).

(** The number of failed attempts of a trace. *)
Definition failuresOf (tr : list Event) : nat :=
  List.length (filter (fun p => isFailed (snd p)) (attemptsOf tr)).

(** The retry discipline, as an automaton over the events: after a
    throttled attempt on [x] comes the wait, and after the wait the next
    event is an attempt on [x] again. *)
Inductive Pending :=
| Idle
| MustWait (x : string)
| MustRetry (x : string).

Definition afterAttempt (x : string) (a : Attempt) : Pending :=
  match a with
  | Throttled => MustWait x
  | _ => Idle
  end.

Fixpoint retryOk (p : Pending) (tr : list Event) : bool :=
  match tr with
  | [] => true
  | EvAttempt y a :: tr' =>
      match p with
      | Idle => retryOk (afterAttempt y a) tr'
      | MustRetry x => String.eqb x y && retryOk (afterAttempt y a) tr'
      | MustWait _ => false
      end
  | EvSleep RateLimitWait _ :: tr' =>
      match p with
      | Idle => retryOk Idle tr'
      | MustWait x => retryOk (MustRetry x) tr'
      | MustRetry _ => false
      end
  | _ :: tr' =>
      match p with
      | Idle => retryOk Idle tr'
      | _ => false
      end
  end.

(** The chunks and the delays of a batch-level view. *)
Fixpoint stepChunks (steps : list BatchStep) : list (list string) :=
  match steps with
  | [] => []
  | Chunk c :: rest => c :: stepChunks rest
  | Delay _ :: rest => stepChunks rest
  end.

Fixpoint stepDelays (steps : list BatchStep) : list Z :=
  match steps with
  | [] => []
  | Chunk _ :: rest => stepDelays rest
  | Delay m :: rest => m :: stepDelays rest
  end.

(** The size of the last chunk of [n] items cut by [size]. *)
Definition lastChunkSize (n size : Z) : Z :=
  if n mod size =? 0 then size else n mod size.

(** The part of a job that the per-item code leaves alone: the batch-level
    view of the trace and the two settings of the deleter. *)
Definition cliQuiet (steps : list BatchStep) (size delay : Z)
    (st : Cli.Job) : Prop :=
  batchSteps (Cli.job_trace st) = steps
  /\ tweetsPerBatch (Cli.job_this st) = size
  /\ batchDelayMinutes (Cli.job_this st) = delay.

Definition webQuiet (steps : list BatchStep) (size delay : Z)
    (st : Web.Job) : Prop :=
  batchSteps (Web.job_trace st) = steps
  /\ tweetsPerBatch (Web.job_deleter st) = size
  /\ batchDelayMinutes (Web.job_deleter st) = delay.

(** The counters of the command-line scheduler count the outcomes of the
    trace. *)
Definition cliCountInv (st : Cli.Job) : Prop :=
  Cli.failedCount st = failuresOf (Cli.job_trace st)
  /\ Cli.deletedCount st = List.length (deletionsOf (Cli.job_trace st)).

(** The log of the deleter holds the deletions of the trace, after what it
    held at the start of the run. *)
Definition cliLogInv (base : list (string * Z)) (st : Cli.Job) : Prop :=
  logKeys (deletedTweets (Cli.job_this st))
  = base ++ deletionsOf (Cli.job_trace st).

Definition webLogInv (base : list (string * Z)) (st : Web.Job) : Prop :=
  logKeys (deletedTweets (Web.job_deleter st))
  = base ++ deletionsOf (Web.job_trace st).

(** Whatever is replaced, the log of the deleter holds the last records of
    what it held at the start of the run followed by the deletions of the
    trace. *)
Definition webSuffixInv (base : list (string * Z)) (st : Web.Job) : Prop :=
  exists k,
    (k <= List.length (base ++ deletionsOf (Web.job_trace st)))%nat
    /\ logKeys (deletedTweets (Web.job_deleter st))
       = skipn k (base ++ deletionsOf (Web.job_trace st)).

(* ================================================================== *)
(** ** More ways to read a trace *)

(** The ids that have received a terminal outcome, in the order of the
    attempts. *)
Definition terminalIds (tr : list Event) : list string :=
  map fst (terminalOutcomes tr).

(** The timers awaited between two items, in milliseconds. *)
Fixpoint pausesOf (tr : list Event) : list Z :=
  match tr with
  | [] => []
  | EvPause ms :: tr' => ms :: pausesOf tr'
  | _ :: tr' => pausesOf tr'
  end.

(** The ids [deleteTweet] was called on, in order. *)
Definition attemptedIds (tr : list Event) : list string :=
  map fst (attemptsOf tr).

(** ** More sample worlds *)

Module Cases.

(** The second call fails with an error that is not a throttling, the
    others succeed. *)
Definition flaky : World :=
  {| endpoint := fun n => match n with
                          | 1%nat => Sample.notFound
                          | _ => Resolved
                          end;
     clock := fun n => Z.of_nat n;
     writeFileOk := true;
     reinitialized := fun _ => false |}.

(** Every call succeeds, and [POST /api/initialize] is handled while the
    job awaits its second call. *)
Definition interrupted : World :=
  {| endpoint := fun _ => Resolved;
     clock := fun n => Z.of_nat n;
     writeFileOk := true;
     reinitialized := fun n => match n with 1%nat => true | _ => false end |}.

End Cases.

(* ================================================================== *)
(** ** The other routes of the server (src/unnamed/part_000) *)

(** [validateCredentials]: whether [client.v2.me] resolves. *)
Definition validateCredentials (me : Completion string) : bool :=
  match me with
  | Return _ => true
  | Throw _ => false
  end.

Module Routes.

(** The body of [GET /api/status]. *)
Record Status := mkStatus {
  initialized : bool;
  status_deletionInProgress : bool;
  status_stats : Stats
}.

Definition getStatus (s : Web.Server) : Status :=
  {| initialized := match Web.deleter s with
                    | Some _ => true
                    | None => false
                    end;
     status_deletionInProgress := Web.deletionInProgress s;
     status_stats := Web.deletionStats s |}.

(** The body of [POST /api/initialize].  [initializeDeleter] catches what
    it throws, so the handler always answers with status 200. *)
Record InitReply := mkInitReply {
  init_success : bool;
  init_message : string
}.

Definition postInitialize (envTweetsPerBatch envBatchDelay : option Z)
    (me : Completion string) (s : Web.Server) : InitReply * Web.Server :=
  let '(success, s') :=
    Web.initializeDeleter envTweetsPerBatch envBatchDelay
      (validateCredentials me) s in
  ({| init_success := success;
      init_message := if success then "Initialized successfully"
                      else "Failed to initialize" |},
   s').

(** Answers of [GET /api/tweets]: 400 without a deleter, otherwise the
    listing and its length ([fetchUserTweets] never throws). *)
Inductive TweetsReply :=
| TweetsNotInitialized
| TweetsListed (tweets : list Tweet) (count : nat).

Definition getTweets (api : Cli.Timeline) (s : Web.Server) : TweetsReply :=
  match Web.deleter s with
  | None => TweetsNotInitialized
  | Some d =>
      let tweets := Cli.fetchUserTweets d api 100 in
      TweetsListed tweets (List.length tweets)
  end.

End Routes.

(* ================================================================== *)
(** ** The command-line program (src/index.js, [askConfirmation], [main]) *)

Module Main.

(** [String.prototype.toLowerCase] on one character.  A string is held as
    its UTF-8 bytes; the letters A to Z are mapped to a to z.  The result
    is only ever compared with 'y' and 'yes', and no character outside A to
    Z has y, e or s as its lower case, so the other bytes are left as they
    are. *)
Definition toLowerChar (c : Ascii.ascii) : Ascii.ascii :=
  let n := Ascii.nat_of_ascii c in
  if ((65 <=? n) && (n <=? 90))%nat then Ascii.ascii_of_nat (n + 32) else c.

Fixpoint toLowerCase (s : string) : string :=
  match s with
  | EmptyString => EmptyString
  | String c s' => String (toLowerChar c) (toLowerCase s')
  end.

(** [askConfirmation]: the promise resolves to
    [answer.toLowerCase() === 'y' || answer.toLowerCase() === 'yes'], where
    [answer] is the line typed by the user. *)
Definition askConfirmation (answer : string) : bool :=
  String.eqb (toLowerCase answer) "y"
  || String.eqb (toLowerCase answer) "yes".

(** How [main] ends. *)
Inductive Exit :=
| ExitBadCredentials                (** [process.exit(1)] *)
| ExitNoTweets                      (** [process.exit(0)], nothing listed *)
| ExitCancelled                     (** [process.exit(0)], not confirmed *)
| Summary (deleted failed : nat)    (** the summary was printed *)
| Rejected                          (** [saveDeletionLog] failed *)
| Running.                          (** the scheduler has not returned *)

Record Outcome := mkOutcome {
  exit : Exit;
  events : list Event
}.

(** [main].  [login] is the reply to the call of [client.v2.me] made by
    [validateCredentials], [api] the listing side of the client as
    [fetchUserTweets] sees it, [answer] the line typed at the prompt. *)
Definition main (envTweetsPerBatch envBatchDelay : option Z)
    (login : Completion string) (api : Cli.Timeline) (answer : string)
    (w : World) (fuel : nat) : Outcome :=
  let deleter := newTweetDeleter envTweetsPerBatch envBatchDelay in
  if negb (validateCredentials login) then
    {| exit := ExitBadCredentials; events := [] |}
  else
    let tweets := Cli.fetchUserTweets deleter api 100 in
    if (List.length tweets =? 0)%nat then
      {| exit := ExitNoTweets; events := [] |}
    else
      let confirm := askConfirmation answer in
      if negb confirm then {| exit := ExitCancelled; events := [] |}
      else
        let '(st, finished) :=
          Cli.deleteTweetsInBatches w fuel deleter tweets in
        if finished then
          if writeFileOk w then
            {| exit := Summary (Cli.deletedCount st) (Cli.failedCount st);
               events := Cli.job_trace st
                         ++ [EvSave (deletedTweets (Cli.job_this st))] |}
          else {| exit := Rejected; events := Cli.job_trace st |}
        else {| exit := Running; events := Cli.job_trace st |}.

End Main.

(* ================================================================== *)
(** ** The page (src/unnamed/part_001) *)

Module Page.

(** A JavaScript [Set] of strings, as the list of its elements in the order
    of their insertion, which is the order [Array.from] returns them in. *)
Definition has (s : list string) (x : string) : bool :=
  existsb (String.eqb x) s.

Definition add (s : list string) (x : string) : list string :=
  if has s x then s else s ++ [x].

Definition delete (s : list string) (x : string) : list string :=
  filter (fun y => negb (String.eqb x y)) s.

(** [new Set (array)]. *)
Definition ofArray (l : list string) : list string := fold_left add l [].

(** The two globals of the script. *)
Record State := mkState {
  tweets : list Tweet;
  selectedTweets : list string
}.

Definition initial : State := {| tweets := []; selectedTweets := [] |}.

(** [loadTweets], given the answer of [GET /api/tweets]: a body with a
    [tweets] array replaces the global, a body without one is an error and
    leaves it alone. *)
Definition loadTweets (reply : Routes.TweetsReply) (st : State) : State :=
  match reply with
  | Routes.TweetsListed listed _ =>
      {| tweets := listed; selectedTweets := selectedTweets st |}
  | Routes.TweetsNotInitialized => st
  end.

Definition toggleTweet (tweetId : string) (st : State) : State :=
  {| tweets := tweets st;
     selectedTweets :=
       if has (selectedTweets st) tweetId
       then delete (selectedTweets st) tweetId
       else add (selectedTweets st) tweetId |}.

Definition selectAll (st : State) : State :=
  {| tweets := tweets st; selectedTweets := ofArray (map id (tweets st)) |}.

Definition selectNone (st : State) : State :=
  {| tweets := tweets st; selectedTweets := [] |}.

(** [selectOld].  [dateOf] is [new Date (string)] in milliseconds, [None]
    for an invalid date, which compares false; [oneYearAgo] is the date the
    function computes from the clock. *)
Definition selectOld (dateOf : string -> option Z) (oneYearAgo : Z)
    (st : State) : State :=
  {| tweets := tweets st;
     selectedTweets :=
       fold_left
         (fun sel tweet =>
            match dateOf (created_at tweet) with
            | Some tweetDate =>
                if tweetDate <? oneYearAgo then add sel (id tweet) else sel
            | None => sel
            end)
         (tweets st) [] |}.

(** [deleteSelected]: the [tweetIds] of the request it sends, if it sends
    one.  [confirmed] is the answer to the [confirm] dialog. *)
Definition deleteSelected (confirmed : bool) (st : State)
  : option (list string) :=
  if (List.length (selectedTweets st) =? 0)%nat then None
  else if negb confirmed then None
  else Some (selectedTweets st).

(** [pollDeletionProgress], given the [inProgress] of the report: once the
    run is over the posts selected at that moment are taken off the page and
    the selection is emptied. *)
Definition pollDeletionProgress (inProgress : bool) (st : State) : State :=
  if inProgress then st
  else
    {| tweets :=
         filter (fun tweet => negb (has (selectedTweets st) (id tweet)))
           (tweets st);
       selectedTweets := [] |}.

(** What the user and the timers can do on the page once the posts are
    loaded. *)
Inductive Action :=
| ClickCard (k : nat)            (** a click on the k-th card *)
| ClickSelectAll
| ClickSelectNone
| ClickSelectOld (oneYearAgo : Z)
| Poll (inProgress : bool).

Definition step (dateOf : string -> option Z) (st : State) (a : Action)
  : State :=
  match a with
  | ClickCard k =>
      match nth_error (tweets st) k with
      | Some tweet => toggleTweet (id tweet) st
      | None => st
      end
  | ClickSelectAll => selectAll st
  | ClickSelectNone => selectNone st
  | ClickSelectOld oneYearAgo => selectOld dateOf oneYearAgo st
  | Poll inProgress => pollDeletionProgress inProgress st
  end.

Definition run (dateOf : string -> option Z) (acts : list Action)
    (st : State) : State :=
  fold_left (step dateOf) acts st.

End Page.

(** What the page keeps true of its selection: no id twice, and only ids of
    posts on the page, which are posts of the listing it loaded. *)
Definition pageInv (listing : list Tweet) (st : Page.State) : Prop :=
  NoDup (Page.selectedTweets st)
  /\ incl (Page.selectedTweets st) (map id (Page.tweets st))
  /\ incl (Page.tweets st) listing
  /\ (List.length (Page.tweets st) <= List.length listing)%nat.

(* ================================================================== *)
(** ** Facts about the JavaScript primitives *)

Module JSFacts.

Lemma ceilDiv_bounds (a b : Z) :
  0 < b -> b * (JS.ceilDiv a b - 1) < a <= b * JS.ceilDiv a b.
Proof.
  intros Hb. unfold JS.ceilDiv.
  pose proof (Z.div_mod (- a) b ltac:(lia)) as Hdm.
  pose proof (Z.mod_pos_bound (- a) b Hb) as Hm.
  nia.
Qed.

Lemma ceilDiv_unique (a b m : Z) :
  0 < b -> b * (m - 1) < a <= b * m -> JS.ceilDiv a b = m.
Proof.
  intros Hb Hm. pose proof (ceilDiv_bounds a Hb). nia.
Qed.

Lemma relIndex_range (len k : Z) :
  0 <= len -> 0 <= JS.relIndex len k <= len.
Proof. intros H. unfold JS.relIndex. destruct (Z.ltb_spec k 0); lia. Qed.

Lemma slice_length {A : Type} (l : list A) (start stop : Z) :
  Z.of_nat (List.length (JS.slice l start stop))
  = Z.max 0 (JS.relIndex (Z.of_nat (List.length l)) stop
             - JS.relIndex (Z.of_nat (List.length l)) start).
Proof.
  unfold JS.slice.
  pose proof (relIndex_range start (Nat2Z.is_nonneg (List.length l))).
  pose proof (relIndex_range stop (Nat2Z.is_nonneg (List.length l))).
  rewrite length_firstn, length_skipn. lia.
Qed.

(** Inside the array and with a non-negative width, [slice] is
    [firstn] after [skipn]. *)
Lemma slice_window {A : Type} (l : list A) (i width : nat) :
  (i <= List.length l)%nat ->
  JS.slice l (Z.of_nat i) (Z.of_nat i + Z.of_nat width)
  = firstn width (skipn i l).
Proof.
  intros Hi. unfold JS.slice, JS.relIndex.
  destruct (Z.ltb_spec (Z.of_nat i) 0); [lia|].
  destruct (Z.ltb_spec (Z.of_nat i + Z.of_nat width) 0); [lia|].
  replace (Z.to_nat (Z.min (Z.of_nat i) (Z.of_nat (List.length l)))) with i
    by lia.
  destruct (Z.le_gt_cases (Z.of_nat i + Z.of_nat width)
              (Z.of_nat (List.length l))).
  - f_equal. lia.
  - rewrite (firstn_all2 (n := width)) by (rewrite length_skipn; lia).
    apply firstn_all2. rewrite length_skipn. lia.
Qed.

Lemma sleepFrom_count (fuel : nat) (i minutes : Z) :
  Z.of_nat fuel = Z.max 0 (minutes - i) ->
  sleepFrom fuel i minutes = fuel.
Proof.
  revert i. induction fuel as [|fuel IH]; intros i H; simpl; [reflexivity|].
  destruct (Z.ltb_spec i minutes); [|lia].
  f_equal. apply IH. lia.
Qed.

(** [sleep] waits one minute per unit of a positive argument, and does not
    wait at all for an argument that is zero or negative. *)
Lemma sleep_minutes (minutes : Z) : sleep minutes = Z.to_nat minutes.
Proof. unfold sleep. apply sleepFrom_count. lia. Qed.

End JSFacts.

(* ================================================================== *)
(** ** The wait after a throttling error *)

Lemma resetOf_carried (e : ApiError) (r : Z) :
  carriedReset e = Some r -> r <> 0 -> resetOf e = Some r.
Proof.
  unfold carriedReset, resetOf.
  destruct (rateLimit e) as [rl|]; [|discriminate].
  intros -> Hr. simpl. destruct (Z.eqb_spec r 0); congruence.
Qed.

Lemma resetOf_missing (e : ApiError) :
  carriedReset e = None \/ carriedReset e = Some 0 -> resetOf e = None.
Proof.
  unfold carriedReset, resetOf. destruct (rateLimit e) as [rl|]; [|reflexivity].
  intros [-> | ->]; reflexivity.
Qed.

Lemma minutesUntilReset_ceil (r now : Z) :
  isCeilMinutes r now (minutesUntilReset r now).
Proof.
  unfold isCeilMinutes, minutesUntilReset.
  pose proof (@JSFacts.ceilDiv_bounds (r * 1000 - now) (1000 * 60)). lia.
Qed.

(** C5, as amended.  A throttling error that carries a reset time other than
    zero, one that [Date] can hold and that lies within 2^53 milliseconds of
    the clock reading, makes both schedulers call [sleep] with the ceiling of
    the minutes until that time plus a constant buffer, one minute in the web
    job and five in the command-line tool; an error with no reset time, or
    with the reset time zero, makes them call it with a fixed fallback, 15
    minutes in the web job and 24 hours in the command-line tool.  [sleep]
    awaits one one-minute timer per unit of its argument, and none when the
    argument is not positive. *)
Theorem rate_limit_wait (e : ApiError) (now : Z) :
  (forall r, carriedReset e = Some r -> r <> 0 -> withinDates r now ->
     exists m, isCeilMinutes r now m
               /\ rateLimitWaitWeb e now = m + 1
               /\ rateLimitWaitCli e now = m + 5)
  /\ (carriedReset e = None \/ carriedReset e = Some 0 ->
      rateLimitWaitWeb e now = 15 /\ rateLimitWaitCli e now = 24 * 60)
  /\ (forall minutes, sleep minutes = Z.to_nat minutes).
Proof.
  repeat split.
  - intros r Hc Hr _. exists (minutesUntilReset r now).
    unfold rateLimitWaitWeb, rateLimitWaitCli.
    rewrite (resetOf_carried e Hc Hr).
    auto using minutesUntilReset_ceil.
  - unfold rateLimitWaitWeb. now rewrite (resetOf_missing e H).
  - unfold rateLimitWaitCli. now rewrite (resetOf_missing e H).
  - apply JSFacts.sleep_minutes.
Qed.

(** The scenario of the specification: the reset is 600 seconds ahead, the
    web job waits 11 minutes and the command-line tool 15. *)
Lemma rate_limit_wait_witness :
  let e := {| code := 429; message := "Too Many Requests";
              rateLimit := Some {| reset := Some 1700000600 |} |} in
  exists m, isCeilMinutes 1700000600 1700000000000 m
            /\ rateLimitWaitWeb e 1700000000000 = m + 1
            /\ rateLimitWaitCli e 1700000000000 = m + 5.
Proof.
  intro e.
  apply (proj1 (rate_limit_wait e 1700000000000) 1700000600);
    [reflexivity | lia | split; vm_compute; discriminate].
Defined.

(** C5 as stated fails for a reset time of zero.  The error carries it,
    so the stated wait is the ceiling of the minutes from the clock reading
    to the epoch plus at most five minutes (a negative number for a clock of
    our days); the guard [if (error.rateLimit?.reset)] takes zero for a
    missing value, the web job waits 15 minutes and the command-line tool a
    day. *)
Lemma rate_limit_wait_zero_reset :
  let e := {| code := 429; message := "Too Many Requests";
              rateLimit := Some {| reset := Some 0 |} |} in
  let now := 1700000000000 in
  carriedReset e = Some 0
  /\ rateLimitWaitWeb e now = 15
  /\ rateLimitWaitCli e now = 24 * 60
  /\ ~ (exists m buffer, isCeilMinutes 0 now m /\ 1 <= buffer <= 5
                         /\ rateLimitWaitWeb e now = m + buffer)
  /\ ~ (exists m buffer, isCeilMinutes 0 now m /\ 1 <= buffer <= 5
                         /\ rateLimitWaitCli e now = m + buffer).
Proof.
  intros e now.
  assert (Hweb : rateLimitWaitWeb e now = 15) by reflexivity.
  assert (Hcli : rateLimitWaitCli e now = 1440) by reflexivity.
  split; [reflexivity|]. split; [exact Hweb|]. split; [exact Hcli|].
  split; intros (m & b & Hm & Hb & Hw); unfold isCeilMinutes, now in Hm; lia.
Qed.
(* ================================================================== *)
(** ** The percentage of the progress endpoint *)

Lemma percent_no_total (st : Stats) : total st = O -> Web.percent st = 0.
Proof. intros H. unfold Web.percent. now rewrite H. Qed.

Lemma specPercent_no_total (st : Stats) : total st = O -> specPercent st = 0.
Proof. intros H. unfold specPercent. now rewrite H. Qed.

(** [specPercent] is the integer nearest to the exact percentage, a half
    going up. *)
Lemma specPercent_nearest (st : Stats) :
  (0 < total st)%nat ->
  2 * Z.of_nat (total st) * specPercent st - Z.of_nat (total st)
  <= 2 * (100 * Z.of_nat (deleted st + failed st))
  < 2 * Z.of_nat (total st) * specPercent st + Z.of_nat (total st).
Proof.
  intros Ht. unfold specPercent.
  generalize (Z.of_nat (deleted st + failed st)). intros c.
  assert (Hall : 0 < Z.of_nat (total st)) by lia.
  revert Hall. generalize (Z.of_nat (total st)). intros n Hn.
  destruct (Z.ltb_spec 0 n); [|lia].
  pose proof (Z.div_mod (2 * (100 * c) + n) (2 * n) ltac:(lia)) as Hdm.
  pose proof (Z.mod_pos_bound (2 * (100 * c) + n) (2 * n) ltac:(lia)) as Hm.
  revert Hdm Hm.
  generalize ((2 * (100 * c) + n) / (2 * n)),
             ((2 * (100 * c) + n) mod (2 * n)).
  intros q r Hdm Hm. nia.
Qed.

Lemma forallb_below (p : nat -> bool) (n : nat) :
  forallb p (seq 0 n) = true -> forall k, (k < n)%nat -> p k = true.
Proof.
  intros H k Hk. rewrite forallb_forall in H. apply H, in_seq. lia.
Qed.

Lemma agrees_below_forty :
  forallb (fun t =>
    forallb (fun d =>
      forallb (fun f => agreesAt t d f) (seq 0 (S t - d)))
      (seq 0 (S t)))
    (seq 0 40) = true.
Proof. vm_compute. reflexivity. Qed.

Lemma percent_agrees (t d f : nat) :
  (t < 40)%nat -> (d + f <= t)%nat ->
  Web.percent {| deleted := d; failed := f; total := t |}
  = specPercent {| deleted := d; failed := f; total := t |}.
Proof.
  intros Ht Hc. apply Z.eqb_eq.
  pose proof (@forallb_below _ _ agrees_below_forty t Ht) as Hd.
  cbv beta in Hd.
  pose proof (@forallb_below _ _ Hd d ltac:(lia)) as Hf.
  cbv beta in Hf.
  exact (@forallb_below _ _ Hf f ltac:(lia)).
Qed.

(** X6.  Below forty submitted ids the endpoint reports the percentage of
    the specification. *)
Theorem percent_small_totals (st : Stats) :
  (total st < 40)%nat -> (deleted st + failed st <= total st)%nat ->
  Web.percent st = specPercent st.
Proof. destruct st as [d f t]. apply percent_agrees. Qed.

(** C8 at its failing input: 23 of 40 items processed.  The exact percentage
    is 57.5 and rounds to 58, and so does the formula of the specification
    on doubles, [100 * 23 / 40] being exactly 57.5.  The endpoint divides
    first: [23 / 40] is not a double, its product with 100 is
    57.49999999999999, and the progress reported is 57. *)
Theorem percent_23_of_40 :
  let st := {| deleted := 23; failed := 0; total := 40 |} in
  Web.progress (Web.deletionProgress
                  {| Web.deleter := None; Web.deletionInProgress := true;
                     Web.deletionStats := st |}) = 57
  /\ specPercent st = 58
  /\ specPercentOnDoubles st = 58.
Proof. repeat split; vm_compute; reflexivity. Qed.

(* ================================================================== *)
(** ** The listing *)

Lemma slice_prefix {A : Type} (l : list A) (n : nat) :
  JS.slice l 0 (Z.of_nat n) = firstn n l.
Proof.
  change 0 with (Z.of_nat 0).
  rewrite <- (Z.add_0_l (Z.of_nat n)). change 0 with (Z.of_nat 0).
  rewrite JSFacts.slice_window by lia. reflexivity.
Qed.

Lemma isOriginal_spec (t : Tweet) :
  Cli.isOriginal t = true <->
  JS.startsWith (text t) "@" = false /\ JS.startsWith (text t) "RT @" = false.
Proof.
  unfold Cli.isOriginal. rewrite andb_true_iff, !negb_true_iff. tauto.
Qed.

(** C9.  Whatever the environment variables, the remote replies and the
    requested maximum, [fetchUserTweets] returns at most 15 posts, none of
    which starts with '@' or with 'RT @'; after a successful listing the
    result is the first 15 of the posts that pass the filter, so the filter
    comes before the cap. *)
Theorem fetchUserTweets_filtered_then_capped
    (envTweetsPerBatch envBatchDelay : option Z) (api : Cli.Timeline)
    (maxResults : Z) :
  let this := newTweetDeleter envTweetsPerBatch envBatchDelay in
  let posts := Cli.fetchUserTweets this api maxResults in
  (List.length posts <= 15)%nat
  /\ Forall (fun t => JS.startsWith (text t) "@" = false
                      /\ JS.startsWith (text t) "RT @" = false) posts
  /\ (forall user data,
        Cli.me api = Return user ->
        Cli.userTimeline api user (Z.min maxResults 10) = Return data ->
        posts = firstn 15 (filter Cli.isOriginal
                             (match data with Some l => l | None => [] end))).
Proof.
  intros this posts.
  assert (Hshape : posts = [] \/
            exists all, posts = firstn 15 (filter Cli.isOriginal all)).
  { subst posts. unfold Cli.fetchUserTweets.
    destruct (Cli.me api) as [user|]; [|now left].
    destruct (Cli.userTimeline api user (Z.min maxResults 10)) as [data|];
      [|now left].
    right. exists (match data with Some l => l | None => [] end).
    change (maxDeletionsPerDay this) with (Z.of_nat 15).
    apply slice_prefix. }
  split; [|split].
  - destruct Hshape as [-> | [all ->]]; [simpl; lia|].
    rewrite length_firstn. lia.
  - destruct Hshape as [-> | [all ->]]; [constructor|].
    apply Forall_forall. intros t Ht.
    apply isOriginal_spec.
    assert (In t (filter Cli.isOriginal all)) as Hin.
    { rewrite <- (firstn_skipn 15 (filter Cli.isOriginal all)).
      apply in_or_app. now left. }
    apply filter_In in Hin. tauto.
  - intros user data Hme Htl. subst posts. unfold Cli.fetchUserTweets.
    rewrite Hme, Htl.
    change (maxDeletionsPerDay this) with (Z.of_nat 15).
    apply slice_prefix.
Qed.
(* ================================================================== *)
(** ** Reading a trace that grows *)

(** The four ways through the per-item code of either scheduler: the call
    returned a success or a failure, or threw a throttling error or another
    one. *)
Ltac item_cases :=
  let result := fresh "result" in
  let e := fresh "e" in
  destruct (deleteTweet _ _) as [result | e];
  [destruct (success result) | destruct (code e =? 429)].

Lemma snapshotsOf_app (a b : list Event) :
  snapshotsOf (a ++ b) = snapshotsOf a ++ snapshotsOf b.
Proof.
  induction a as [|e a IH]; [reflexivity|].
  destruct e; simpl; rewrite IH; reflexivity.
Qed.

Lemma attemptsOf_app (a b : list Event) :
  attemptsOf (a ++ b) = attemptsOf a ++ attemptsOf b.
Proof.
  induction a as [|e a IH]; [reflexivity|].
  destruct e; simpl; rewrite IH; reflexivity.
Qed.

Lemma batchesOf_app (a b : list Event) :
  batchesOf (a ++ b) = batchesOf a ++ batchesOf b.
Proof.
  induction a as [|e a IH]; [reflexivity|].
  destruct e; simpl; rewrite IH; reflexivity.
Qed.

Lemma batchSteps_app (a b : list Event) :
  batchSteps (a ++ b) = batchSteps a ++ batchSteps b.
Proof.
  induction a as [|e a IH]; [reflexivity|].
  destruct e as [| | [] | | |]; simpl; rewrite IH; reflexivity.
Qed.

Lemma sleepsOf_app (site : SleepSite) (a b : list Event) :
  sleepsOf site (a ++ b) = sleepsOf site a ++ sleepsOf site b.
Proof.
  induction a as [|e a IH]; [reflexivity|].
  destruct e as [| | [] | | |]; destruct site; simpl; rewrite IH; reflexivity.
Qed.

Lemma savedLog_last (tr : list Event) (log : list LogEntry) :
  savedLog (tr ++ [EvSave log]) = Some log.
Proof.
  induction tr as [|e tr IH]; [reflexivity|].
  destruct e; simpl; rewrite IH; reflexivity.
Qed.

(* ================================================================== *)
(** ** The web job: counters *)

Section WebCounters.

Variable w : World.

(** One pass of the inner loop either accounts for the item, publishing the
    new counters, or was throttled, and then only decrements the index of
    the outer loop. *)
Lemma web_item_cases (tweet : Web.TweetRef) (st : Web.Job) :
  let st' := Web.item w tweet st in
  tweetsPerBatch (Web.job_deleter st') = tweetsPerBatch (Web.job_deleter st)
  /\ batchDelayMinutes (Web.job_deleter st')
     = batchDelayMinutes (Web.job_deleter st)
  /\ total (Web.job_stats st') = total (Web.job_stats st)
  /\ ((processed (Web.job_stats st') = S (processed (Web.job_stats st))
       /\ Web.job_i st' = Web.job_i st
       /\ snapshotsOf (Web.job_trace st')
          = snapshotsOf (Web.job_trace st) ++ [Web.job_stats st'])
      \/ (Web.job_stats st' = Web.job_stats st
          /\ Web.job_i st' = Web.job_i st - 1
          /\ snapshotsOf (Web.job_trace st')
             = snapshotsOf (Web.job_trace st))).
Proof.
  unfold Web.item, processed.
  destruct (deleteTweet (endpoint w (Web.job_calls st)) (Web.ref_id tweet))
    as [result | e].
  - destruct (success result); cbn -[snapshotsOf];
      rewrite snapshotsOf_app; simpl;
      (repeat split; try reflexivity); left; repeat split; lia.
  - destruct (code e =? 429); cbn -[snapshotsOf];
      rewrite snapshotsOf_app; simpl.
    + repeat split; try reflexivity. right.
      rewrite app_nil_r. repeat split; reflexivity.
    + repeat split; try reflexivity. left. repeat split; lia.
Qed.

(** Over a whole batch: every element either adds one to the counters or
    takes one from the index, and the snapshots published on the way never
    exceed the counters at the end. *)
Lemma web_forOf_effect (batch : list Web.TweetRef) : forall st : Web.Job,
  let st' := Web.forOf w batch st in
  tweetsPerBatch (Web.job_deleter st') = tweetsPerBatch (Web.job_deleter st)
  /\ batchDelayMinutes (Web.job_deleter st')
     = batchDelayMinutes (Web.job_deleter st)
  /\ total (Web.job_stats st') = total (Web.job_stats st)
  /\ Z.of_nat (processed (Web.job_stats st')) - Web.job_i st'
     = Z.of_nat (processed (Web.job_stats st)) - Web.job_i st
       + Z.of_nat (List.length batch)
  /\ (processed (Web.job_stats st) <= processed (Web.job_stats st'))%nat
  /\ Web.job_i st' <= Web.job_i st
  /\ exists news,
       snapshotsOf (Web.job_trace st') = snapshotsOf (Web.job_trace st) ++ news
       /\ Forall (fun s => (processed s <= processed (Web.job_stats st'))%nat
                           /\ total s = total (Web.job_stats st)) news.
Proof.
  induction batch as [|tweet batch IH]; intros st; simpl.
  - repeat split; try lia. exists []. now rewrite app_nil_r.
  - specialize (IH (Web.item w tweet st)).
    destruct IH as (HB & HD & HT & Hbal & Hmono & Hi & news & Hnews & Hall).
    pose proof (web_item_cases tweet st) as (HB1 & HD1 & HT1 & Hcase).
    cbv zeta in *. unfold Web.forOf in *.
    repeat split; try congruence.
    + destruct Hcase as [(Hc & Hi1 & _) | (Hc & Hi1 & _)];
        [|rewrite Hc in *]; lia.
    + destruct Hcase as [(Hc & Hi1 & _) | (Hc & Hi1 & _)];
        [|rewrite Hc in *]; lia.
    + destruct Hcase as [(Hc & Hi1 & _) | (Hc & Hi1 & _)]; lia.
    + destruct Hcase as [(Hc & Hi1 & Hs) | (Hc & Hi1 & Hs)].
      * exists (Web.job_stats (Web.item w tweet st) :: news). split.
        -- rewrite Hnews, Hs, <- app_assoc. reflexivity.
        -- constructor; [split; [lia | congruence]|].
           eapply Forall_impl; [|exact Hall]. simpl. intros s [? ?].
           split; [assumption | congruence].
      * exists news. split; [now rewrite Hnews, Hs|].
        eapply Forall_impl; [|exact Hall]. simpl. intros s [? ?].
        split; [assumption | congruence].
Qed.

End WebCounters.
(* ================================================================== *)
(** ** The web job: the counters stay within the total *)

Section WebLoop.

Variable w : World.
Variable tweets : list Web.TweetRef.

Let n := List.length tweets.

Lemma web_batches_bounded (fuel : nat) : forall st : Web.Job,
  webLoopInv n st ->
  let st' := fst (Web.batches w tweets fuel st) in
  withinTotal n (Web.job_stats st')
  /\ exists news,
       snapshotsOf (Web.job_trace st') = snapshotsOf (Web.job_trace st) ++ news
       /\ Forall (withinTotal n) news.
Proof.
  induction fuel as [|fuel IH]; intros st Hinv; simpl.
  - unfold webLoopInv, withinTotal, processed in *. split; [lia|].
    exists []. now rewrite app_nil_r.
  - destruct (Z.ltb_spec (Web.job_i st) (Z.of_nat (List.length tweets)))
      as [Hlt | Hge]; simpl.
    2:{ unfold webLoopInv, withinTotal, processed in *. split; [lia|].
        exists []. now rewrite app_nil_r. }
    set (size := tweetsPerBatch (Web.job_deleter st)) in *.
    set (batch := JS.slice tweets (Web.job_i st) (Web.job_i st + size)).
    set (st0 := Web.emit st [EvBatch (map Web.ref_id batch)]).
    pose proof (web_forOf_effect w batch st0)
      as (HB & HD & HT & Hbal & Hmono & Hi & news & Hnews & Hall).
    cbv zeta in *.
    set (st1 := Web.forOf w batch st0) in *.
    assert (Hst0 : Web.job_stats st0 = Web.job_stats st) by reflexivity.
    assert (Hi0 : Web.job_i st0 = Web.job_i st) by reflexivity.
    assert (HB0 : tweetsPerBatch (Web.job_deleter st0) = size) by reflexivity.
    assert (Hs0 : snapshotsOf (Web.job_trace st0)
                  = snapshotsOf (Web.job_trace st)).
    { unfold st0, Web.emit. simpl. rewrite snapshotsOf_app. simpl.
      now rewrite app_nil_r. }
    rewrite Hst0, Hi0 in *. rewrite HB0 in HB.
    pose proof (JSFacts.slice_length tweets (Web.job_i st)
                  (Web.job_i st + size)) as Hlen.
    fold batch in Hlen. fold n in Hlen, Hlt.
    unfold JS.relIndex in Hlen.
    destruct Hinv as (Htot & Hcn & Hcase). fold size in Hcase.
    set (st2 := if Web.job_i st1 + tweetsPerBatch (Web.job_deleter st1)
                   <? Z.of_nat (List.length tweets)
                then Web.emit st1
                       [EvSleep BatchDelay
                          (batchDelayMinutes (Web.job_deleter st1))]
                else st1).
    assert (H2 : Web.job_stats st2 = Web.job_stats st1
                 /\ Web.job_i st2 = Web.job_i st1
                 /\ Web.job_deleter st2 = Web.job_deleter st1
                 /\ snapshotsOf (Web.job_trace st2)
                    = snapshotsOf (Web.job_trace st1)).
    { unfold st2.
      destruct (Web.job_i st1 + tweetsPerBatch (Web.job_deleter st1)
                <? Z.of_nat (List.length tweets)); simpl;
        repeat split; try reflexivity.
      rewrite snapshotsOf_app. simpl. now rewrite app_nil_r. }
    destruct H2 as (H2s & H2i & H2d & H2t).
    rewrite H2d.
    set (st3 := Web.setI st2 (Web.job_i st2
                                + tweetsPerBatch (Web.job_deleter st1))).
    assert (Hbound : (processed (Web.job_stats st1) <= n)%nat
                     /\ webLoopInv n st3).
    { unfold webLoopInv, st3. simpl. rewrite H2s, H2i, H2d, HB, HT.
      destruct (Z.ltb_spec (Web.job_i st) 0);
        destruct (Z.ltb_spec (Web.job_i st + size) 0); lia. }
    destruct Hbound as (Hb1 & Hinv3).
    specialize (IH st3 Hinv3). cbv zeta in IH.
    destruct IH as (Hfin & news' & Hnews' & Hall').
    split; [exact Hfin|].
    exists (news ++ news'). split.
    + rewrite Hnews'. unfold st3. simpl. rewrite H2t, Hnews, Hs0.
      now rewrite app_assoc.
    + apply Forall_app. split; [|exact Hall'].
      eapply Forall_impl; [|exact Hall]. simpl.
      intros s [Hs1 Hs2]. unfold withinTotal. unfold processed in *. lia.
Qed.

End WebLoop.

Lemma postDeleteTweets_started (ids ids' : list string) (s s1 : Web.Server)
    (resp : Web.Response) :
  Web.postDeleteTweets (Some ids) s = (resp, s1, Some ids') ->
  ids' = ids
  /\ resp = Web.DeletionStarted (List.length ids)
  /\ Web.deleter s1 = Web.deleter s
  /\ Web.deleter s <> None
  /\ Web.deletionInProgress s = false
  /\ Web.deletionInProgress s1 = true
  /\ Web.deletionStats s1
     = {| deleted := 0; failed := 0; total := List.length ids |}.
Proof.
  unfold Web.postDeleteTweets.
  destruct (Web.deleter s) eqn:Hd; [|discriminate].
  destruct (Web.deletionInProgress s) eqn:Hp; [discriminate|].
  destruct ids as [|x ids]; [discriminate|].
  intros H. inversion H; subst; clear H. simpl.
  repeat split; congruence.
Qed.

(** C2.  When [POST /api/delete-tweets] accepts a list of ids, the counters
    it installs, every snapshot the background job publishes afterwards and
    the counters the job leaves behind (after any number of iterations, and
    so also when it is over) satisfy [deleted + failed <= total], with
    [total] the length of the submitted list. *)
Theorem counters_within_total (w : World) (fuel : nat) (ids ids' : list string)
    (s s1 : Web.Server) (resp : Web.Response) :
  Web.postDeleteTweets (Some ids) s = (resp, s1, Some ids') ->
  let run := Web.processDeletion w fuel ids' s1 in
  Forall (withinTotal (List.length ids))
    (Web.deletionStats s1
     :: snapshotsOf (Web.trace run) ++ [Web.deletionStats (Web.server run)]).
Proof.
  intros Hpost run.
  apply postDeleteTweets_started in Hpost.
  destruct Hpost as (-> & _ & Hd & Hsome & _ & _ & Hstats).
  assert (H0 : withinTotal (List.length ids) (Web.deletionStats s1)).
  { rewrite Hstats. split; simpl; lia. }
  constructor; [exact H0|].
  subst run. unfold Web.processDeletion.
  destruct (Web.deleter s1) as [d|] eqn:Hd1; [|congruence].
  set (st0 := {| Web.job_deleter := d; Web.job_stats := Web.deletionStats s1;
                 Web.job_i := 0; Web.job_calls := 0; Web.job_trace := [] |}).
  pose proof (@web_batches_bounded w (map Web.mkTweetRef ids) fuel st0)
    as Hloop.
  rewrite length_map in Hloop.
  assert (Hinv : webLoopInv (List.length ids) st0).
  { unfold webLoopInv, st0, processed. simpl. rewrite Hstats. simpl.
    destruct (Z.ltb_spec 0 (tweetsPerBatch d)); lia. }
  specialize (Hloop Hinv). cbv zeta in Hloop.
  destruct (Web.batches w (map Web.mkTweetRef ids) fuel st0) as [st fin].
  simpl in Hloop. destruct Hloop as (Hfin & news & Hnews & Hall).
  simpl in Hnews.
  assert (Hgoal : Forall (withinTotal (List.length ids))
                    (snapshotsOf (Web.job_trace st) ++ [Web.job_stats st])).
  { rewrite Hnews. apply Forall_app. split; [exact Hall|].
    constructor; [exact Hfin | constructor]. }
  destruct fin; [destruct (writeFileOk w)|]; simpl; try exact Hgoal.
  rewrite snapshotsOf_app. simpl. now rewrite app_nil_r.
Qed.

Lemma counters_within_total_witness :
  Forall (withinTotal 3)
    (Web.deletionStats
       (snd (fst (Web.postDeleteTweets (Some ["a"; "b"; "c"])
                    (Sample.ready 3))))
     :: snapshotsOf
          (Web.trace
             (Web.processDeletion Sample.throttledOnce 10 ["a"; "b"; "c"]
                (snd (fst (Web.postDeleteTweets (Some ["a"; "b"; "c"])
                             (Sample.ready 3))))))
        ++ [Web.deletionStats
              (Web.server
                 (Web.processDeletion Sample.throttledOnce 10 ["a"; "b"; "c"]
                    (snd (fst (Web.postDeleteTweets (Some ["a"; "b"; "c"])
                                 (Sample.ready 3))))))]).
Proof.
  apply (@counters_within_total Sample.throttledOnce 10 ["a"; "b"; "c"]
           ["a"; "b"; "c"] (Sample.ready 3) _ (Web.DeletionStarted 3)).
  reflexivity.
Defined.
(* ================================================================== *)
(** ** Run control: rejection while a run is active, release at the end *)

Lemma processDeletion_keeps_deleter (w : World) (fuel : nat)
    (ids : list string) (s : Web.Server) :
  Web.deleter s <> None ->
  Web.deleter (Web.server (Web.processDeletion w fuel ids s)) <> None.
Proof.
  unfold Web.processDeletion. destruct (Web.deleter s); [|congruence].
  intros _.
  destruct (Web.batches w (map Web.mkTweetRef ids) fuel _) as [st fin].
  destruct fin; [destruct (writeFileOk w)|]; simpl; discriminate.
Qed.

(** The flag is only ever set on an initialised server. *)
Lemma reachable_active_initialized (s : Web.Server) :
  reachable s -> Web.deletionInProgress s = true -> Web.deleter s <> None.
Proof.
  induction 1 as [| s b d valid _ _ | s body _ IH | s w tweet st _ _ _ _
                  | s w fuel ids _ IH].
  - discriminate.
  - discriminate.
  - unfold Web.postDeleteTweets.
    destruct (Web.deleter s) eqn:Hd; [|simpl; rewrite Hd; exact IH].
    destruct (Web.deletionInProgress s) eqn:Hp;
      [simpl; rewrite Hd; discriminate|].
    destruct body as [[|x ids]|]; simpl; rewrite ?Hd; try exact IH;
      discriminate.
  - discriminate.
  - intros Hflag. destruct (Web.deleter s) eqn:Hd.
    + apply processDeletion_keeps_deleter. congruence.
    + unfold Web.processDeletion in Hflag. rewrite Hd in Hflag.
      discriminate.
Qed.

(** C7.  In every state the server can reach in which a run is active, a
    request to start another run is answered 'Deletion already in progress',
    starts no job, and leaves the three globals (and so the counters and the
    flag) as they were. *)
Theorem start_rejected_while_running (s : Web.Server)
    (body : option (list string)) :
  reachable s ->
  Web.deletionInProgress s = true ->
  Web.postDeleteTweets body s = (Web.AlreadyInProgress, s, None).
Proof.
  intros Hr Hflag.
  pose proof (reachable_active_initialized Hr Hflag) as Hd.
  unfold Web.postDeleteTweets.
  destruct (Web.deleter s); [|congruence]. now rewrite Hflag.
Qed.

(** The server is initialised, a run over two ids is accepted, the job
    deletes the first one, and a second request arrives. *)
Lemma start_rejected_while_running_witness :
  let s0 := snd (Web.initializeDeleter None None true Web.initial) in
  let s1 := snd (fst (Web.postDeleteTweets (Some ["a"; "b"]) s0)) in
  let st := {| Web.job_deleter := newTweetDeleter None None;
               Web.job_stats := Web.deletionStats s1;
               Web.job_i := 0; Web.job_calls := 0; Web.job_trace := [] |} in
  let st' := Web.item Sample.calm (Web.mkTweetRef "a") st in
  let s2 := {| Web.deleter := Some (Web.job_deleter st');
               Web.deletionInProgress := Web.deletionInProgress s1;
               Web.deletionStats := Web.job_stats st' |} in
  Web.deletionStats s2 = {| deleted := 1; failed := 0; total := 2 |}
  /\ Web.postDeleteTweets (Some ["c"]) s2 = (Web.AlreadyInProgress, s2, None).
Proof.
  intros s0 s1 st st' s2. split; [vm_compute; reflexivity|].
  apply start_rejected_while_running; [|vm_compute; reflexivity].
  apply (@reach_item s1 Sample.calm (Web.mkTweetRef "a") st);
    [|reflexivity|reflexivity].
  apply reach_post, reach_initialize, reach_initial.
Defined.

(** C10.  Whenever [processDeletion] is over, with the log saved or with an
    exception caught by its outer handler, the flag is down, and the next
    request to start a run is not answered 'Deletion already in progress'. *)
Theorem flag_released_when_over (w : World) (fuel : nat) (ids : list string)
    (s : Web.Server) :
  let run := Web.processDeletion w fuel ids s in
  Web.status run <> Web.Running ->
  Web.deletionInProgress (Web.server run) = false
  /\ forall body,
       fst (fst (Web.postDeleteTweets body (Web.server run)))
       <> Web.AlreadyInProgress.
Proof.
  intros run Hover.
  assert (Hflag : Web.deletionInProgress (Web.server run) = false).
  { subst run. revert Hover. unfold Web.processDeletion.
    destruct (Web.deleter s); [|reflexivity].
    destruct (Web.batches w (map Web.mkTweetRef ids) fuel _) as [st fin].
    destruct fin; [destruct (writeFileOk w)|]; simpl; congruence. }
  split; [exact Hflag|].
  intros body. unfold Web.postDeleteTweets.
  destruct (Web.deleter (Web.server run)); [|discriminate].
  rewrite Hflag. destruct body as [[|x l]|]; discriminate.
Qed.

(* ------------------------------------------------------------------ *)
(** Without throttling the per-item code leaves the index of the outer loop
    alone. *)

Section WebUnthrottled.

Variable w : World.
Hypothesis calm : neverThrottles w.

Lemma web_item_unthrottled (tweet : Web.TweetRef) (st : Web.Job) :
  Web.job_i (Web.item w tweet st) = Web.job_i st
  /\ tweetsPerBatch (Web.job_deleter (Web.item w tweet st))
     = tweetsPerBatch (Web.job_deleter st).
Proof.
  unfold Web.item, deleteTweet. specialize (calm (Web.job_calls st)).
  destruct (endpoint w (Web.job_calls st)) as [|e]; [split; reflexivity|].
  destruct (Z.eqb_spec (code e) 429); [contradiction|split; reflexivity].
Qed.

Lemma web_forOf_unthrottled (batch : list Web.TweetRef) : forall st,
  Web.job_i (Web.forOf w batch st) = Web.job_i st
  /\ tweetsPerBatch (Web.job_deleter (Web.forOf w batch st))
     = tweetsPerBatch (Web.job_deleter st).
Proof.
  induction batch as [|tweet batch IH]; intros st; [split; reflexivity|].
  simpl. destruct (IH (Web.item w tweet st)) as [Hi HB].
  destruct (web_item_unthrottled tweet st) as [Hi1 HB1].
  unfold Web.forOf in *. split; congruence.
Qed.

End WebUnthrottled.

(** A run that crashes: the log file cannot be written. *)
Lemma flag_released_when_over_witness :
  let w := {| endpoint := fun _ => Resolved; clock := fun _ => 0;
              writeFileOk := false;
              reinitialized := fun _ => false |} in
  let s1 := snd (fst (Web.postDeleteTweets (Some ["a"; "b"])
                        (Sample.ready 5))) in
  let run := Web.processDeletion w 3 ["a"; "b"] s1 in
  Web.status run = Web.Crashed
  /\ Web.deletionInProgress s1 = true
  /\ Web.deletionInProgress (Web.server run) = false
  /\ forall body,
       fst (fst (Web.postDeleteTweets body (Web.server run)))
       <> Web.AlreadyInProgress.
Proof.
  intros w s1 run.
  split; [reflexivity|]. split; [reflexivity|].
  apply (@flag_released_when_over w 3 ["a"; "b"] s1). discriminate.
Defined.
(* ================================================================== *)
(** ** Invariants of the two schedulers *)

Lemma deletionsOf_app (a b : list Event) :
  deletionsOf (a ++ b) = deletionsOf a ++ deletionsOf b.
Proof.
  induction a as [|e a IH]; [reflexivity|].
  destruct e as [| x [] | | | |]; simpl; rewrite IH; reflexivity.
Qed.

Lemma logKeys_app (a b : list LogEntry) :
  logKeys (a ++ b) = logKeys a ++ logKeys b.
Proof. apply map_app. Qed.

Section CliInvariant.

Variable w : World.
Variable Inv : Cli.Job -> Prop.

Hypothesis Inv_item :
  forall tweet j st, Inv st -> Inv (fst (Cli.item w tweet j st)).
Hypothesis Inv_batch :
  forall st b, Inv st -> Inv (Cli.emit st [EvBatch b]).
Hypothesis Inv_delay :
  forall st m, Inv st -> Inv (Cli.emit st [EvSleep BatchDelay m]).

Lemma cli_item_index (tweet : Tweet) (j : Z) (st : Cli.Job) :
  0 <= j -> 0 <= snd (Cli.item w tweet j st).
Proof.
  intros Hj. unfold Cli.item.
  item_cases; simpl; lia.
Qed.

(** Inside the inner loop [batch[j]] is always an element of the batch. *)
Lemma cli_batch_element (batch : list Tweet) (j : Z) :
  0 <= j -> j < Z.of_nat (List.length batch) ->
  exists tweet,
    (if j <? 0 then None else nth_error batch (Z.to_nat j)) = Some tweet.
Proof.
  intros H0 Hlt. destruct (Z.ltb_spec j 0); [lia|].
  destruct (nth_error batch (Z.to_nat j)) as [tweet|] eqn:Hnth;
    [now exists tweet|].
  apply nth_error_None in Hnth. lia.
Qed.

Lemma cli_items_inv (fuel : nat) (batch : list Tweet) :
  forall j st, 0 <= j -> Inv st -> Inv (fst (Cli.items w fuel batch j st)).
Proof.
  induction fuel as [|fuel IH]; intros j st Hj Hinv; [exact Hinv|].
  simpl. destruct (Z.ltb_spec j (Z.of_nat (List.length batch))) as [Hlt|];
    [|exact Hinv].
  destruct (cli_batch_element batch Hj Hlt) as [tweet ->].
  pose proof (Inv_item tweet j Hinv) as H1.
  pose proof (cli_item_index tweet st Hj) as H2.
  destruct (Cli.item w tweet j st) as [st' j']. now apply IH.
Qed.

Lemma cli_batches_inv (tweets : list Tweet) (fuel : nat) :
  forall i st, Inv st -> Inv (fst (Cli.batches w tweets fuel i st)).
Proof.
  induction fuel as [|fuel IH]; intros i st Hinv; [exact Hinv|].
  simpl. destruct (i <? Z.of_nat (List.length tweets)); [|exact Hinv].
  set (batch := JS.slice tweets i (i + tweetsPerBatch (Cli.job_this st))).
  pose proof (@cli_items_inv fuel batch 0 _ ltac:(lia)
                (Inv_batch (map id batch) Hinv)) as H1.
  destruct (Cli.items w fuel batch 0 _) as [st1 fin].
  destruct fin; [|exact H1].
  apply IH. simpl in H1.
  destruct (i + tweetsPerBatch (Cli.job_this st1)
            <? Z.of_nat (List.length tweets)); auto.
Qed.

End CliInvariant.

Section WebInvariant.

Variable w : World.
Variable Inv : Web.Job -> Prop.

Hypothesis Inv_item : forall tweet st, Inv st -> Inv (Web.item w tweet st).
Hypothesis Inv_emit :
  forall st e, match e with EvBatch _ | EvSleep BatchDelay _ => True
                       | _ => False end ->
               Inv st -> Inv (Web.emit st [e]).
Hypothesis Inv_index : forall st i, Inv st -> Inv (Web.setI st i).

Lemma web_forOf_inv (batch : list Web.TweetRef) :
  forall st, Inv st -> Inv (Web.forOf w batch st).
Proof.
  induction batch as [|tweet batch IH]; intros st Hinv; [exact Hinv|].
  simpl. apply IH. now apply Inv_item.
Qed.

Lemma web_batches_inv (tweets : list Web.TweetRef) (fuel : nat) :
  forall st, Inv st -> Inv (fst (Web.batches w tweets fuel st)).
Proof.
  induction fuel as [|fuel IH]; intros st Hinv; [exact Hinv|].
  simpl. destruct (Web.job_i st <? Z.of_nat (List.length tweets));
    [|exact Hinv].
  apply IH, Inv_index.
  set (st1 := Web.forOf w _ _).
  assert (H1 : Inv st1)
    by (apply web_forOf_inv, Inv_emit; [exact I | exact Hinv]).
  destruct (Web.job_i st1 + tweetsPerBatch (Web.job_deleter st1)
            <? Z.of_nat (List.length tweets)); [|exact H1].
  apply Inv_emit; [exact I | exact H1].
Qed.

End WebInvariant.

(* ================================================================== *)
(** ** The log that is saved *)

Lemma cli_log_item (w : World) (base : list (string * Z)) (tweet : Tweet)
    (j : Z) (st : Cli.Job) :
  cliLogInv base st -> cliLogInv base (fst (Cli.item w tweet j st)).
Proof.
  unfold cliLogInv, Cli.item. intros H.
  item_cases; simpl;
    rewrite deletionsOf_app; simpl; rewrite ?app_nil_r; try exact H.
  rewrite logKeys_app, H, <- app_assoc. reflexivity.
Qed.

Lemma web_log_item (w : World) (base : list (string * Z))
    (tweet : Web.TweetRef) (st : Web.Job) :
  neverReinitialized w ->
  webLogInv base st -> webLogInv base (Web.item w tweet st).
Proof.
  unfold webLogInv, Web.item. intros Hw H.
  rewrite (Hw (Web.job_calls st)).
  item_cases; simpl;
    rewrite deletionsOf_app; simpl; rewrite ?app_nil_r; try exact H.
  rewrite logKeys_app, H, <- app_assoc. reflexivity.
Qed.

Lemma cli_log (w : World) (fuel : nat) (this : TweetDeleter)
    (tweets : list Tweet) :
  cliLogInv (logKeys (deletedTweets this))
    (fst (Cli.deleteTweetsInBatches w fuel this tweets)).
Proof.
  unfold Cli.deleteTweetsInBatches.
  apply (@cli_batches_inv w (cliLogInv (logKeys (deletedTweets this)))).
  - intros. now apply cli_log_item.
  - unfold cliLogInv. intros st b H. simpl.
    now rewrite deletionsOf_app, app_nil_r.
  - unfold cliLogInv. intros st b H. simpl.
    now rewrite deletionsOf_app, app_nil_r.
  - unfold cliLogInv. simpl. now rewrite app_nil_r.
Qed.

Lemma web_log (w : World) (fuel : nat) (d : TweetDeleter) (stats0 : Stats)
    (tweets : list Web.TweetRef) :
  neverReinitialized w ->
  webLogInv (logKeys (deletedTweets d))
    (fst (Web.batches w tweets fuel
            {| Web.job_deleter := d; Web.job_stats := stats0;
               Web.job_i := 0; Web.job_calls := 0; Web.job_trace := [] |})).
Proof.
  intros Hw.
  apply (@web_batches_inv w (webLogInv (logKeys (deletedTweets d)))).
  - intros. now apply web_log_item.
  - unfold webLogInv. intros st e He H. simpl.
    rewrite deletionsOf_app.
    destruct e as [| | [] | | |]; try contradiction; simpl;
      now rewrite app_nil_r.
  - unfold webLogInv. intros st i H. exact H.
  - unfold webLogInv. simpl. now rewrite app_nil_r.
Qed.

(** C3, as amended.  When a run is completed, the log that is saved holds
    what the deleter's log held before the run followed by one record for
    every Deleted outcome of the run, with its timestamp, in the order of the
    attempts; Failed outcomes are not in the log.  This holds for every
    completed run of the command-line tool, and for every completed run of
    the web job during which [POST /api/initialize] does not replace the
    deleter. *)
Theorem saved_log_lists_deletions :
  (forall w fuel ids s d,
     Web.deleter s = Some d ->
     neverReinitialized w ->
     Web.status (Web.processDeletion w fuel ids s) = Web.Completed ->
     exists log,
       savedLog (Web.trace (Web.processDeletion w fuel ids s)) = Some log
       /\ logKeys log
          = logKeys (deletedTweets d)
            ++ deletionsOf (Web.trace (Web.processDeletion w fuel ids s)))
  /\ (forall w fuel this tweets tr,
        Cli.deleteAndSave w fuel this tweets = Some tr ->
        exists log,
          savedLog tr = Some log
          /\ logKeys log = logKeys (deletedTweets this) ++ deletionsOf tr).
Proof.
  split.
  - intros w fuel ids s d Hd Hw. unfold Web.processDeletion. rewrite Hd.
    pose proof (web_log fuel d (Web.deletionStats s)
                  (map Web.mkTweetRef ids) Hw) as Hlog.
    destruct (Web.batches w (map Web.mkTweetRef ids) fuel _) as [st fin].
    unfold webLogInv in Hlog. simpl in Hlog.
    rewrite (Hw (Web.job_calls st)).
    destruct fin; [destruct (writeFileOk w)|]; simpl; try discriminate.
    intros _. exists (deletedTweets (Web.job_deleter st)).
    split; [apply savedLog_last|].
    now rewrite deletionsOf_app, app_nil_r.
  - intros w fuel this tweets tr. unfold Cli.deleteAndSave.
    pose proof (cli_log w fuel this tweets) as Hlog.
    destruct (Cli.deleteTweetsInBatches w fuel this tweets) as [st fin].
    unfold cliLogInv in Hlog. simpl in Hlog.
    destruct (fin && writeFileOk w); [|discriminate].
    intros H. inversion H; subst; clear H.
    exists (deletedTweets (Cli.job_this st)).
    split; [apply savedLog_last|].
    now rewrite deletionsOf_app, app_nil_r.
Qed.
(* ================================================================== *)
(** ** The partition into chunks *)

Section Chunks.

Context {A : Type}.
Variable size : nat.
Hypothesis size_pos : (0 < size)%nat.

Lemma chunksFuel_enough (f1 : nat) : forall (f2 : nat) (l : list A),
  (List.length l <= f1)%nat -> (List.length l <= f2)%nat ->
  chunksFuel f1 size l = chunksFuel f2 size l.
Proof.
  induction f1 as [|f1 IH]; intros f2 l H1 H2.
  - destruct l; [|cbn [List.length] in H1; lia]. destruct f2; reflexivity.
  - destruct f2 as [|f2];
      [destruct l; [reflexivity | cbn [List.length] in H2; lia]|].
    destruct l as [|x l]; [reflexivity|].
    cbn [chunksFuel]. f_equal.
    apply IH; rewrite length_skipn; cbn [List.length] in *; lia.
Qed.

Lemma chunksOf_cons (x : A) (l : list A) :
  chunksOf size (x :: l)
  = firstn size (x :: l) :: chunksOf size (skipn size (x :: l)).
Proof.
  unfold chunksOf. cbn [List.length chunksFuel]. f_equal.
  apply chunksFuel_enough; rewrite ?length_skipn; cbn [List.length]; lia.
Qed.

Lemma chunksOf_nil_iff (l : list A) : chunksOf size l = [] <-> l = [].
Proof.
  split; [|intros ->; reflexivity].
  destruct l as [|x l]; [reflexivity|]. rewrite chunksOf_cons. discriminate.
Qed.

(** Induction along the chunks: a property of lists that holds for the empty
    list, and for a non-empty list whenever it holds for what is left after
    its first chunk, holds for all lists. *)
Lemma chunk_induction (P : list A -> Prop) :
  P [] ->
  (forall x l, P (skipn size (x :: l)) -> P (x :: l)) ->
  forall l, P l.
Proof.
  intros Hnil Hstep l.
  remember (List.length l) as n eqn:Hn.
  revert l Hn. induction n as [n IH] using lt_wf_ind. intros l Hn.
  destruct l as [|x l]; [exact Hnil|].
  apply Hstep. eapply IH; [|reflexivity].
  rewrite length_skipn. cbn [List.length] in *. lia.
Qed.

Lemma concat_chunksOf (l : list A) : List.concat (chunksOf size l) = l.
Proof.
  induction l as [|x l IH] using chunk_induction; [reflexivity|].
  rewrite chunksOf_cons. cbn [List.concat]. rewrite IH.
  apply firstn_skipn.
Qed.

(** The number of chunks is the least [c] with [n <= size * c]. *)
Lemma length_chunksOf_bounds (l : list A) :
  let c := Z.of_nat (List.length (chunksOf size l)) in
  let n := Z.of_nat (List.length l) in
  Z.of_nat size * (c - 1) < n <= Z.of_nat size * c.
Proof.
  induction l as [|x l IH] using chunk_induction; [simpl; lia|].
  rewrite chunksOf_cons. cbv zeta in *.
  rewrite length_skipn in IH. cbn [List.length] in *.
  destruct (Nat.le_gt_cases (S (List.length l)) size).
  - replace (S (List.length l) - size)%nat with O in IH by lia.
    destruct (chunksOf size (skipn size (x :: l))) as [|c cs] eqn:Hc;
      [simpl; lia|].
    cbn [List.length] in IH. nia.
  - nia.
Qed.

Lemma length_chunksOf (l : list A) :
  Z.of_nat (List.length (chunksOf size l))
  = JS.ceilDiv (Z.of_nat (List.length l)) (Z.of_nat size).
Proof.
  symmetry. apply JSFacts.ceilDiv_unique; [lia|].
  apply length_chunksOf_bounds.
Qed.

Lemma lastChunkSize_step (n : Z) :
  Z.of_nat size < n ->
  lastChunkSize (n - Z.of_nat size) (Z.of_nat size)
  = lastChunkSize n (Z.of_nat size).
Proof.
  intros _. unfold lastChunkSize.
  replace (n - Z.of_nat size) with (n + (-1) * Z.of_nat size) by lia.
  now rewrite Z_mod_plus_full.
Qed.

Lemma lastChunkSize_small (n : Z) :
  0 < n <= Z.of_nat size -> lastChunkSize n (Z.of_nat size) = n.
Proof.
  intros Hn. unfold lastChunkSize.
  destruct (Z.eq_dec n (Z.of_nat size)) as [-> | Hne].
  - rewrite Z_mod_same_full. reflexivity.
  - rewrite Z.mod_small by lia. destruct (Z.eqb_spec n 0); lia.
Qed.

(** Every chunk but the last has [size] elements; the last one has the
    remainder of the division, or [size] when the division is exact. *)
Lemma chunksOf_sizes (l : list A) :
  forall init last,
    chunksOf size l = init ++ [last] ->
    Forall (fun c => List.length c = size) init
    /\ Z.of_nat (List.length last)
       = lastChunkSize (Z.of_nat (List.length l)) (Z.of_nat size).
Proof.
  induction l as [|x l IH] using chunk_induction; intros init last Heq.
  - destruct init; discriminate.
  - rewrite chunksOf_cons in Heq.
    destruct (Nat.le_gt_cases (S (List.length l)) size) as [Hsmall | Hbig].
    + assert (Hrest : skipn size (x :: l) = []).
      { apply skipn_all2. cbn [List.length]. lia. }
      rewrite Hrest in Heq.
      change (chunksOf size (@nil A)) with (@nil (list A)) in Heq.
      destruct init as [|c init].
      * inversion Heq; subst. split; [constructor|].
        rewrite firstn_all2 by (cbn [List.length]; lia).
        rewrite lastChunkSize_small; cbn [List.length]; lia.
      * inversion Heq as [[Hc Hnil]]. destruct init; discriminate.
    + destruct init as [|c init].
      * inversion Heq as [[Hc Hnil]]. apply chunksOf_nil_iff in Hnil.
        apply (f_equal (@List.length A)) in Hnil.
        rewrite length_skipn in Hnil. cbn [List.length] in Hnil. lia.
      * inversion Heq as [[Hc Hrest]].
        destruct (IH init last Hrest) as [Hall Hlast].
        split.
        -- constructor; [|exact Hall].
           rewrite length_firstn. cbn [List.length]. lia.
        -- rewrite Hlast, length_skipn.
           cbn [List.length].
           rewrite Nat2Z.inj_sub by lia.
           apply lastChunkSize_step. lia.
Qed.

End Chunks.

Lemma stepChunks_delayed (minutes : Z) (chunks : list (list string)) :
  stepChunks (delayedChunks minutes chunks) = chunks.
Proof.
  induction chunks as [|c [|c' rest] IH]; [reflexivity | reflexivity|].
  change (delayedChunks minutes (c :: c' :: rest))
    with (Chunk c :: Delay minutes :: delayedChunks minutes (c' :: rest)).
  cbn [stepChunks]. now rewrite IH.
Qed.

Lemma stepDelays_delayed (minutes : Z) (chunks : list (list string)) :
  stepDelays (delayedChunks minutes chunks)
  = repeat minutes (List.length chunks - 1).
Proof.
  induction chunks as [|c [|c' rest] IH]; [reflexivity | reflexivity|].
  change (delayedChunks minutes (c :: c' :: rest))
    with (Chunk c :: Delay minutes :: delayedChunks minutes (c' :: rest)).
  cbn [stepDelays]. rewrite IH. cbn [List.length].
  replace (S (S (List.length rest)) - 1)%nat
    with (S (S (List.length rest) - 1)) by lia.
  reflexivity.
Qed.

Lemma batchesOf_steps (tr : list Event) :
  batchesOf tr = stepChunks (batchSteps tr).
Proof.
  induction tr as [|e tr IH]; [reflexivity|].
  destruct e as [| | [] | | |]; simpl; now rewrite ?IH.
Qed.

Lemma sleepsOf_steps (tr : list Event) :
  sleepsOf BatchDelay tr = stepDelays (batchSteps tr).
Proof.
  induction tr as [|e tr IH]; [reflexivity|].
  destruct e as [| | [] | | |]; simpl; now rewrite ?IH.
Qed.

Lemma delayedChunks_cons (minutes : Z) (c : list string)
    (rest : list (list string)) :
  delayedChunks minutes (c :: rest)
  = Chunk c :: (if match rest with [] => true | _ => false end
                then [] else [Delay minutes])
            ++ delayedChunks minutes rest.
Proof. destruct rest; reflexivity. Qed.
(* ================================================================== *)
(** ** Batches and inter-batch delays of the command-line scheduler *)

Section CliSchedule.

Variable w : World.
Variable tweets : list Tweet.
Variable size : nat.
Variable delay : Z.
Hypothesis size_pos : (0 < size)%nat.

Lemma cli_item_quiet (steps : list BatchStep) (tweet : Tweet) (j : Z)
    (st : Cli.Job) :
  cliQuiet steps (Z.of_nat size) delay st ->
  cliQuiet steps (Z.of_nat size) delay (fst (Cli.item w tweet j st)).
Proof.
  unfold cliQuiet, Cli.item. intros (Hs & HB & HD).
  item_cases; simpl;
    rewrite batchSteps_app; simpl; rewrite app_nil_r; auto.
Qed.

Lemma cli_items_quiet (steps : list BatchStep) (fuel : nat)
    (batch : list Tweet) (st : Cli.Job) :
  cliQuiet steps (Z.of_nat size) delay st ->
  cliQuiet steps (Z.of_nat size) delay (fst (Cli.items w fuel batch 0 st)).
Proof.
  intros H.
  refine (@cli_items_inv w (cliQuiet steps (Z.of_nat size) delay)
            _ fuel batch 0 st ltac:(lia) H).
  intros. now apply cli_item_quiet.
Qed.

Lemma slice_chunk (k : nat) :
  (k < List.length tweets)%nat ->
  map id (JS.slice tweets (Z.of_nat k) (Z.of_nat k + Z.of_nat size))
  = firstn size (skipn k (map id tweets)).
Proof.
  intros Hk. rewrite JSFacts.slice_window by lia.
  now rewrite <- firstn_map, <- skipn_map.
Qed.

(** From index [k] on, a loop that is left has gone through the chunks of
    the remaining items, with one delay between two chunks. *)
Lemma cli_batches_steps (fuel : nat) : forall (k : nat) (st st' : Cli.Job),
  tweetsPerBatch (Cli.job_this st) = Z.of_nat size ->
  batchDelayMinutes (Cli.job_this st) = delay ->
  Cli.batches w tweets fuel (Z.of_nat k) st = (st', true) ->
  cliQuiet
    (batchSteps (Cli.job_trace st)
     ++ delayedChunks delay (chunksOf size (skipn k (map id tweets))))
    (Z.of_nat size) delay st'.
Proof.
  induction fuel as [|fuel IH]; intros k st st' HB HD Hrun;
    [discriminate|].
  simpl in Hrun.
  destruct (Z.ltb_spec (Z.of_nat k) (Z.of_nat (List.length tweets)))
    as [Hlt | Hge].
  - rewrite HB in Hrun.
    set (batch := JS.slice tweets (Z.of_nat k) (Z.of_nat k + Z.of_nat size))
      in *.
    pose proof (@cli_items_quiet
                  (batchSteps (Cli.job_trace st) ++ [Chunk (map id batch)])
                  fuel batch (Cli.emit st [EvBatch (map id batch)])) as Hq.
    destruct (Cli.items w fuel batch 0 _) as [st1 fin].
    destruct fin; [|discriminate].
    simpl in Hq. destruct Hq as (Hs1 & HB1 & HD1).
    { unfold cliQuiet. simpl. rewrite batchSteps_app. auto. }
    rewrite HB1 in Hrun.
    assert (Hnext : Z.of_nat k + Z.of_nat size = Z.of_nat (k + size)) by lia.
    remember (skipn k (map id tweets)) as rest eqn:Hrest.
    destruct rest as [|x rest].
    { apply (f_equal (@List.length string)) in Hrest.
      rewrite length_skipn, length_map in Hrest. simpl in Hrest. lia. }
    rewrite chunksOf_cons by exact size_pos.
    rewrite delayedChunks_cons.
    assert (Hchunk : map id batch = firstn size (x :: rest)).
    { rewrite Hrest. apply slice_chunk. lia. }
    assert (Hskip : skipn size (x :: rest) = skipn (k + size) (map id tweets)).
    { rewrite Hrest, skipn_skipn. f_equal. lia. }
    rewrite Hskip, <- Hchunk.
    destruct (Z.ltb_spec (Z.of_nat k + Z.of_nat size)
                (Z.of_nat (List.length tweets))) as [Hmore | Hlast].
    + cbn [Cli.emit Cli.job_this] in Hrun. rewrite ?HB1, Hnext in Hrun.
      apply IH in Hrun; [|exact HB1|exact HD1].
      simpl in Hrun. rewrite batchSteps_app, Hs1, HD1 in Hrun. simpl in Hrun.
      destruct (chunksOf size (skipn (k + size) (map id tweets))) eqn:Hc.
      { apply chunksOf_nil_iff in Hc; [|exact size_pos].
        apply (f_equal (@List.length string)) in Hc.
        rewrite length_skipn, length_map in Hc. simpl in Hc. lia. }
      rewrite <- !app_assoc in Hrun. exact Hrun.
    + rewrite ?HB1, Hnext in Hrun.
      apply IH in Hrun; [|exact HB1|exact HD1].
      rewrite Hs1 in Hrun.
      assert (Hc : chunksOf size (skipn (k + size) (map id tweets)) = []).
      { rewrite skipn_all2; [reflexivity|]. rewrite length_map. lia. }
      rewrite Hc in *. simpl. rewrite <- !app_assoc in Hrun. exact Hrun.
  - inversion Hrun; subst; clear Hrun.
    rewrite skipn_all2 by (rewrite length_map; lia).
    unfold cliQuiet. simpl. rewrite app_nil_r. auto.
Qed.

End CliSchedule.

Lemma cli_run_steps (w : World) (fuel : nat) (this : TweetDeleter)
    (tweets : list Tweet) (size : nat) (st : Cli.Job) :
  (0 < size)%nat ->
  tweetsPerBatch this = Z.of_nat size ->
  Cli.deleteTweetsInBatches w fuel this tweets = (st, true) ->
  batchSteps (Cli.job_trace st)
  = delayedChunks (batchDelayMinutes this) (chunksOf size (map id tweets)).
Proof.
  intros Hsize HB Hrun. unfold Cli.deleteTweetsInBatches in Hrun.
  change 0 with (Z.of_nat 0) in Hrun.
  apply (@cli_batches_steps w tweets size (batchDelayMinutes this) Hsize)
    in Hrun; [|exact HB|reflexivity].
  destruct Hrun as (Hsteps & _ & _). exact Hsteps.
Qed.
(* ================================================================== *)
(** ** Batches and inter-batch delays of the web job when nothing is
       throttled *)

Section WebSchedule.

Variable w : World.
Hypothesis calm : neverThrottles w.
Variable tweets : list Web.TweetRef.
Variable size : nat.
Variable delay : Z.
Hypothesis size_pos : (0 < size)%nat.

Lemma web_item_quiet (steps : list BatchStep) (tweet : Web.TweetRef)
    (st : Web.Job) :
  webQuiet steps (Z.of_nat size) delay st ->
  webQuiet steps (Z.of_nat size) delay (Web.item w tweet st).
Proof.
  unfold webQuiet, Web.item. intros (Hs & HB & HD).
  item_cases; simpl;
    rewrite batchSteps_app; simpl; rewrite app_nil_r; auto.
Qed.

Lemma web_forOf_quiet (steps : list BatchStep) (batch : list Web.TweetRef) :
  forall st,
    webQuiet steps (Z.of_nat size) delay st ->
    webQuiet steps (Z.of_nat size) delay (Web.forOf w batch st).
Proof.
  induction batch as [|tweet batch IH]; intros st H; [exact H|].
  simpl. apply IH. now apply web_item_quiet.
Qed.

Lemma web_slice_chunk (k : nat) :
  (k < List.length tweets)%nat ->
  map Web.ref_id
    (JS.slice tweets (Z.of_nat k) (Z.of_nat k + Z.of_nat size))
  = firstn size (skipn k (map Web.ref_id tweets)).
Proof.
  intros Hk. rewrite JSFacts.slice_window by lia.
  now rewrite <- firstn_map, <- skipn_map.
Qed.

Lemma web_batches_steps (fuel : nat) : forall (k : nat) (st st' : Web.Job),
  Web.job_i st = Z.of_nat k ->
  tweetsPerBatch (Web.job_deleter st) = Z.of_nat size ->
  batchDelayMinutes (Web.job_deleter st) = delay ->
  Web.batches w tweets fuel st = (st', true) ->
  webQuiet
    (batchSteps (Web.job_trace st)
     ++ delayedChunks delay
          (chunksOf size (skipn k (map Web.ref_id tweets))))
    (Z.of_nat size) delay st'.
Proof.
  induction fuel as [|fuel IH]; intros k st st' Hk HB HD Hrun;
    [discriminate|].
  simpl in Hrun. rewrite Hk, HB in Hrun.
  destruct (Z.ltb_spec (Z.of_nat k) (Z.of_nat (List.length tweets)))
    as [Hlt | Hge].
  - set (batch := JS.slice tweets (Z.of_nat k) (Z.of_nat k + Z.of_nat size))
      in *.
    set (st0 := Web.emit st [EvBatch (map Web.ref_id batch)]) in *.
    pose proof (@web_forOf_quiet
                  (batchSteps (Web.job_trace st)
                   ++ [Chunk (map Web.ref_id batch)]) batch st0) as Hq.
    destruct (web_forOf_unthrottled calm batch st0) as [Hi _].
    change (Web.job_i st0) with (Web.job_i st) in Hi. rewrite Hk in Hi.
    set (st1 := Web.forOf w batch st0) in *.
    destruct Hq as (Hs1 & HB1 & HD1).
    { unfold webQuiet, st0. simpl. rewrite batchSteps_app. auto. }
    rewrite Hi, HB1 in Hrun.
    remember (skipn k (map Web.ref_id tweets)) as rest eqn:Hrest.
    destruct rest as [|x rest].
    { apply (f_equal (@List.length string)) in Hrest.
      rewrite length_skipn, length_map in Hrest. simpl in Hrest. lia. }
    rewrite chunksOf_cons by exact size_pos.
    rewrite delayedChunks_cons.
    assert (Hchunk : map Web.ref_id batch = firstn size (x :: rest)).
    { rewrite Hrest. apply web_slice_chunk. lia. }
    assert (Hskip : skipn size (x :: rest)
                    = skipn (k + size) (map Web.ref_id tweets)).
    { rewrite Hrest, skipn_skipn. f_equal. lia. }
    rewrite Hskip, <- Hchunk.
    destruct (Z.ltb_spec (Z.of_nat k + Z.of_nat size)
                (Z.of_nat (List.length tweets))) as [Hmore | Hlast].
    + apply (IH (k + size)%nat) in Hrun;
        [| simpl; lia | exact HB1 | exact HD1].
      simpl in Hrun. rewrite batchSteps_app, Hs1, HD1 in Hrun. simpl in Hrun.
      destruct (chunksOf size (skipn (k + size) (map Web.ref_id tweets)))
        eqn:Hc.
      { apply chunksOf_nil_iff in Hc; [|exact size_pos].
        apply (f_equal (@List.length string)) in Hc.
        rewrite length_skipn, length_map in Hc. simpl in Hc. lia. }
      rewrite <- !app_assoc in Hrun. exact Hrun.
    + apply (IH (k + size)%nat) in Hrun;
        [| simpl; lia | exact HB1 | exact HD1].
      simpl in Hrun. rewrite Hs1 in Hrun.
      assert (Hc : chunksOf size (skipn (k + size) (map Web.ref_id tweets))
                   = []).
      { rewrite skipn_all2; [reflexivity|]. rewrite length_map. lia. }
      rewrite Hc in *. simpl. rewrite <- !app_assoc in Hrun. exact Hrun.
  - inversion Hrun; subst; clear Hrun.
    rewrite skipn_all2 by (rewrite length_map; lia).
    unfold webQuiet. simpl. rewrite app_nil_r. auto.
Qed.

End WebSchedule.
(* ================================================================== *)
(** ** The command-line scheduler retries a throttled item *)

Lemma failuresOf_app (a b : list Event) :
  failuresOf (a ++ b) = (failuresOf a + failuresOf b)%nat.
Proof.
  unfold failuresOf. now rewrite attemptsOf_app, filter_app, length_app.
Qed.

Section CliRetry.

Variable w : World.

Lemma cli_item_count (tweet : Tweet) (j : Z) (st : Cli.Job) :
  cliCountInv st -> cliCountInv (fst (Cli.item w tweet j st)).
Proof.
  unfold cliCountInv, Cli.item. intros [Hf Hd].
  item_cases; simpl;
    rewrite failuresOf_app, deletionsOf_app, length_app, <- Hf, <- Hd;
    cbn; lia.
Qed.

Lemma cli_counts (fuel : nat) (this : TweetDeleter) (tweets : list Tweet) :
  cliCountInv (fst (Cli.deleteTweetsInBatches w fuel this tweets)).
Proof.
  unfold Cli.deleteTweetsInBatches.
  apply (@cli_batches_inv w cliCountInv).
  - intros. now apply cli_item_count.
  - unfold cliCountInv. intros st b [Hf Hd]. simpl.
    rewrite failuresOf_app, deletionsOf_app, length_app, <- Hf, <- Hd.
    cbn. lia.
  - unfold cliCountInv. intros st b [Hf Hd]. simpl.
    rewrite failuresOf_app, deletionsOf_app, length_app, <- Hf, <- Hd.
    cbn. lia.
  - split; reflexivity.
Qed.

(** One pass of the inner loop, seen by the automaton: an attempt that is
    not throttled leaves it idle and moves to the next element; a throttled
    one leaves it waiting for the same element, and the index stays. *)
Lemma cli_item_retry (tweet : Tweet) (j : Z) (st : Cli.Job) (p : Pending) :
  p = Idle \/ p = MustRetry (id tweet) ->
  exists evs p',
    Cli.job_trace (fst (Cli.item w tweet j st)) = Cli.job_trace st ++ evs
    /\ (forall rest, retryOk p (evs ++ rest) = retryOk p' rest)
    /\ ((p' = Idle /\ snd (Cli.item w tweet j st) = j + 1)
        \/ (p' = MustRetry (id tweet) /\ snd (Cli.item w tweet j st) = j)).
Proof.
  intros Hp. unfold Cli.item.
  item_cases; simpl.
  - eexists. exists Idle. split; [reflexivity|]. split; [|now left].
    intros rest. destruct Hp as [-> | ->]; simpl;
      rewrite ?String.eqb_refl; reflexivity.
  - eexists. exists Idle. split; [reflexivity|]. split; [|now left].
    intros rest. destruct Hp as [-> | ->]; simpl;
      rewrite ?String.eqb_refl; reflexivity.
  - eexists. exists (MustRetry (id tweet)). split; [reflexivity|].
    split; [|right; split; [reflexivity | lia]].
    intros rest. destruct Hp as [-> | ->]; simpl;
      rewrite ?String.eqb_refl; reflexivity.
  - eexists. exists Idle. split; [reflexivity|]. split; [|now left].
    intros rest. destruct Hp as [-> | ->]; simpl;
      rewrite ?String.eqb_refl; reflexivity.
Qed.

Lemma cli_items_retry (batch : list Tweet) (fuel : nat) :
  forall (j : Z) (st : Cli.Job) (p : Pending),
    0 <= j ->
    (p = Idle
     \/ exists tweet, nth_error batch (Z.to_nat j) = Some tweet
                      /\ p = MustRetry (id tweet)) ->
    exists ext,
      Cli.job_trace (fst (Cli.items w fuel batch j st))
      = Cli.job_trace st ++ ext
      /\ retryOk p ext = true
      /\ (snd (Cli.items w fuel batch j st) = true ->
          forall rest, retryOk p (ext ++ rest) = retryOk Idle rest).
Proof.
  induction fuel as [|fuel IH]; intros j st p Hj Hp.
  - exists []. simpl. rewrite app_nil_r.
    split; [reflexivity|]. split; [reflexivity | discriminate].
  - simpl.
    destruct (Z.ltb_spec j (Z.of_nat (List.length batch))) as [Hlt | Hge].
    + destruct (cli_batch_element batch Hj Hlt) as [tweet Htweet].
      rewrite Htweet.
      assert (Hnth : nth_error batch (Z.to_nat j) = Some tweet).
      { revert Htweet. destruct (j <? 0); [discriminate | auto]. }
      assert (Hp' : p = Idle \/ p = MustRetry (id tweet)).
      { destruct Hp as [-> | (t & Ht & ->)]; [now left|].
        right. congruence. }
      destruct (cli_item_retry tweet j st Hp')
        as (evs & p' & Htr & Hrun & Hnext).
      destruct (Cli.item w tweet j st) as [st' j']. simpl in Htr, Hnext.
      assert (Hj' : 0 <= j') by (destruct Hnext as [[_ ->] | [_ ->]]; lia).
      assert (Hcompat : p' = Idle
                \/ exists t, nth_error batch (Z.to_nat j') = Some t
                             /\ p' = MustRetry (id t)).
      { destruct Hnext as [[-> _] | [-> ->]]; [now left|].
        right. now exists tweet. }
      destruct (IH j' st' p' Hj' Hcompat) as (ext & Hext & Hok & Hfin).
      exists (evs ++ ext). split; [|split].
      * rewrite Hext, Htr. now rewrite app_assoc.
      * now rewrite Hrun.
      * intros Hdone rest. rewrite <- app_assoc, Hrun. now apply Hfin.
    + exists []. simpl. rewrite app_nil_r.
      assert (p = Idle) as ->.
      { destruct Hp as [-> | (t & Ht & _)]; [reflexivity|].
        assert (Z.to_nat j < List.length batch)%nat
          by (apply nth_error_Some; congruence).
        lia. }
      split; [reflexivity|]. split; [reflexivity|]. reflexivity.
Qed.

Lemma cli_batches_retry (tweets : list Tweet) (fuel : nat) :
  forall (i : Z) (st : Cli.Job),
    exists ext,
      Cli.job_trace (fst (Cli.batches w tweets fuel i st))
      = Cli.job_trace st ++ ext
      /\ retryOk Idle ext = true
      /\ (snd (Cli.batches w tweets fuel i st) = true ->
          forall rest, retryOk Idle (ext ++ rest) = retryOk Idle rest).
Proof.
  induction fuel as [|fuel IH]; intros i st.
  - exists []. simpl. rewrite app_nil_r.
    split; [reflexivity|]. split; [reflexivity | discriminate].
  - simpl. destruct (i <? Z.of_nat (List.length tweets)).
    2:{ exists []. simpl. rewrite app_nil_r.
        split; [reflexivity|]. split; reflexivity. }
    set (batch := JS.slice tweets i (i + tweetsPerBatch (Cli.job_this st))).
    destruct (@cli_items_retry batch fuel 0
                (Cli.emit st [EvBatch (map id batch)]) Idle
                ltac:(lia) ltac:(now left)) as (ext1 & Hext1 & Hok1 & Hfin1).
    destruct (Cli.items w fuel batch 0 _) as [st1 fin].
    simpl in Hext1, Hfin1. destruct fin.
    + specialize (Hfin1 eq_refl).
      set (st2 := if i + tweetsPerBatch (Cli.job_this st1) <? _
                  then _ else st1).
      assert (Hst2 : exists evs,
                 Cli.job_trace st2 = Cli.job_trace st1 ++ evs
                 /\ forall rest, retryOk Idle (evs ++ rest)
                                 = retryOk Idle rest).
      { unfold st2.
        destruct (i + tweetsPerBatch (Cli.job_this st1) <? _).
        - eexists. split; [reflexivity|]. reflexivity.
        - exists []. now rewrite app_nil_r. }
      destruct Hst2 as (evs & Hevs & Hskip).
      destruct (IH (i + tweetsPerBatch (Cli.job_this st2)) st2)
        as (ext2 & Hext2 & Hok2 & Hfin2).
      exists ([EvBatch (map id batch)] ++ ext1 ++ evs ++ ext2).
      split; [|split].
      * rewrite Hext2, Hevs, Hext1. now rewrite <- !app_assoc.
      * cbn [app retryOk]. now rewrite Hfin1, Hskip.
      * intros Hdone rest. cbn [app retryOk].
        rewrite <- !app_assoc, Hfin1, Hskip. now apply Hfin2.
    + exists ([EvBatch (map id batch)] ++ ext1). split; [|split].
      * simpl. rewrite Hext1. now rewrite <- app_assoc.
      * exact Hok1.
      * discriminate.
Qed.

End CliRetry.
(* ================================================================== *)
(** ** The schedulers against the specification *)

(** X1.  In the command-line scheduler, at any point of any run, every
    throttled attempt is followed by the wait and then by an attempt on the
    same item, and the failed counter counts the failed attempts only: a
    throttling never adds to it. *)
Theorem cli_retries_throttled_item (w : World) (fuel : nat)
    (this : TweetDeleter) (tweets : list Tweet) :
  let st := fst (Cli.deleteTweetsInBatches w fuel this tweets) in
  retryOk Idle (Cli.job_trace st) = true
  /\ Cli.failedCount st = failuresOf (Cli.job_trace st)
  /\ Cli.deletedCount st = List.length (deletionsOf (Cli.job_trace st)).
Proof.
  intros st. subst st. split; [|apply cli_counts].
  unfold Cli.deleteTweetsInBatches.
  destruct (cli_batches_retry w tweets fuel 0
              {| Cli.job_this := this; Cli.deletedCount := 0;
                 Cli.failedCount := 0; Cli.job_calls := 0;
                 Cli.job_trace := [] |}) as (ext & Hext & Hok & _).
  rewrite Hext. exact Hok.
Qed.

(** C1 at its failing input: the web job over two ids with the default batch
    size, the first remote call throttled.  The job waits and goes on with
    the second id; the first one is never attempted again, and the run ends
    with one item of two accounted for.  The command-line scheduler, in the
    same world, attempts the first item again. *)
Theorem web_job_skips_throttled_item :
  let s1 := snd (fst (Web.postDeleteTweets (Some ["a"; "b"])
                        (Sample.ready 5))) in
  let run := Web.processDeletion Sample.throttledOnce 3 ["a"; "b"] s1 in
  Web.status run = Web.Completed
  /\ attemptsOf (Web.trace run) = [("a", Throttled); ("b", Deleted 0)]
  /\ sleepsOf RateLimitWait (Web.trace run) = [15]
  /\ retryOk Idle (Web.trace run) = false
  /\ Web.deletionStats (Web.server run)
     = {| deleted := 1; failed := 0; total := 2 |}
  /\ attemptsOf
       (Cli.job_trace
          (fst (Cli.deleteTweetsInBatches Sample.throttledOnce 5
                  (newTweetDeleter None None)
                  [Sample.tweet "a"; Sample.tweet "b"])))
     = [("a", Throttled); ("a", Deleted 0); ("b", Deleted 0)].
Proof. repeat split; vm_compute; reflexivity. Qed.

(** X2.  For a completed run of the command-line scheduler with a positive
    batch size, whatever the replies of the platform, the batches it went
    through are the partition of the list: their concatenation is the list,
    their number is the ceiling of [n / size], all but the last have [size]
    elements and the last has [n mod size], or [size] when that is zero. *)
Theorem cli_partitions_into_chunks (w : World) (fuel : nat)
    (this : TweetDeleter) (tweets : list Tweet) (size : nat)
    (st : Cli.Job) :
  (0 < size)%nat ->
  tweetsPerBatch this = Z.of_nat size ->
  Cli.deleteTweetsInBatches w fuel this tweets = (st, true) ->
  let chunks := batchesOf (Cli.job_trace st) in
  let n := Z.of_nat (List.length tweets) in
  List.concat chunks = map id tweets
  /\ Z.of_nat (List.length chunks) = JS.ceilDiv n (Z.of_nat size)
  /\ forall init last,
       chunks = init ++ [last] ->
       Forall (fun c => List.length c = size) init
       /\ Z.of_nat (List.length last) = lastChunkSize n (Z.of_nat size).
Proof.
  intros Hsize HB Hrun chunks n.
  pose proof (cli_run_steps w fuel this tweets Hsize HB Hrun) as Hsteps.
  assert (Hchunks : chunks = chunksOf size (map id tweets)).
  { subst chunks. now rewrite batchesOf_steps, Hsteps, stepChunks_delayed. }
  rewrite Hchunks. subst n. rewrite <- (length_map id tweets).
  split; [now apply concat_chunksOf|].
  split; [now apply length_chunksOf|].
  intros init last. now apply chunksOf_sizes.
Qed.

Lemma cli_partitions_into_chunks_witness :
  let tweets := map Sample.tweet ["a"; "b"; "c"; "d"; "e"] in
  let st := fst (Cli.deleteTweetsInBatches Sample.throttledOnce 9
                   (newTweetDeleter (Some 2) None) tweets) in
  batchesOf (Cli.job_trace st) = [["a"; "b"]; ["c"; "d"]; ["e"]]
  /\ List.concat (batchesOf (Cli.job_trace st)) = map id tweets
  /\ Z.of_nat (List.length (batchesOf (Cli.job_trace st))) = JS.ceilDiv 5 2.
Proof.
  intros tweets st. split; [vm_compute; reflexivity|].
  assert (Hrun : Cli.deleteTweetsInBatches Sample.throttledOnce 9
                   (newTweetDeleter (Some 2) None) tweets = (st, true))
    by (vm_compute; reflexivity).
  pose proof (@cli_partitions_into_chunks Sample.throttledOnce 9
                (newTweetDeleter (Some 2) None) tweets 2 st
                (Nat.lt_0_succ 1) eq_refl Hrun) as H.
  cbv zeta in H. destruct H as (H1 & H2 & _). split; [exact H1 | exact H2].
Defined.

(** X3.  For a completed run of the command-line scheduler with a positive
    batch size, whatever the replies of the platform: the batches and the
    inter-batch calls of [sleep] alternate, starting and ending with a
    batch; every such call has the configured delay as argument; and a list
    longer than one batch gives the ceiling of [n / size], minus one, of
    them. *)
Theorem cli_delays_between_chunks (w : World) (fuel : nat)
    (this : TweetDeleter) (tweets : list Tweet) (size : nat)
    (st : Cli.Job) :
  (0 < size)%nat ->
  tweetsPerBatch this = Z.of_nat size ->
  Cli.deleteTweetsInBatches w fuel this tweets = (st, true) ->
  let n := Z.of_nat (List.length tweets) in
  batchSteps (Cli.job_trace st)
  = delayedChunks (batchDelayMinutes this) (chunksOf size (map id tweets))
  /\ sleepsOf BatchDelay (Cli.job_trace st)
     = repeat (batchDelayMinutes this)
         (List.length (batchesOf (Cli.job_trace st)) - 1)
  /\ (Z.of_nat size < n ->
      Z.of_nat (List.length (sleepsOf BatchDelay (Cli.job_trace st)))
      = JS.ceilDiv n (Z.of_nat size) - 1).
Proof.
  intros Hsize HB Hrun n.
  pose proof (cli_run_steps w fuel this tweets Hsize HB Hrun) as Hsteps.
  assert (Hdelays : sleepsOf BatchDelay (Cli.job_trace st)
                    = repeat (batchDelayMinutes this)
                        (List.length (batchesOf (Cli.job_trace st)) - 1)).
  { rewrite sleepsOf_steps, batchesOf_steps, Hsteps.
    now rewrite stepDelays_delayed, stepChunks_delayed. }
  split; [exact Hsteps|]. split; [exact Hdelays|].
  intros Hlong. rewrite Hdelays, repeat_length.
  rewrite batchesOf_steps, Hsteps, stepChunks_delayed.
  pose proof (length_chunksOf Hsize (map id tweets)) as Hc.
  rewrite length_map in Hc. fold n in Hc.
  pose proof (@JSFacts.ceilDiv_bounds n (Z.of_nat size) ltac:(lia)).
  nia.
Qed.

Lemma cli_delays_between_chunks_witness :
  let tweets := map Sample.tweet
                  ["1"; "2"; "3"; "4"; "5"; "6"; "7"; "8"; "9"; "10"; "11";
                   "12"] in
  let st := fst (Cli.deleteTweetsInBatches Sample.throttledOnce 16
                   (newTweetDeleter None None) tweets) in
  map (@List.length string) (batchesOf (Cli.job_trace st)) = [5; 5; 2]%nat
  /\ sleepsOf BatchDelay (Cli.job_trace st) = [90; 90]
  /\ batchSteps (Cli.job_trace st)
     = delayedChunks 90 (chunksOf 5 (map id tweets)).
Proof.
  intros tweets st.
  split; [vm_compute; reflexivity|]. split; [vm_compute; reflexivity|].
  assert (Hrun : Cli.deleteTweetsInBatches Sample.throttledOnce 16
                   (newTweetDeleter None None) tweets = (st, true))
    by (vm_compute; reflexivity).
  exact (proj1 (@cli_delays_between_chunks Sample.throttledOnce 16
                  (newTweetDeleter None None) tweets 5 st
                  (Nat.lt_0_succ 4) eq_refl Hrun)).
Defined.

(** X4.  The web job does the same as long as no remote call is throttled:
    when a run is over, its batches are the chunks of the submitted list,
    with one delay between two of them. *)
Theorem web_schedule_when_unthrottled (w : World) (fuel : nat)
    (ids : list string) (s : Web.Server) (d : TweetDeleter) (size : nat) :
  neverThrottles w ->
  (0 < size)%nat ->
  Web.deleter s = Some d ->
  tweetsPerBatch d = Z.of_nat size ->
  Web.status (Web.processDeletion w fuel ids s) <> Web.Running ->
  let tr := Web.trace (Web.processDeletion w fuel ids s) in
  batchSteps tr = delayedChunks (batchDelayMinutes d) (chunksOf size ids)
  /\ batchesOf tr = chunksOf size ids
  /\ sleepsOf BatchDelay tr
     = repeat (batchDelayMinutes d) (List.length (chunksOf size ids) - 1).
Proof.
  intros Hcalm Hsize Hd HB Hover tr.
  assert (Hsteps : batchSteps tr
                   = delayedChunks (batchDelayMinutes d) (chunksOf size ids)).
  { subst tr. revert Hover. unfold Web.processDeletion. rewrite Hd.
    pose proof (fun st' =>
      @web_batches_steps w Hcalm (map Web.mkTweetRef ids) size
        (batchDelayMinutes d) Hsize fuel 0
        {| Web.job_deleter := d; Web.job_stats := Web.deletionStats s;
           Web.job_i := 0; Web.job_calls := 0; Web.job_trace := [] |}
        st' eq_refl HB eq_refl) as Hloop.
    destruct (Web.batches w (map Web.mkTweetRef ids) fuel _) as [st fin].
    destruct fin; [|simpl; congruence].
    destruct (Hloop st eq_refl) as (Hs & _ & _). simpl in Hs.
    rewrite map_map, map_id in Hs.
    intros _. destruct (writeFileOk w); simpl; [|exact Hs].
    rewrite batchSteps_app, Hs. simpl. apply app_nil_r. }
  split; [exact Hsteps|].
  rewrite batchesOf_steps, sleepsOf_steps, Hsteps.
  now rewrite stepChunks_delayed, stepDelays_delayed.
Qed.

Lemma calm_neverThrottles : neverThrottles Sample.calm.
Proof. intros n. exact I. Qed.

Lemma web_schedule_when_unthrottled_witness :
  let ids := ["1"; "2"; "3"; "4"; "5"; "6"; "7"; "8"; "9"; "10"; "11"; "12"] in
  let s1 := snd (fst (Web.postDeleteTweets (Some ids) (Sample.ready 5))) in
  let tr := Web.trace (Web.processDeletion Sample.calm 13 ids s1) in
  map (@List.length string) (chunksOf 5 ids) = [5; 5; 2]%nat
  /\ batchesOf tr = chunksOf 5 ids
  /\ sleepsOf BatchDelay tr = repeat 90 (List.length (chunksOf 5 ids) - 1).
Proof.
  intros ids s1 tr. split; [vm_compute; reflexivity|].
  assert (Hover : Web.status (Web.processDeletion Sample.calm 13 ids s1)
                  <> Web.Running).
  { assert (Hc : Web.status (Web.processDeletion Sample.calm 13 ids s1)
                 = Web.Completed) by (vm_compute; reflexivity).
    rewrite Hc. discriminate. }
  exact (proj2 (@web_schedule_when_unthrottled Sample.calm 13 ids s1
                  (newTweetDeleter (Some 5) None) 5
                  calm_neverThrottles (Nat.lt_0_succ 4) eq_refl eq_refl
                  Hover)).
Defined.

(** C4 at its failing input: the web job over three ids with batches of
    three, the first remote call throttled.  The partition has one chunk;
    the job goes through two, the second one holding the last id again. *)
Theorem web_job_chunks_after_throttling :
  let ids := ["a"; "b"; "c"] in
  let s1 := snd (fst (Web.postDeleteTweets (Some ids) (Sample.ready 3))) in
  let run := Web.processDeletion Sample.throttledOnce 3 ids s1 in
  Web.status run = Web.Completed
  /\ chunksOf 3 ids = [["a"; "b"; "c"]]
  /\ JS.ceilDiv 3 3 = 1
  /\ batchesOf (Web.trace run) = [["a"; "b"; "c"]; ["c"]]
  /\ List.concat (batchesOf (Web.trace run)) <> ids
  /\ batchesOf
       (Cli.job_trace
          (fst (Cli.deleteTweetsInBatches Sample.throttledOnce 6
                  (newTweetDeleter (Some 3) None) (map Sample.tweet ids))))
     = [["a"; "b"; "c"]].
Proof.
  repeat split; try (vm_compute; reflexivity).
  vm_compute. discriminate.
Qed.

(** C6 at its failing input: the web job over two ids with batches of one,
    the first remote call throttled.  Two chunks call for one inter-batch
    delay; the job sleeps twice, the first time after the throttled batch,
    which it then goes through again. *)
Theorem web_job_delays_after_throttling :
  let ids := ["a"; "b"] in
  let s1 := snd (fst (Web.postDeleteTweets (Some ids) (Sample.ready 1))) in
  let run := Web.processDeletion Sample.throttledOnce 4 ids s1 in
  Web.status run = Web.Completed
  /\ JS.ceilDiv 2 1 - 1 = 1
  /\ batchSteps (Web.trace run)
     = [Chunk ["a"]; Delay 90; Chunk ["a"]; Delay 90; Chunk ["b"]]
  /\ sleepsOf BatchDelay (Web.trace run) = [90; 90]
  /\ batchSteps
       (Cli.job_trace
          (fst (Cli.deleteTweetsInBatches Sample.throttledOnce 6
                  (newTweetDeleter (Some 1) None) (map Sample.tweet ids))))
     = [Chunk ["a"]; Delay 90; Chunk ["b"]].
Proof. repeat split; vm_compute; reflexivity. Qed.

(** The web job, a run with one deletion and one failure. *)
Lemma saved_log_lists_deletions_witness :
  let w := {| endpoint := fun n => match n with
                                   | O => Resolved
                                   | _ => Sample.notFound
                                   end;
              clock := fun _ => 1700000000000;
              writeFileOk := true;
              reinitialized := fun _ => false |} in
  let s1 := snd (fst (Web.postDeleteTweets (Some ["a"; "b"])
                        (Sample.ready 5))) in
  let run := Web.processDeletion w 3 ["a"; "b"] s1 in
  attemptsOf (Web.trace run)
  = [("a", Deleted 1700000000000); ("b", Failed "Not Found")]
  /\ exists log,
       savedLog (Web.trace run) = Some log
       /\ logKeys log = [] ++ deletionsOf (Web.trace run).
Proof.
  intros w s1 run. split; [vm_compute; reflexivity|].
  assert (Hdone : Web.status (Web.processDeletion w 3 ["a"; "b"] s1)
                  = Web.Completed) by (vm_compute; reflexivity).
  exact (proj1 saved_log_lists_deletions w 3%nat ["a"; "b"] s1
           (newTweetDeleter (Some 5) None) eq_refl (fun _ => eq_refl)
           Hdone).
Defined.

(** C3 as stated fails on a run whose only item fails: the run has one
    terminal outcome and the saved log is empty.  So it is for the web job
    and for the command-line tool. *)
Lemma failed_outcome_not_logged :
  let s1 := snd (fst (Web.postDeleteTweets (Some ["a"]) (Sample.ready 5))) in
  let run := Web.processDeletion Sample.broken 2 ["a"] s1 in
  Web.status run = Web.Completed
  /\ terminalOutcomes (Web.trace run) = [("a", Failed "Not Found")]
  /\ savedLog (Web.trace run) = Some []
  /\ ~ logsEveryOutcome (Web.trace run)
  /\ exists tr,
       Cli.deleteAndSave Sample.broken 3 (newTweetDeleter None None)
         [Sample.tweet "a"] = Some tr
       /\ ~ logsEveryOutcome tr.
Proof.
  intros s1 run.
  split; [vm_compute; reflexivity|]. split; [vm_compute; reflexivity|].
  split; [vm_compute; reflexivity|].
  split.
  - intros (log & Hlog & Hids). vm_compute in Hlog, Hids.
    inversion Hlog; subst. discriminate.
  - eexists. split; [vm_compute; reflexivity|].
    intros (log & Hlog & Hids). vm_compute in Hlog, Hids.
    inversion Hlog; subst. discriminate.
Qed.
(* ================================================================== *)
(** ** What the two schedulers do on a throttling error *)

Lemma web_item_throttled (w : World) (tweet : Web.TweetRef) (st : Web.Job)
    (e : ApiError) :
  endpoint w (Web.job_calls st) = Rejected e -> code e = 429 ->
  Web.job_trace (Web.item w tweet st)
  = Web.job_trace st
    ++ [EvAttempt (Web.ref_id tweet) Throttled;
        EvSleep RateLimitWait
          (rateLimitWaitWeb e (clock w (Web.job_calls st)))]
  /\ Web.job_stats (Web.item w tweet st) = Web.job_stats st
  /\ Web.job_i (Web.item w tweet st) = Web.job_i st - 1.
Proof.
  intros Hreply Hcode. unfold Web.item, deleteTweet.
  apply Z.eqb_eq in Hcode.
  rewrite Hreply, Hcode. cbn. rewrite Hcode. repeat split.
Qed.

Lemma cli_item_throttled (w : World) (tweet : Tweet) (j : Z) (st : Cli.Job)
    (e : ApiError) :
  endpoint w (Cli.job_calls st) = Rejected e -> code e = 429 ->
  Cli.job_trace (fst (Cli.item w tweet j st))
  = Cli.job_trace st
    ++ [EvAttempt (id tweet) Throttled;
        EvSleep RateLimitWait
          (rateLimitWaitCli e (clock w (Cli.job_calls st)))]
  /\ Cli.failedCount (fst (Cli.item w tweet j st)) = Cli.failedCount st
  /\ snd (Cli.item w tweet j st) = j.
Proof.
  intros Hreply Hcode. unfold Cli.item, deleteTweet.
  apply Z.eqb_eq in Hcode.
  rewrite Hreply, Hcode. cbn. rewrite Hcode. repeat split. simpl. lia.
Qed.




(** A run of 39 ids with 22 deleted and one failed. *)
Lemma percent_small_totals_witness :
  Web.percent {| deleted := 22; failed := 1; total := 39 |}
  = specPercent {| deleted := 22; failed := 1; total := 39 |}.
Proof.
  apply percent_small_totals; [apply Nat.ltb_lt | apply Nat.leb_le];
    reflexivity.
Defined.

(** Twenty posts are listed, the first three of them replies and retweets:
    the fifteen returned are the fourth to the eighteenth. *)
Lemma fetchUserTweets_filtered_then_capped_witness :
  let posts := Cli.fetchUserTweets (newTweetDeleter None None)
                 Sample.timeline 100 in
  map id posts
  = ["4"; "5"; "6"; "7"; "8"; "9"; "10"; "11"; "12"; "13"; "14"; "15"; "16";
     "17"; "18"]
  /\ posts = firstn 15 (filter Cli.isOriginal Sample.listed).
Proof.
  intros posts. split; [vm_compute; reflexivity|].
  exact (proj2 (proj2 (fetchUserTweets_filtered_then_capped None None
                         Sample.timeline 100))
           "me" (Some Sample.listed) eq_refl eq_refl).
Defined.
(* ================================================================== *)
(** ** Both schedulers come to an end once the throttling stops *)

Section Termination.

Variable w : World.
Variable k : nat.
Hypothesis calm : calmFrom k w.

(** A throttled call is one of the first [k]. *)
Lemma throttled_early (n : nat) (e : ApiError) :
  endpoint w n = Rejected e -> (code e =? 429) = true -> (n < k)%nat.
Proof.
  intros Hreply Hcode. destruct (Nat.lt_ge_cases n k) as [|Hge]; [assumption|].
  specialize (calm Hge). rewrite Hreply in calm.
  apply Z.eqb_eq in Hcode. contradiction.
Qed.

Lemma cli_item_progress (tweet : Tweet) (j : Z) (st : Cli.Job) :
  let st' := fst (Cli.item w tweet j st) in
  let j' := snd (Cli.item w tweet j st) in
  Cli.job_calls st' = S (Cli.job_calls st)
  /\ tweetsPerBatch (Cli.job_this st') = tweetsPerBatch (Cli.job_this st)
  /\ (j' = j + 1 \/ (j' = j /\ (Cli.job_calls st < k)%nat)).
Proof.
  unfold Cli.item, deleteTweet.
  destruct (endpoint w (Cli.job_calls st)) as [|e] eqn:Hreply; simpl;
    [repeat split; now left|].
  destruct (code e =? 429) eqn:Hcode; cbn; rewrite ?Hcode; cbn;
    (split; [reflexivity|]); (split; [reflexivity|]); [right | now left].
  split; [lia | exact (throttled_early _ Hreply Hcode)].
Qed.

Lemma cli_items_terminate (batch : list Tweet) (fuel : nat) :
  forall (j : Z) (st : Cli.Job),
    0 <= j ->
    (Z.to_nat (Z.of_nat (List.length batch) - j) + (k - Cli.job_calls st)
     < fuel)%nat ->
    snd (Cli.items w fuel batch j st) = true
    /\ tweetsPerBatch (Cli.job_this (fst (Cli.items w fuel batch j st)))
       = tweetsPerBatch (Cli.job_this st)
    /\ (Cli.job_calls st
        <= Cli.job_calls (fst (Cli.items w fuel batch j st)))%nat.
Proof.
  induction fuel as [|fuel IH]; intros j st Hj Hfuel; [lia|].
  simpl.
  destruct (Z.ltb_spec j (Z.of_nat (List.length batch))) as [Hlt|];
    [|split; [reflexivity|]; split; [reflexivity | apply Nat.le_refl]].
  destruct (cli_batch_element batch Hj Hlt) as [tweet ->].
  pose proof (cli_item_progress tweet j st) as (Hcalls & HB & Hnext).
  destruct (Cli.item w tweet j st) as [st' j']. simpl in Hcalls, HB, Hnext.
  destruct (IH j' st') as (H1 & H2 & H3).
  - destruct Hnext as [-> | [-> _]]; lia.
  - destruct Hnext as [-> | [-> Hk]]; lia.
  - repeat split; [exact H1 | congruence | lia].
Qed.

Lemma cli_batches_terminate (tweets : list Tweet) (fuel : nat) :
  forall (i : Z) (st : Cli.Job),
    0 <= i -> 0 < tweetsPerBatch (Cli.job_this st) ->
    (Z.to_nat (Z.of_nat (List.length tweets) - i) + (k - Cli.job_calls st) + 1
     < fuel)%nat ->
    snd (Cli.batches w tweets fuel i st) = true.
Proof.
  induction fuel as [|fuel IH]; intros i st Hi HB Hfuel; [lia|].
  simpl.
  destruct (Z.ltb_spec i (Z.of_nat (List.length tweets))); [|reflexivity].
  set (batch := JS.slice tweets i (i + tweetsPerBatch (Cli.job_this st))).
  assert (Hlen : Z.of_nat (List.length batch)
                 <= Z.of_nat (List.length tweets) - i).
  { unfold batch. rewrite JSFacts.slice_length. unfold JS.relIndex.
    destruct (Z.ltb_spec i 0);
      destruct (Z.ltb_spec (i + tweetsPerBatch (Cli.job_this st)) 0); lia. }
  destruct (@cli_items_terminate batch fuel 0
              (Cli.emit st [EvBatch (map id batch)]) ltac:(lia)
              ltac:(simpl; lia))
    as (Hfin & HB1 & Hcalls).
  destruct (Cli.items w fuel batch 0 _) as [st1 fin].
  simpl in Hfin, HB1, Hcalls. subst fin.
  apply IH.
  - destruct (i + tweetsPerBatch (Cli.job_this st1) <? _); simpl; lia.
  - destruct (i + tweetsPerBatch (Cli.job_this st1) <? _); simpl; lia.
  - destruct (i + tweetsPerBatch (Cli.job_this st1) <? _); simpl; lia.
Qed.

(** X8.  With a positive batch size, if no call from the [k]-th on is
    throttled, [deleteTweetsInBatches] over [n] posts returns within
    [n + k + 2] units of fuel. *)
Theorem deleteTweetsInBatches_terminates (this : TweetDeleter)
    (tweets : list Tweet) :
  0 < tweetsPerBatch this ->
  snd (Cli.deleteTweetsInBatches w (List.length tweets + k + 2) this tweets)
  = true.
Proof.
  intros HB. apply cli_batches_terminate; simpl; lia.
Qed.

(** In the web job a pass through the per-item code either leaves the index
    alone or, on one of the first [k] calls, takes one from it. *)
Lemma web_item_progress (tweet : Web.TweetRef) (st : Web.Job) :
  let st' := Web.item w tweet st in
  Web.job_calls st' = S (Web.job_calls st)
  /\ tweetsPerBatch (Web.job_deleter st')
     = tweetsPerBatch (Web.job_deleter st)
  /\ (Web.job_i st' = Web.job_i st
      \/ (Web.job_i st' = Web.job_i st - 1 /\ (Web.job_calls st < k)%nat)).
Proof.
  unfold Web.item, deleteTweet.
  destruct (endpoint w (Web.job_calls st)) as [|e] eqn:Hreply; simpl;
    [repeat split; now left|].
  destruct (code e =? 429) eqn:Hcode; cbn; rewrite ?Hcode; cbn;
    (split; [reflexivity|]); (split; [reflexivity|]); [right | now left].
  split; [reflexivity | exact (throttled_early _ Hreply Hcode)].
Qed.

(** The index minus the number of calls that may still be throttled never
    goes down inside a batch. *)
Lemma web_forOf_progress (batch : list Web.TweetRef) : forall st : Web.Job,
  let st' := Web.forOf w batch st in
  tweetsPerBatch (Web.job_deleter st') = tweetsPerBatch (Web.job_deleter st)
  /\ Web.job_i st - Z.of_nat (k - Web.job_calls st)
     <= Web.job_i st' - Z.of_nat (k - Web.job_calls st')
  /\ Web.job_i st' <= Web.job_i st.
Proof.
  induction batch as [|tweet batch IH]; intros st; simpl; [lia|].
  destruct (IH (Web.item w tweet st)) as (HB & Hpot & Hi).
  pose proof (web_item_progress tweet st) as (Hcalls & HB1 & Hnext).
  cbv zeta in *. unfold Web.forOf in *.
  split; [congruence|].
  destruct Hnext as [Hsame | [Hless Hk]]; lia.
Qed.

Lemma web_batches_terminate (tweets : list Web.TweetRef) (fuel : nat) :
  forall st : Web.Job,
    0 < tweetsPerBatch (Web.job_deleter st) ->
    (Z.to_nat (Z.of_nat (List.length tweets) - Web.job_i st
               + Z.of_nat (k - Web.job_calls st)) < fuel)%nat ->
    snd (Web.batches w tweets fuel st) = true.
Proof.
  induction fuel as [|fuel IH]; intros st HB Hfuel; [lia|].
  simpl.
  destruct (Z.ltb_spec (Web.job_i st) (Z.of_nat (List.length tweets)));
    [|reflexivity].
  set (batch := JS.slice tweets _ _).
  set (st0 := Web.emit st [EvBatch (map Web.ref_id batch)]).
  pose proof (web_forOf_progress batch st0) as (HBs & Hpot & Hi).
  cbv zeta in *. set (st1 := Web.forOf w batch st0) in *.
  change (Web.job_i st0) with (Web.job_i st) in *.
  change (Web.job_calls st0) with (Web.job_calls st) in *.
  change (Web.job_deleter st0) with (Web.job_deleter st) in *.
  apply IH.
  - destruct (Web.job_i st1 + tweetsPerBatch (Web.job_deleter st1)
              <? Z.of_nat (List.length tweets)); simpl; lia.
  - destruct (Web.job_i st1 + tweetsPerBatch (Web.job_deleter st1)
              <? Z.of_nat (List.length tweets)); simpl; lia.
Qed.

(** X7.  With a positive batch size, if no call from the [k]-th on is
    throttled, [processDeletion] over [n] ids is over within [n + k + 1]
    iterations of its outer loop. *)
Theorem processDeletion_terminates (ids : list string) (s : Web.Server)
    (d : TweetDeleter) :
  Web.deleter s = Some d -> 0 < tweetsPerBatch d ->
  Web.status (Web.processDeletion w (List.length ids + k + 1) ids s)
  <> Web.Running.
Proof.
  intros Hd HB. unfold Web.processDeletion. rewrite Hd.
  pose proof (@web_batches_terminate (map Web.mkTweetRef ids)
                (List.length ids + k + 1)
                {| Web.job_deleter := d; Web.job_stats := Web.deletionStats s;
                   Web.job_i := 0; Web.job_calls := 0; Web.job_trace := [] |}
                HB) as Hterm.
  rewrite length_map in Hterm. specialize (Hterm ltac:(simpl; lia)).
  destruct (Web.batches w (map Web.mkTweetRef ids) _ _) as [st fin].
  simpl in Hterm. subst fin.
  destruct (writeFileOk w); discriminate.
Qed.

End Termination.

Lemma throttledOnce_calmFrom : calmFrom 1 Sample.throttledOnce.
Proof. intros [|n] Hn; [lia | exact I]. Qed.

Lemma processDeletion_terminates_witness :
  Web.status
    (Web.processDeletion Sample.throttledOnce 4 ["a"; "b"]
       (snd (fst (Web.postDeleteTweets (Some ["a"; "b"]) (Sample.ready 5)))))
  <> Web.Running.
Proof.
  apply (@processDeletion_terminates Sample.throttledOnce 1
           throttledOnce_calmFrom ["a"; "b"] _ (newTweetDeleter (Some 5) None));
    [reflexivity | reflexivity].
Defined.

Lemma deleteTweetsInBatches_terminates_witness :
  snd (Cli.deleteTweetsInBatches Sample.throttledOnce 5
         (newTweetDeleter None None) [Sample.tweet "a"; Sample.tweet "b"])
  = true.
Proof.
  apply (@deleteTweetsInBatches_terminates Sample.throttledOnce 1
           throttledOnce_calmFrom (newTweetDeleter None None)
           [Sample.tweet "a"; Sample.tweet "b"]).
  reflexivity.
Defined.

(* ------------------------------------------------------------------ *)
(** The retries are not bounded: against a platform that throttles every
    call, the command-line scheduler never gets past the first item. *)

Section Unbounded.

Variable w : World.
Hypothesis stormy : alwaysThrottles w.

Lemma cli_items_throttled_forever (tweet : Tweet) (batch : list Tweet)
    (fuel : nat) : forall st : Cli.Job,
  snd (Cli.items w fuel (tweet :: batch) 0 st) = false
  /\ Cli.failedCount (fst (Cli.items w fuel (tweet :: batch) 0 st))
     = Cli.failedCount st
  /\ Cli.deletedCount (fst (Cli.items w fuel (tweet :: batch) 0 st))
     = Cli.deletedCount st.
Proof.
  induction fuel as [|fuel IH]; intros st; [repeat split|].
  cbn [Cli.items].
  destruct (Z.ltb_spec 0 (Z.of_nat (List.length (tweet :: batch))));
    [|cbn [List.length] in *; lia].
  change (if 0 <? 0 then None else nth_error (tweet :: batch) (Z.to_nat 0))
    with (Some tweet).
  destruct (stormy (Cli.job_calls st)) as (e & Hreply & Hcode).
  destruct (cli_item_throttled w tweet 0 st Hreply Hcode) as (_ & Hf & Hj).
  assert (Hd : Cli.deletedCount (fst (Cli.item w tweet 0 st))
               = Cli.deletedCount st).
  { unfold Cli.item, deleteTweet. apply Z.eqb_eq in Hcode.
    rewrite Hreply, Hcode. cbn. now rewrite Hcode. }
  destruct (Cli.item w tweet 0 st) as [st' j']. simpl in Hf, Hj, Hd.
  subst j'. destruct (IH st') as (H1 & H2 & H3).
  repeat split; congruence.
Qed.

(** X9.  Against a platform that throttles every call, a run of the
    command-line scheduler over a non-empty list with a positive batch size
    never returns, and never counts an item as deleted or failed. *)
Theorem cli_throttled_forever (fuel : nat) (this : TweetDeleter)
    (tweet : Tweet) (tweets : list Tweet) :
  0 < tweetsPerBatch this ->
  let run := Cli.deleteTweetsInBatches w fuel this (tweet :: tweets) in
  snd run = false
  /\ Cli.failedCount (fst run) = O
  /\ Cli.deletedCount (fst run) = O.
Proof.
  intros HB run. subst run. unfold Cli.deleteTweetsInBatches.
  destruct fuel as [|fuel]; [repeat split|].
  cbn [Cli.batches].
  destruct (Z.ltb_spec 0 (Z.of_nat (List.length (tweet :: tweets))));
    [|cbn [List.length] in *; lia].
  cbn [Cli.job_this].
  assert (Hbatch : exists rest,
             JS.slice (tweet :: tweets) 0 (0 + tweetsPerBatch this)
             = tweet :: rest).
  { replace (0 + tweetsPerBatch this)
      with (Z.of_nat 0 + Z.of_nat (Z.to_nat (tweetsPerBatch this))) by lia.
    change 0 with (Z.of_nat 0) at 1.
    rewrite JSFacts.slice_window by (simpl; lia).
    destruct (Z.to_nat (tweetsPerBatch this)) as [|n] eqn:Hn; [lia|].
    simpl. eauto. }
  destruct Hbatch as [rest ->].
  pose proof (cli_items_throttled_forever tweet rest fuel
                (Cli.emit
                   {| Cli.job_this := this; Cli.deletedCount := 0;
                      Cli.failedCount := 0; Cli.job_calls := 0;
                      Cli.job_trace := [] |}
                   [EvBatch (map id (tweet :: rest))]))
    as (Hfin & Hf & Hd).
  destruct (Cli.items w fuel (tweet :: rest) 0 _) as [st1 fin].
  simpl in Hfin, Hf, Hd. subst fin. repeat split; assumption.
Qed.

End Unbounded.

Lemma stormy_alwaysThrottles : alwaysThrottles Sample.stormy.
Proof. intros n. eexists. split; reflexivity. Qed.

Lemma cli_throttled_forever_witness :
  snd (Cli.deleteTweetsInBatches Sample.stormy 50 (newTweetDeleter None None)
         [Sample.tweet "a"]) = false.
Proof.
  exact (proj1 (@cli_throttled_forever Sample.stormy
                  stormy_alwaysThrottles 50 (newTweetDeleter None None)
                  (Sample.tweet "a") [] eq_refl)).
Defined.

(* ================================================================== *)
(** ** Every item gets one terminal outcome, in order *)

Lemma terminalIds_app (a b : list Event) :
  terminalIds (a ++ b) = terminalIds a ++ terminalIds b.
Proof.
  unfold terminalIds, terminalOutcomes.
  now rewrite attemptsOf_app, filter_app, map_app.
Qed.

Lemma pausesOf_app (a b : list Event) :
  pausesOf (a ++ b) = pausesOf a ++ pausesOf b.
Proof.
  induction a as [|e a IH]; [reflexivity|].
  destruct e; simpl; rewrite IH; reflexivity.
Qed.

(** The terminal outcomes are the failures and the deletions. *)
Lemma terminal_count (tr : list Event) :
  List.length (terminalIds tr)
  = (failuresOf tr + List.length (deletionsOf tr))%nat.
Proof.
  unfold terminalIds, terminalOutcomes, failuresOf.
  induction tr as [|e tr IH]; [reflexivity|].
  destruct e as [| x [] | | | |]; simpl in *; lia.
Qed.

(** [deleteTweet] lets through throttling errors only: the [catch] of the
    schedulers never sees another one. *)
Lemma deleteTweet_throws_throttling (reply : ApiReply) (tweetId : string)
    (e : ApiError) :
  deleteTweet reply tweetId = Throw e -> (code e =? 429) = true.
Proof.
  unfold deleteTweet. destruct reply as [|e']; [discriminate|].
  destruct (code e' =? 429) eqn:Hcode; [|discriminate].
  intros H. inversion H; subst. exact Hcode.
Qed.

Section CliOutcomes.

Variable w : World.

(** One pass of the inner loop: either the item gets its terminal outcome,
    followed by the five-minute pause, and the loop moves on, or the call was
    throttled and the loop stays. *)
Lemma cli_item_outcome (tweet : Tweet) (j : Z) (st : Cli.Job) :
  let st' := fst (Cli.item w tweet j st) in
  let j' := snd (Cli.item w tweet j st) in
  (terminalIds (Cli.job_trace st')
   = terminalIds (Cli.job_trace st) ++ [id tweet]
   /\ pausesOf (Cli.job_trace st')
      = pausesOf (Cli.job_trace st) ++ [300000]
   /\ j' = j + 1)
  \/ (terminalIds (Cli.job_trace st') = terminalIds (Cli.job_trace st)
      /\ pausesOf (Cli.job_trace st') = pausesOf (Cli.job_trace st)
      /\ j' = j).
Proof.
  unfold Cli.item.
  destruct (deleteTweet (endpoint w (Cli.job_calls st)) (id tweet))
    as [result | e] eqn:Hcall.
  - destruct (success result); cbn [fst snd Cli.job_trace];
      rewrite terminalIds_app, pausesOf_app; left; repeat split.
  - rewrite (deleteTweet_throws_throttling _ _ Hcall).
    cbn [fst snd Cli.job_trace].
    rewrite terminalIds_app, pausesOf_app. right.
    cbn. rewrite !app_nil_r. repeat split. lia.
Qed.

Lemma skipn_nth_cons {A : Type} (l : list A) (j : nat) (x : A) :
  nth_error l j = Some x -> skipn j l = x :: skipn (S j) l.
Proof.
  revert j. induction l as [|y l IH]; intros [|j] H; try discriminate.
  - inversion H. reflexivity.
  - simpl in H. apply IH in H. exact H.
Qed.

(** From element [j] of a batch on: the ids that get a terminal outcome are
    the first of the remaining ones, all of them when the loop is left. *)
Lemma cli_items_outcomes (batch : list Tweet) (fuel : nat) :
  forall (j : nat) (st : Cli.Job),
    let run := Cli.items w fuel batch (Z.of_nat j) st in
    exists pre post,
      skipn j (map id batch) = pre ++ post
      /\ terminalIds (Cli.job_trace (fst run))
         = terminalIds (Cli.job_trace st) ++ pre
      /\ pausesOf (Cli.job_trace (fst run))
         = pausesOf (Cli.job_trace st) ++ repeat 300000 (List.length pre)
      /\ (snd run = true -> post = []).
Proof.
  induction fuel as [|fuel IH]; intros j st; cbv zeta.
  - exists [], (skipn j (map id batch)). simpl. rewrite !app_nil_r.
    repeat split. discriminate.
  - cbn [Cli.items].
    destruct (Z.ltb_spec (Z.of_nat j) (Z.of_nat (List.length batch)))
      as [Hlt | Hge].
    + destruct (Z.ltb_spec (Z.of_nat j) 0); [lia|].
      rewrite Nat2Z.id.
      destruct (nth_error batch j) as [tweet|] eqn:Hnth.
      2:{ apply nth_error_None in Hnth. lia. }
      assert (Hskip : skipn j (map id batch)
                      = id tweet :: skipn (S j) (map id batch)).
      { apply skipn_nth_cons. now rewrite nth_error_map, Hnth. }
      pose proof (cli_item_outcome tweet (Z.of_nat j) st) as Hitem.
      destruct (Cli.item w tweet (Z.of_nat j) st) as [st' j'].
      cbn [fst snd] in Hitem.
      destruct Hitem as [(Hids & Hp & ->) | (Hids & Hp & ->)].
      * replace (Z.of_nat j + 1) with (Z.of_nat (S j)) by lia.
        destruct (IH (S j) st') as (pre & post & Hsplit & Hids' & Hp' & Hfin).
        exists (id tweet :: pre), post. rewrite Hskip, Hsplit.
        split; [reflexivity|]. split; [|split; [|exact Hfin]].
        -- rewrite Hids', Hids, <- app_assoc. reflexivity.
        -- rewrite Hp', Hp, <- app_assoc. reflexivity.
      * destruct (IH j st') as (pre & post & Hsplit & Hids' & Hp' & Hfin).
        exists pre, post. split; [exact Hsplit|].
        split; [|split; [|exact Hfin]]; congruence.
    + exists [], []. rewrite skipn_all2 by (rewrite length_map; lia).
      simpl. rewrite !app_nil_r. repeat split.
Qed.

Variable tweets : list Tweet.
Variable size : nat.
Hypothesis size_pos : (0 < size)%nat.

Lemma cli_batches_outcomes (fuel : nat) : forall (k : nat) (st : Cli.Job),
  tweetsPerBatch (Cli.job_this st) = Z.of_nat size ->
  let run := Cli.batches w tweets fuel (Z.of_nat k) st in
  exists pre post,
    skipn k (map id tweets) = pre ++ post
    /\ terminalIds (Cli.job_trace (fst run))
       = terminalIds (Cli.job_trace st) ++ pre
    /\ pausesOf (Cli.job_trace (fst run))
       = pausesOf (Cli.job_trace st) ++ repeat 300000 (List.length pre)
    /\ (snd run = true -> post = []).
Proof.
  induction fuel as [|fuel IH]; intros k st HB; cbv zeta.
  - exists [], (skipn k (map id tweets)). simpl. rewrite !app_nil_r.
    repeat split. discriminate.
  - cbn [Cli.batches].
    destruct (Z.ltb_spec (Z.of_nat k) (Z.of_nat (List.length tweets)))
      as [Hlt | Hge].
    + rewrite HB.
      set (batch := JS.slice tweets (Z.of_nat k)
                      (Z.of_nat k + Z.of_nat size)).
      assert (Hbatch : map id batch = firstn size (skipn k (map id tweets)))
        by (apply slice_chunk; lia).
      assert (Hrest : skipn k (map id tweets)
                      = map id batch ++ skipn (k + size) (map id tweets)).
      { rewrite Hbatch.
        rewrite <- (firstn_skipn size (skipn k (map id tweets))) at 1.
        f_equal. rewrite skipn_skipn. f_equal. lia. }
      set (st0 := Cli.emit st [EvBatch (map id batch)]).
      destruct (cli_items_outcomes batch fuel 0 st0)
        as (pre & post & Hsplit & Hids & Hp & Hfin).
      change (Z.of_nat 0) with 0 in *. cbn [skipn] in Hsplit.
      assert (Hquiet : cliQuiet (batchSteps (Cli.job_trace st0))
                         (Z.of_nat size) (batchDelayMinutes (Cli.job_this st))
                         (fst (Cli.items w fuel batch 0 st0))).
      { apply cli_items_quiet; [exact size_pos|].
        unfold cliQuiet, st0. simpl.
        split; [reflexivity|]. split; [exact HB | reflexivity]. }
      destruct Hquiet as (_ & HB1 & _).
      assert (Hids0 : terminalIds (Cli.job_trace st0)
                      = terminalIds (Cli.job_trace st)).
      { unfold st0. simpl. rewrite terminalIds_app. apply app_nil_r. }
      assert (Hp0 : pausesOf (Cli.job_trace st0) = pausesOf (Cli.job_trace st)).
      { unfold st0. simpl. rewrite pausesOf_app. apply app_nil_r. }
      rewrite Hids0 in Hids. rewrite Hp0 in Hp.
      destruct (Cli.items w fuel batch 0 st0) as [st1 fin].
      cbn [fst snd] in *. destruct fin.
      * specialize (Hfin eq_refl). subst post. rewrite app_nil_r in Hsplit.
        rewrite HB1.
        set (st2 := if Z.of_nat k + Z.of_nat size <? _ then _ else st1).
        assert (H2 : terminalIds (Cli.job_trace st2)
                     = terminalIds (Cli.job_trace st1)
                     /\ pausesOf (Cli.job_trace st2)
                        = pausesOf (Cli.job_trace st1)
                     /\ tweetsPerBatch (Cli.job_this st2) = Z.of_nat size).
        { unfold st2. destruct (Z.of_nat k + Z.of_nat size <? _); simpl;
            rewrite ?terminalIds_app, ?pausesOf_app, ?app_nil_r; auto. }
        destruct H2 as (H2i & H2p & H2B). rewrite H2B.
        replace (Z.of_nat k + Z.of_nat size) with (Z.of_nat (k + size))
          by lia.
        destruct (IH (k + size)%nat st2 H2B)
          as (pre' & post' & Hsplit' & Hids' & Hp' & Hfin').
        exists (pre ++ pre'), post'.
        rewrite Hrest, Hsplit, Hsplit', <- app_assoc.
        split; [reflexivity|]. split; [|split; [|exact Hfin']].
        -- rewrite Hids', H2i, Hids, <- app_assoc. reflexivity.
        -- rewrite Hp', H2p, Hp, length_app, repeat_app, <- app_assoc.
           reflexivity.
      * exists pre, (post ++ skipn (k + size) (map id tweets)).
        rewrite Hrest, Hsplit, <- app_assoc.
        split; [reflexivity|]. split; [exact Hids|].
        split; [exact Hp | discriminate].
    + exists [], []. rewrite skipn_all2 by (rewrite length_map; lia).
      simpl. rewrite !app_nil_r. repeat split.
Qed.

End CliOutcomes.

(** X10.  In the command-line scheduler with a positive batch size, whatever
    the platform replies and at any point of a run: the items that have a
    terminal outcome are the first items of the list, each once and in
    order; the two counters add up to their number; every one of them was
    followed by the five-minute pause.  When the scheduler returns, they are
    all the items. *)
Theorem cli_each_item_once (w : World) (fuel : nat) (this : TweetDeleter)
    (tweets : list Tweet) (size : nat) :
  (0 < size)%nat ->
  tweetsPerBatch this = Z.of_nat size ->
  let run := Cli.deleteTweetsInBatches w fuel this tweets in
  exists pre post,
    map id tweets = pre ++ post
    /\ terminalIds (Cli.job_trace (fst run)) = pre
    /\ (Cli.deletedCount (fst run) + Cli.failedCount (fst run))%nat
       = List.length pre
    /\ pausesOf (Cli.job_trace (fst run)) = repeat 300000 (List.length pre)
    /\ (snd run = true -> post = []).
Proof.
  intros Hsize HB run. subst run. unfold Cli.deleteTweetsInBatches.
  pose proof (cli_counts w fuel this tweets) as [Hf Hd].
  unfold Cli.deleteTweetsInBatches in Hf, Hd.
  destruct (@cli_batches_outcomes w tweets size Hsize fuel 0
              {| Cli.job_this := this; Cli.deletedCount := 0;
                 Cli.failedCount := 0; Cli.job_calls := 0;
                 Cli.job_trace := [] |} HB)
    as (pre & post & Hsplit & Hids & Hp & Hfin).
  change (Z.of_nat 0) with 0 in *. cbn [skipn] in Hsplit.
  simpl in Hids, Hp.
  exists pre, post. split; [exact Hsplit|]. split; [exact Hids|].
  split; [|split; [exact Hp | exact Hfin]].
  rewrite Hf, Hd, <- Hids, terminal_count. lia.
Qed.

(** Five posts in batches of two, the first call throttled and the third
    post failing. *)
Lemma cli_each_item_once_witness :
  let w := {| endpoint := fun n => match n with
                                   | 0%nat => Sample.throttled None
                                   | 3%nat => Sample.notFound
                                   | _ => Resolved
                                   end;
              clock := fun _ => 0; writeFileOk := true;
              reinitialized := fun _ => false |} in
  let tweets := map Sample.tweet ["a"; "b"; "c"; "d"; "e"] in
  let run := Cli.deleteTweetsInBatches w 9 (newTweetDeleter (Some 2) None)
               tweets in
  snd run = true
  /\ attemptsOf (Cli.job_trace (fst run))
     = [("a", Throttled); ("a", Deleted 0); ("b", Deleted 0);
        ("c", Failed "Not Found"); ("d", Deleted 0); ("e", Deleted 0)]
  /\ exists pre post,
       map id tweets = pre ++ post
       /\ terminalIds (Cli.job_trace (fst run)) = pre
       /\ (Cli.deletedCount (fst run) + Cli.failedCount (fst run))%nat
          = List.length pre
       /\ pausesOf (Cli.job_trace (fst run))
          = repeat 300000 (List.length pre)
       /\ (snd run = true -> post = []).
Proof.
  intros w tweets run.
  split; [vm_compute; reflexivity|]. split; [vm_compute; reflexivity|].
  exact (@cli_each_item_once w 9 (newTweetDeleter (Some 2) None) tweets 2
           (Nat.lt_0_succ 1) eq_refl).
Defined.

(* ------------------------------------------------------------------ *)
(** The web job, as long as no call is throttled. *)

Section WebOutcomes.

Variable w : World.
Hypothesis calm : neverThrottles w.



Variable tweets : list Web.TweetRef.
Variable size : nat.
Hypothesis size_pos : (0 < size)%nat.


End WebOutcomes.




(* ------------------------------------------------------------------ *)
(** The wait after a throttling error, in timers. *)

(** X12.  After a throttling error that carries a reset time other than
    zero, one that [Date] can hold and that lies within 2^53 milliseconds of
    the clock reading, [sleep] awaits enough one-minute timers to reach the
    reset time in both schedulers, a timer lasting a minute at least; unless
    the reset time plus the buffer (one minute in the web job, five in the
    command-line tool) has passed already, enough of them to reach the reset
    time plus the buffer; and never one more than that takes: no smaller
    number of minutes covers the time to the reset plus the buffer. *)
Theorem wait_reaches_reset (e : ApiError) (now r : Z) :
  resetOf e = Some r ->
  withinDates r now ->
  let web := Z.of_nat (sleep (rateLimitWaitWeb e now)) in
  let cli := Z.of_nat (sleep (rateLimitWaitCli e now)) in
  r * 1000 <= now + 60000 * web
  /\ r * 1000 <= now + 60000 * cli
  /\ (now < r * 1000 + 60000 -> r * 1000 + 60000 <= now + 60000 * web)
  /\ (now < r * 1000 + 5 * 60000 ->
      r * 1000 + 5 * 60000 <= now + 60000 * cli)
  /\ (forall n : nat,
        r * 1000 + 60000 <= now + 60000 * Z.of_nat n -> web <= Z.of_nat n)
  /\ (forall n : nat,
        r * 1000 + 5 * 60000 <= now + 60000 * Z.of_nat n ->
        cli <= Z.of_nat n).
Proof.
  intros Hr _ web cli. subst web cli.
  unfold rateLimitWaitWeb, rateLimitWaitCli. rewrite Hr.
  rewrite !JSFacts.sleep_minutes.
  pose proof (minutesUntilReset_ceil r now) as Hceil.
  unfold isCeilMinutes in Hceil.
  set (m := minutesUntilReset r now) in *.
  assert (Hweb : Z.of_nat (Z.to_nat (m + 1)) = Z.max 0 (m + 1)) by lia.
  assert (Hcli : Z.of_nat (Z.to_nat (m + 5)) = Z.max 0 (m + 5)) by lia.
  rewrite Hweb, Hcli. clearbody m.
  split; [lia|]. split; [lia|]. split; [lia|]. split; [lia|].
  split; intros n Hn; lia.
Qed.

(** The quota is restored 90 seconds after the error: the web job awaits
    three timers, the command-line tool seven. *)
Lemma wait_reaches_reset_witness :
  let e := {| code := 429; message := "Too Many Requests";
              rateLimit := Some {| reset := Some 1700000090 |} |} in
  let now := 1700000000000 in
  let r := 1700000090 in
  sleep (rateLimitWaitWeb e now) = 3%nat
  /\ sleep (rateLimitWaitCli e now) = 7%nat
  /\ let web := Z.of_nat (sleep (rateLimitWaitWeb e now)) in
     let cli := Z.of_nat (sleep (rateLimitWaitCli e now)) in
     r * 1000 <= now + 60000 * web
     /\ r * 1000 <= now + 60000 * cli
     /\ (now < r * 1000 + 60000 -> r * 1000 + 60000 <= now + 60000 * web)
     /\ (now < r * 1000 + 5 * 60000 ->
         r * 1000 + 5 * 60000 <= now + 60000 * cli)
     /\ (forall n : nat,
           r * 1000 + 60000 <= now + 60000 * Z.of_nat n -> web <= Z.of_nat n)
     /\ (forall n : nat,
           r * 1000 + 5 * 60000 <= now + 60000 * Z.of_nat n ->
           cli <= Z.of_nat n).
Proof.
  intros e now r.
  split; [vm_compute; reflexivity|]. split; [vm_compute; reflexivity|].
  assert (Hdates : withinDates r now) by (split; vm_compute; discriminate).
  exact (@wait_reaches_reset e now r eq_refl Hdates).
Defined.

(* ------------------------------------------------------------------ *)
(** A negative batch size. *)

Lemma savedLog_app (a b : list Event) :
  savedLog (a ++ b)
  = match savedLog b with Some l => Some l | None => savedLog a end.
Proof.
  induction a as [|e a IH]; simpl; [now destruct (savedLog b)|].
  destruct e; simpl; rewrite ?IH; try reflexivity.
  destruct (savedLog b); [reflexivity|]. now destruct (savedLog a).
Qed.

Lemma cli_item_batch_size (w : World) (tweet : Tweet) (j : Z)
    (st : Cli.Job) :
  tweetsPerBatch (Cli.job_this (fst (Cli.item w tweet j st)))
  = tweetsPerBatch (Cli.job_this st).
Proof. unfold Cli.item. item_cases; reflexivity. Qed.

Lemma cli_batches_negative (w : World) (tweets : list Tweet) (fuel : nat) :
  forall (i : Z) (st : Cli.Job),
    i <= 0 -> tweets <> [] -> tweetsPerBatch (Cli.job_this st) < 0 ->
    snd (Cli.batches w tweets fuel i st) = false.
Proof.
  induction fuel as [|fuel IH]; intros i st Hi Hne HB; [reflexivity|].
  cbn [Cli.batches].
  destruct (Z.ltb_spec i (Z.of_nat (List.length tweets))) as [_ | Hge].
  2:{ destruct tweets; [congruence | cbn [List.length] in Hge; lia]. }
  set (batch := JS.slice tweets i (i + tweetsPerBatch (Cli.job_this st))).
  pose proof (@cli_items_inv w
                (fun s => tweetsPerBatch (Cli.job_this s)
                          = tweetsPerBatch (Cli.job_this st))
                (fun tweet j s H =>
                   eq_trans (cli_item_batch_size w tweet j s) H)
                fuel batch 0 (Cli.emit st [EvBatch (map id batch)])
                ltac:(lia) eq_refl) as H1.
  destruct (Cli.items w fuel batch 0 _) as [st1 fin].
  cbn [fst] in H1. destruct fin; [|reflexivity].
  apply IH; [|exact Hne|].
  - destruct (i + tweetsPerBatch (Cli.job_this st1) <? _); simpl; lia.
  - destruct (i + tweetsPerBatch (Cli.job_this st1) <? _); simpl; lia.
Qed.

(** X13.  With a negative batch size (a negative TWEETS_PER_BATCH), whatever
    the platform replies, [deleteTweetsInBatches] over a non-empty list never
    returns, so that the end of [main] never saves the log. *)
Theorem cli_negative_batch_never_returns (w : World) (fuel : nat)
    (this : TweetDeleter) (tweets : list Tweet) :
  tweetsPerBatch this < 0 -> tweets <> [] ->
  snd (Cli.deleteTweetsInBatches w fuel this tweets) = false
  /\ Cli.deleteAndSave w fuel this tweets = None.
Proof.
  intros HB Hne.
  assert (H : snd (Cli.deleteTweetsInBatches w fuel this tweets) = false).
  { unfold Cli.deleteTweetsInBatches.
    apply cli_batches_negative; [lia | exact Hne | exact HB]. }
  split; [exact H|]. unfold Cli.deleteAndSave.
  destruct (Cli.deleteTweetsInBatches w fuel this tweets) as [st fin].
  simpl in H. subst fin. reflexivity.
Qed.

(** Three posts with TWEETS_PER_BATCH=-2: the first batch is
    [tweets.slice(0, -2)], the later ones are empty, and the loop goes on. *)
Lemma cli_negative_batch_never_returns_witness :
  let this := newTweetDeleter (Some (-2)) None in
  let tweets := map Sample.tweet ["a"; "b"; "c"] in
  batchesOf (Cli.job_trace
               (fst (Cli.deleteTweetsInBatches Sample.calm 4 this tweets)))
  = [["a"]; []; []; []]
  /\ snd (Cli.deleteTweetsInBatches Sample.calm 4 this tweets) = false
  /\ Cli.deleteAndSave Sample.calm 4 this tweets = None.
Proof.
  intros this tweets. split; [vm_compute; reflexivity|].
  exact (@cli_negative_batch_never_returns Sample.calm 4 this tweets
           eq_refl (fun e => @nil_cons _ _ _ (eq_sym e))).
Defined.

Lemma web_batches_negative (w : World) (tweets : list Web.TweetRef)
    (fuel : nat) :
  forall st : Web.Job,
    Web.job_i st <= 0 -> tweets <> [] ->
    tweetsPerBatch (Web.job_deleter st) < 0 ->
    snd (Web.batches w tweets fuel st) = false.
Proof.
  induction fuel as [|fuel IH]; intros st Hi Hne HB; [reflexivity|].
  cbn [Web.batches].
  destruct (Z.ltb_spec (Web.job_i st) (Z.of_nat (List.length tweets)))
    as [_ | Hge].
  2:{ destruct tweets; [congruence | cbn [List.length] in Hge; lia]. }
  set (batch := JS.slice tweets _ _).
  set (st0 := Web.emit st [EvBatch (map Web.ref_id batch)]).
  pose proof (web_forOf_effect w batch st0) as (HB1 & _ & _ & _ & _ & Hi1 & _).
  cbv zeta in HB1, Hi1. set (st1 := Web.forOf w batch st0) in *.
  change (Web.job_i st0) with (Web.job_i st) in Hi1.
  change (Web.job_deleter st0) with (Web.job_deleter st) in HB1.
  apply IH; [|exact Hne|].
  - destruct (Web.job_i st1 + tweetsPerBatch (Web.job_deleter st1) <? _);
      simpl; lia.
  - destruct (Web.job_i st1 + tweetsPerBatch (Web.job_deleter st1) <? _);
      simpl; lia.
Qed.

Lemma web_job_never_saves (w : World) (tweets : list Web.TweetRef)
    (fuel : nat) (st : Web.Job) :
  savedLog (Web.job_trace st) = None ->
  savedLog (Web.job_trace (fst (Web.batches w tweets fuel st))) = None.
Proof.
  apply (@web_batches_inv w
           (fun s => savedLog (Web.job_trace s) = None)).
  - intros tweet s H. unfold Web.item.
    item_cases; simpl; rewrite savedLog_app; simpl; exact H.
  - intros s e He H. simpl. rewrite savedLog_app.
    destruct e as [| | [] | | |]; try contradiction; simpl; exact H.
  - intros s i H. exact H.
Qed.

(** X14.  When the deleter of the server has a negative batch size, a run
    accepted by [POST /api/delete-tweets] is never over, whatever the
    platform replies: after any number of iterations the log has not been
    saved, the flag is still up, and a request to start another run is
    answered 'Deletion already in progress'. *)
Theorem web_negative_batch_never_over (w : World) (fuel : nat)
    (ids ids' : list string) (s s1 : Web.Server) (resp : Web.Response)
    (d : TweetDeleter) :
  Web.deleter s = Some d ->
  tweetsPerBatch d < 0 ->
  Web.postDeleteTweets (Some ids) s = (resp, s1, Some ids') ->
  let run := Web.processDeletion w fuel ids' s1 in
  Web.status run = Web.Running
  /\ savedLog (Web.trace run) = None
  /\ Web.deletionInProgress (Web.server run) = true
  /\ forall body,
       Web.postDeleteTweets body (Web.server run)
       = (Web.AlreadyInProgress, Web.server run, None).
Proof.
  intros Hd HB Hpost run.
  assert (Hne : ids <> []).
  { intros ->. unfold Web.postDeleteTweets in Hpost. rewrite Hd in Hpost.
    destruct (Web.deletionInProgress s); discriminate. }
  apply postDeleteTweets_started in Hpost.
  destruct Hpost as (-> & _ & Hd1 & _ & _ & Hflag & _).
  rewrite Hd in Hd1. subst run. unfold Web.processDeletion. rewrite Hd1.
  set (st0 := {| Web.job_deleter := d; Web.job_stats := Web.deletionStats s1;
                 Web.job_i := 0; Web.job_calls := 0; Web.job_trace := [] |}).
  assert (Hne' : map Web.mkTweetRef ids <> [])
    by (destruct ids; [congruence | discriminate]).
  pose proof (@web_batches_negative w (map Web.mkTweetRef ids) fuel st0
                (Z.le_refl 0) Hne' HB) as Hrun.
  pose proof (@web_job_never_saves w (map Web.mkTweetRef ids) fuel st0
                eq_refl) as Hlog.
  destruct (Web.batches w (map Web.mkTweetRef ids) fuel st0) as [st fin].
  cbn [fst snd] in *. subst fin. cbn [Web.status Web.trace Web.server].
  split; [reflexivity|]. split; [exact Hlog|]. split; [exact Hflag|].
  intros body. unfold Web.postDeleteTweets.
  cbn [Web.deleter Web.deletionInProgress]. rewrite Hflag. reflexivity.
Qed.

(** Three ids with TWEETS_PER_BATCH=-2. *)
Lemma web_negative_batch_never_over_witness :
  let ids := ["a"; "b"; "c"] in
  let s := Sample.ready (-2) in
  let s1 := snd (fst (Web.postDeleteTweets (Some ids) s)) in
  let run := Web.processDeletion Sample.calm 4 ids s1 in
  batchesOf (Web.trace run) = [["a"]; []; []; []]
  /\ Web.status run = Web.Running
  /\ savedLog (Web.trace run) = None
  /\ Web.deletionInProgress (Web.server run) = true
  /\ forall body,
       Web.postDeleteTweets body (Web.server run)
       = (Web.AlreadyInProgress, Web.server run, None).
Proof.
  intros ids s s1 run. split; [vm_compute; reflexivity|].
  assert (Hpost : Web.postDeleteTweets (Some ids) s
                  = (Web.DeletionStarted 3, s1, Some ids))
    by (vm_compute; reflexivity).
  exact (@web_negative_batch_never_over Sample.calm 4 ids ids s s1
           (Web.DeletionStarted 3) (newTweetDeleter (Some (-2)) None)
           eq_refl eq_refl Hpost).
Defined.

(* ================================================================== *)
(** ** The routes of the server together *)

Lemma postDeleteTweets_keeps_deleter (body : option (list string))
    (s : Web.Server) :
  Web.deleter (snd (fst (Web.postDeleteTweets body s))) = Web.deleter s.
Proof.
  unfold Web.postDeleteTweets.
  destruct (Web.deleter s) eqn:Hd; [|exact Hd].
  destruct (Web.deletionInProgress s); [exact Hd|].
  destruct body as [[|x ids]|]; simpl; congruence.
Qed.

(** X15.  [initializeDeleter] assigns the global before it validates the
    credentials: when the validation fails, [POST /api/initialize] answers
    [success: false], and yet [GET /api/status] reports the server as
    initialised from then on, [GET /api/tweets] no longer answers 'Not
    initialized', and on an idle server a non-empty list of ids is accepted
    for deletion. *)
Theorem failed_initialize_leaves_deleter
    (envTweetsPerBatch envBatchDelay : option Z) (e : ApiError)
    (s : Web.Server) :
  let result :=
    Routes.postInitialize envTweetsPerBatch envBatchDelay (Throw e) s in
  let s' := snd result in
  Routes.init_success (fst result) = false
  /\ Routes.initialized (Routes.getStatus s') = true
  /\ (forall api, Routes.getTweets api s' <> Routes.TweetsNotInitialized)
  /\ (Web.deletionInProgress s = false ->
      forall x ids,
        exists s1,
          Web.postDeleteTweets (Some (x :: ids)) s'
          = (Web.DeletionStarted (S (List.length ids)), s1, Some (x :: ids))).
Proof.
  cbv zeta. unfold Routes.postInitialize, Web.initializeDeleter.
  cbn [validateCredentials fst snd Routes.init_success].
  repeat split.
  - unfold Routes.getTweets. simpl. discriminate.
  - intros Hidle x ids. unfold Web.postDeleteTweets.
    cbn [Web.deleter Web.deletionInProgress]. rewrite Hidle.
    eexists. reflexivity.
Qed.

(** What a completed run of the web job leaves in the deleter and in the
    file: always the last records of what the log held followed by the
    deletions of the run, and all of them when the deleter was not replaced
    on the way. *)
Lemma skipn_length_app (A : Type) (l r : list A) :
  skipn (List.length l) (l ++ r) = r.
Proof. induction l as [|x l IH]; [reflexivity | exact IH]. Qed.

Lemma skipn_app_le (A : Type) (k : nat) (l r : list A) :
  (k <= List.length l)%nat -> skipn k (l ++ r) = skipn k l ++ r.
Proof.
  intros Hk. rewrite skipn_app.
  replace (k - List.length l)%nat with O by lia. reflexivity.
Qed.

Lemma web_suffix_item (w : World) (base : list (string * Z))
    (tweet : Web.TweetRef) (st : Web.Job) :
  webSuffixInv base st -> webSuffixInv base (Web.item w tweet st).
Proof.
  unfold webSuffixInv, Web.item. intros (k & Hk & H).
  set (all := base ++ deletionsOf (Web.job_trace st)) in *.
  destruct (reinitialized w (Web.job_calls st)).
  - exists (List.length all).
    item_cases; cbn [Web.job_deleter Web.job_trace reloaded pushLog
                     deletedTweets];
      rewrite deletionsOf_app; cbn [deletionsOf]; rewrite ?app_nil_r;
      fold all.
    + rewrite app_assoc. fold all. rewrite skipn_length_app, length_app.
      split; [lia | reflexivity].
    + rewrite skipn_all. split; [lia | reflexivity].
    + rewrite skipn_all. split; [lia | reflexivity].
    + rewrite skipn_all. split; [lia | reflexivity].
  - exists k.
    item_cases; cbn [Web.job_deleter Web.job_trace reloaded pushLog
                     deletedTweets];
      rewrite deletionsOf_app; cbn [deletionsOf]; rewrite ?app_nil_r;
      fold all; try (split; assumption).
    rewrite app_assoc. fold all.
    rewrite logKeys_app, H, skipn_app_le, length_app by exact Hk.
    split; [lia | reflexivity].
Qed.

Lemma web_suffix (w : World) (fuel : nat) (d : TweetDeleter) (stats0 : Stats)
    (tweets : list Web.TweetRef) :
  webSuffixInv (logKeys (deletedTweets d))
    (fst (Web.batches w tweets fuel
            {| Web.job_deleter := d; Web.job_stats := stats0;
               Web.job_i := 0; Web.job_calls := 0; Web.job_trace := [] |})).
Proof.
  apply (@web_batches_inv w (webSuffixInv (logKeys (deletedTweets d)))).
  - intros. now apply web_suffix_item.
  - unfold webSuffixInv. intros st e He H. simpl.
    rewrite deletionsOf_app.
    destruct e as [| | [] | | |]; try contradiction; simpl;
      now rewrite app_nil_r.
  - unfold webSuffixInv. intros st i H. exact H.
  - unfold webSuffixInv. exists O. simpl. rewrite app_nil_r.
    split; [lia | reflexivity].
Qed.

Lemma web_run_log (w : World) (fuel : nat) (ids : list string)
    (s : Web.Server) (d : TweetDeleter) :
  Web.deleter s = Some d ->
  let run := Web.processDeletion w fuel ids s in
  Web.status run = Web.Completed ->
  exists d',
    Web.deleter (Web.server run) = Some d'
    /\ savedLog (Web.trace run) = Some (deletedTweets d')
    /\ (exists k,
          logKeys (deletedTweets d')
          = skipn k (logKeys (deletedTweets d)
                     ++ deletionsOf (Web.trace run)))
    /\ (neverReinitialized w ->
        logKeys (deletedTweets d')
        = logKeys (deletedTweets d) ++ deletionsOf (Web.trace run)).
Proof.
  intros Hd. cbv zeta. unfold Web.processDeletion. rewrite Hd.
  pose proof (fun Hw : neverReinitialized w =>
                web_log fuel d (Web.deletionStats s)
                  (map Web.mkTweetRef ids) Hw) as Hlog.
  pose proof (web_suffix w fuel d (Web.deletionStats s)
                (map Web.mkTweetRef ids)) as (k & Hk & Hsuffix).
  destruct (Web.batches w (map Web.mkTweetRef ids) fuel _) as [st fin].
  unfold webLogInv in Hlog. cbn [fst] in Hlog, Hk, Hsuffix.
  destruct fin; [destruct (writeFileOk w)|]; simpl; try discriminate.
  intros _. eexists. split; [reflexivity|]. split; [apply savedLog_last|].
  rewrite deletionsOf_app, app_nil_r. cbn [reloaded deletedTweets]. split.
  - destruct (reinitialized w (Web.job_calls st)).
    + exists (List.length (logKeys (deletedTweets d)
                           ++ deletionsOf (Web.job_trace st))).
      now rewrite skipn_all.
    + exists k. exact Hsuffix.
  - intros Hw. rewrite (Hw (Web.job_calls st)). exact (Hlog Hw).
Qed.

(** X16.  The deleter of the server outlives a run, and its log with it.
    As long as [POST /api/initialize] does not replace the deleter during
    either run, the file written at the end of the run that follows a
    completed run holds the deletions of both runs, after what the log held
    before.  A call of [POST /api/initialize] between the runs replaces the
    deleter, and the file written at the end of the next run then holds the
    deletions of that run only.  Whatever is replaced and when, the file
    written at the end of a run holds the last records of what the log held
    followed by the deletions of the run, in that order. *)
Theorem server_log_across_runs (w1 w2 : World) (fuel1 fuel2 : nat)
    (ids1 ids2 : list string) (s : Web.Server) (d : TweetDeleter) :
  Web.deleter s = Some d ->
  let run1 := Web.processDeletion w1 fuel1 ids1 s in
  Web.status run1 = Web.Completed ->
  (let s2 := snd (fst (Web.postDeleteTweets (Some ids2) (Web.server run1))) in
   let run2 := Web.processDeletion w2 fuel2 ids2 s2 in
   neverReinitialized w1 -> neverReinitialized w2 ->
   Web.status run2 = Web.Completed ->
   exists log,
     savedLog (Web.trace run2) = Some log
     /\ logKeys log
        = logKeys (deletedTweets d)
          ++ deletionsOf (Web.trace run1) ++ deletionsOf (Web.trace run2))
  /\ (forall envTweetsPerBatch envBatchDelay me,
        let s' := snd (Routes.postInitialize envTweetsPerBatch envBatchDelay
                         me (Web.server run1)) in
        let s2 := snd (fst (Web.postDeleteTweets (Some ids2) s')) in
        let run2 := Web.processDeletion w2 fuel2 ids2 s2 in
        neverReinitialized w2 ->
        Web.status run2 = Web.Completed ->
        exists log,
          savedLog (Web.trace run2) = Some log
          /\ logKeys log = deletionsOf (Web.trace run2))
  /\ (exists log k,
        savedLog (Web.trace run1) = Some log
        /\ logKeys log
           = skipn k (logKeys (deletedTweets d)
                      ++ deletionsOf (Web.trace run1))).
Proof.
  intros Hd run1 H1.
  destruct (web_run_log w1 fuel1 ids1 s Hd H1)
    as (d1 & Hd1 & Hsaved1 & (k1 & Hsuffix1) & Hlog1).
  fold run1 in Hd1, Hsaved1, Hsuffix1, Hlog1. split; [|split].
  - intros s2 run2 Hw1 Hw2 H2.
    assert (Hd2 : Web.deleter s2 = Some d1)
      by (unfold s2; now rewrite postDeleteTweets_keeps_deleter).
    destruct (web_run_log w2 fuel2 ids2 s2 Hd2 H2)
      as (d2 & _ & Hsaved & _ & Hlog2).
    exists (deletedTweets d2). split; [exact Hsaved|].
    fold run2 in Hlog2. now rewrite (Hlog2 Hw2), (Hlog1 Hw1), <- app_assoc.
  - intros e1 e2 me s' s2 run2 Hw2 H2.
    assert (Hd2 : Web.deleter s2 = Some (newTweetDeleter e1 e2))
      by (unfold s2; now rewrite postDeleteTweets_keeps_deleter).
    destruct (web_run_log w2 fuel2 ids2 s2 Hd2 H2)
      as (d2 & _ & Hsaved & _ & Hlog2).
    exists (deletedTweets d2). split; [exact Hsaved|].
    fold run2 in Hlog2. now rewrite (Hlog2 Hw2).
  - exists (deletedTweets d1), k1. split; [exact Hsaved1 | exact Hsuffix1].
Qed.

(** Two runs on the same server, with and without a new initialisation in
    between; in the first run the deleter is replaced while the job awaits
    its second call, after 'a' was deleted, and the file of that run holds
    'b' only. *)
Lemma server_log_across_runs_witness :
  let s := snd (fst (Web.postDeleteTweets (Some ["a"])
                       (Sample.ready 5))) in
  let run1 := Web.processDeletion Cases.flaky 2 ["a"] s in
  (let s2 := snd (fst (Web.postDeleteTweets (Some ["c"]) (Web.server run1))) in
   let run2 := Web.processDeletion Sample.calm 2 ["c"] s2 in
   Web.status run2 = Web.Completed
   /\ exists log,
        savedLog (Web.trace run2) = Some log
        /\ logKeys log = [] ++ [("a", 0)] ++ [("c", 0)])
  /\ (let s' := snd (Routes.postInitialize None None (Return "me")
                       (Web.server run1)) in
      let s2 := snd (fst (Web.postDeleteTweets (Some ["c"]) s')) in
      let run2 := Web.processDeletion Sample.calm 2 ["c"] s2 in
      Web.status run2 = Web.Completed
      /\ exists log,
           savedLog (Web.trace run2) = Some log
           /\ logKeys log = [("c", 0)])
  /\ (exists log k,
        savedLog (Web.trace run1) = Some log
        /\ logKeys log
           = skipn k (logKeys (deletedTweets (newTweetDeleter (Some 5) None))
                      ++ deletionsOf (Web.trace run1))).
Proof.
  intros s run1.
  assert (H1 : Web.status run1 = Web.Completed) by (vm_compute; reflexivity).
  pose proof (@server_log_across_runs Cases.flaky Sample.calm 2 2 ["a"] ["c"]
                s (newTweetDeleter (Some 5) None) eq_refl H1)
    as (Ha & Hb & Hc).
  split; [|split].
  - intros s2 run2.
    assert (H2 : Web.status run2 = Web.Completed) by (vm_compute; reflexivity).
    split; [exact H2|].
    exact (Ha (fun _ => eq_refl) (fun _ => eq_refl) H2).
  - intros s' s2 run2.
    assert (H2 : Web.status run2 = Web.Completed) by (vm_compute; reflexivity).
    split; [exact H2|].
    exact (Hb None None (Return "me") (fun _ => eq_refl) H2).
  - exact Hc.
Defined.

(** A run over 'a' and 'b' during which the deleter is replaced while the
    job awaits its second call: both posts are deleted, and the file holds
    'b' only. *)
Lemma replaced_deleter_loses_records :
  let s := snd (fst (Web.postDeleteTweets (Some ["a"; "b"])
                       (Sample.ready 5))) in
  let run := Web.processDeletion Cases.interrupted 2 ["a"; "b"] s in
  Web.status run = Web.Completed
  /\ deletionsOf (Web.trace run) = [("a", 0); ("b", 1)]
  /\ option_map logKeys (savedLog (Web.trace run)) = Some [("b", 1)].
Proof. repeat split; vm_compute; reflexivity. Qed.

(* ================================================================== *)
(** ** The command-line program *)

Lemma toLowerChar_y (c : Ascii.ascii) :
  String (Main.toLowerChar c) "" = "y" ->
  String c "" = "y" \/ String c "" = "Y".
Proof.
  destruct c as [[] [] [] [] [] [] [] []]; vm_compute; intros H;
    solve [discriminate H | left; reflexivity | right; reflexivity].
Qed.

Lemma toLowerChar_e (c : Ascii.ascii) :
  String (Main.toLowerChar c) "" = "e" ->
  String c "" = "e" \/ String c "" = "E".
Proof.
  destruct c as [[] [] [] [] [] [] [] []]; vm_compute; intros H;
    solve [discriminate H | left; reflexivity | right; reflexivity].
Qed.

Lemma toLowerChar_s (c : Ascii.ascii) :
  String (Main.toLowerChar c) "" = "s" ->
  String c "" = "s" \/ String c "" = "S".
Proof.
  destruct c as [[] [] [] [] [] [] [] []]; vm_compute; intros H;
    solve [discriminate H | left; reflexivity | right; reflexivity].
Qed.

(** X17.  [askConfirmation] resolves to true for exactly ten answers: 'y'
    and 'yes' in any mix of upper and lower case.  The empty line, a
    surrounding blank, or any other word declines. *)
Theorem askConfirmation_accepts (answer : string) :
  Main.askConfirmation answer = true
  <-> In answer ["y"; "Y"; "yes"; "yeS"; "yEs"; "yES";
                 "Yes"; "YeS"; "YEs"; "YES"].
Proof.
  unfold Main.askConfirmation. rewrite orb_true_iff, !String.eqb_eq. split.
  - intros [H | H].
    + destruct answer as [|c1 [|c2 rest]]; simpl in H; try discriminate H.
      destruct (toLowerChar_y _ H) as [-> | ->]; simpl; auto.
    + destruct answer as [|c1 [|c2 [|c3 [|c4 rest]]]]; simpl in H;
        try discriminate H.
      assert (H1 : String (Main.toLowerChar c1) "" = "y") by congruence.
      assert (H2 : String (Main.toLowerChar c2) "" = "e") by congruence.
      assert (H3 : String (Main.toLowerChar c3) "" = "s") by congruence.
      apply toLowerChar_y in H1. apply toLowerChar_e in H2.
      apply toLowerChar_s in H3.
      assert (Hc : forall a b : Ascii.ascii,
                 String a "" = String b "" -> a = b) by congruence.
      destruct H1 as [H1 | H1]; apply Hc in H1; subst c1;
        destruct H2 as [H2 | H2]; apply Hc in H2; subst c2;
        destruct H3 as [H3 | H3]; apply Hc in H3; subst c3; simpl; tauto.
  - intros H. simpl in H.
    repeat (destruct H as [<- | H]; [vm_compute; auto|]).
    contradiction.
Qed.

Lemma fetchUserTweets_shape (envTweetsPerBatch envBatchDelay : option Z)
    (api : Cli.Timeline) (maxResults : Z) :
  let posts := Cli.fetchUserTweets
                 (newTweetDeleter envTweetsPerBatch envBatchDelay) api
                 maxResults in
  posts = [] \/ exists all, posts = firstn 15 (filter Cli.isOriginal all).
Proof.
  cbv zeta. unfold Cli.fetchUserTweets.
  destruct (Cli.me api) as [user|]; [|now left].
  destruct (Cli.userTimeline api user (Z.min maxResults 10)) as [data|];
    [|now left].
  right. exists (match data with Some l => l | None => [] end).
  change (maxDeletionsPerDay (newTweetDeleter envTweetsPerBatch
                                envBatchDelay)) with (Z.of_nat 15).
  apply slice_prefix.
Qed.

Lemma fetchUserTweets_length (envTweetsPerBatch envBatchDelay : option Z)
    (api : Cli.Timeline) (maxResults : Z) :
  (List.length (Cli.fetchUserTweets
                  (newTweetDeleter envTweetsPerBatch envBatchDelay) api
                  maxResults) <= 15)%nat.
Proof.
  destruct (fetchUserTweets_shape envTweetsPerBatch envBatchDelay api
              maxResults) as [-> | [all ->]]; [simpl; lia|].
  rewrite length_firstn. lia.
Qed.

(** X18.  [main] with a positive batch size, whatever the platform replies
    and at any point of the run: the posts that have a terminal outcome are
    the first posts of the listing returned by [fetchUserTweets], each once
    and in order, and at most fifteen of them; no deletion is attempted
    unless the credentials were validated and the answer at the prompt was
    accepted; and when the summary is printed every listed post has its
    outcome, the two numbers of the summary add up to the length of the
    listing, and the file holds the deletions of the run. *)
Theorem main_deletes_confirmed_listing
    (envTweetsPerBatch envBatchDelay : option Z) (login : Completion string)
    (api : Cli.Timeline) (answer : string) (w : World) (fuel : nat)
    (size : nat) :
  (0 < size)%nat ->
  tweetsPerBatch (newTweetDeleter envTweetsPerBatch envBatchDelay)
  = Z.of_nat size ->
  let out := Main.main envTweetsPerBatch envBatchDelay login api answer w
               fuel in
  let listing := Cli.fetchUserTweets
                   (newTweetDeleter envTweetsPerBatch envBatchDelay) api
                   100 in
  exists pre post,
    map id listing = pre ++ post
    /\ terminalIds (Main.events out) = pre
    /\ (List.length pre <= 15)%nat
    /\ (attemptsOf (Main.events out) <> [] ->
        validateCredentials login = true
        /\ Main.askConfirmation answer = true)
    /\ (forall d f,
          Main.exit out = Main.Summary d f ->
          post = []
          /\ (d + f)%nat = List.length listing
          /\ exists log,
               savedLog (Main.events out) = Some log
               /\ logKeys log = deletionsOf (Main.events out)).
Proof.
  intros Hsize HB out listing.
  assert (Hquiet : forall e,
            e <> Main.Running -> (forall d f, e <> Main.Summary d f) ->
            e <> Main.Rejected ->
            out = {| Main.exit := e; Main.events := [] |} ->
            exists pre post,
              map id listing = pre ++ post
              /\ terminalIds (Main.events out) = pre
              /\ (List.length pre <= 15)%nat
              /\ (attemptsOf (Main.events out) <> [] ->
                  validateCredentials login = true
                  /\ Main.askConfirmation answer = true)
              /\ (forall d f,
                    Main.exit out = Main.Summary d f ->
                    post = []
                    /\ (d + f)%nat = List.length listing
                    /\ exists log,
                         savedLog (Main.events out) = Some log
                         /\ logKeys log = deletionsOf (Main.events out))).
  { intros e _ Hsum _ ->. exists [], (map id listing). simpl.
    split; [reflexivity|]. split; [reflexivity|]. split; [lia|].
    split; [congruence|]. intros d f H. now apply Hsum in H. }
  pose proof (fetchUserTweets_length envTweetsPerBatch envBatchDelay api 100)
    as Hlen. fold listing in Hlen.
  subst out. unfold Main.main in *. fold listing in Hquiet |- *.
  destruct (validateCredentials login) eqn:Hvalid; cbn [negb] in *;
    [|eapply Hquiet; try reflexivity; discriminate].
  destruct (List.length listing =? 0)%nat;
    [eapply Hquiet; try reflexivity; discriminate|].
  destruct (Main.askConfirmation answer) eqn:Hconfirm; cbn [negb] in *;
    [|eapply Hquiet; try reflexivity; discriminate].
  clear Hquiet.
  pose proof (cli_counts w fuel (newTweetDeleter envTweetsPerBatch
                                   envBatchDelay) listing) as [Hf Hd].
  pose proof (cli_log w fuel (newTweetDeleter envTweetsPerBatch
                                envBatchDelay) listing) as Hlog.
  unfold cliLogInv in Hlog.
  unfold Cli.deleteTweetsInBatches in *.
  destruct (@cli_batches_outcomes w listing size Hsize fuel 0
              {| Cli.job_this := newTweetDeleter envTweetsPerBatch
                                   envBatchDelay;
                 Cli.deletedCount := 0; Cli.failedCount := 0;
                 Cli.job_calls := 0; Cli.job_trace := [] |} HB)
    as (pre & post & Hsplit & Hids & Hp & Hfin).
  change (Z.of_nat 0) with 0 in *. cbn [skipn] in Hsplit.
  cbn [Cli.job_trace terminalIds terminalOutcomes attemptsOf filter map app]
    in Hids.
  destruct (Cli.batches w listing fuel 0 _) as [st fin].
  cbn [fst snd] in *.
  assert (Hpre : (List.length pre <= 15)%nat).
  { apply (f_equal (@List.length string)) in Hsplit.
    rewrite length_map, length_app in Hsplit. lia. }
  exists pre, post. split; [exact Hsplit|].
  destruct fin; [destruct (writeFileOk w)|]; cbn [Main.events Main.exit].
  - rewrite terminalIds_app, app_nil_r.
    split; [exact Hids|]. split; [exact Hpre|]. split; [auto|].
    intros d f H. inversion H; subst d f; clear H.
    specialize (Hfin eq_refl). subst post. rewrite app_nil_r in Hsplit.
    split; [reflexivity|]. split.
    + rewrite Hf, Hd, <- (length_map id listing), Hsplit, <- Hids,
        terminal_count. lia.
    + exists (deletedTweets (Cli.job_this st)).
      split; [apply savedLog_last|].
      rewrite deletionsOf_app, app_nil_r. exact Hlog.
  - split; [exact Hids|]. split; [exact Hpre|]. split; [auto|].
    discriminate.
  - split; [exact Hids|]. split; [exact Hpre|]. split; [auto|].
    discriminate.
Qed.

(** Twenty posts are listed, fifteen of them are offered for deletion, the
    user answers 'Yes', the first call is throttled and the third post
    cannot be deleted. *)
Lemma main_deletes_confirmed_listing_witness :
  let w := {| endpoint := fun n => match n with
                                   | 0%nat => Sample.throttled None
                                   | 3%nat => Sample.notFound
                                   | _ => Resolved
                                   end;
              clock := fun _ => 0; writeFileOk := true;
              reinitialized := fun _ => false |} in
  let out := Main.main None None (Return "me") Sample.timeline "Yes" w 20 in
  let listing := Cli.fetchUserTweets (newTweetDeleter None None)
                   Sample.timeline 100 in
  Main.exit out = Main.Summary 14 1
  /\ exists pre post,
       map id listing = pre ++ post
       /\ terminalIds (Main.events out) = pre
       /\ (List.length pre <= 15)%nat
       /\ (attemptsOf (Main.events out) <> [] ->
           validateCredentials (Return "me") = true
           /\ Main.askConfirmation "Yes" = true)
       /\ (forall d f,
             Main.exit out = Main.Summary d f ->
             post = []
             /\ (d + f)%nat = List.length listing
             /\ exists log,
                  savedLog (Main.events out) = Some log
                  /\ logKeys log = deletionsOf (Main.events out)).
Proof.
  intros w out listing. split; [vm_compute; reflexivity|].
  exact (@main_deletes_confirmed_listing None None (Return "me")
           Sample.timeline "Yes" w 20 5 (Nat.lt_0_succ 4) eq_refl).
Defined.

(* ================================================================== *)
(** ** The page *)

Lemma has_spec (s : list string) (x : string) :
  Page.has s x = true <-> In x s.
Proof.
  unfold Page.has. rewrite existsb_exists. split.
  - intros (y & Hy & Heq). apply String.eqb_eq in Heq. now subst.
  - intros H. exists x. split; [exact H | apply String.eqb_refl].
Qed.

Lemma add_inv (l : list string) (s : list string) (x : string) :
  NoDup s -> incl s l -> In x l ->
  NoDup (Page.add s x) /\ incl (Page.add s x) l.
Proof.
  intros Hnd Hincl Hx. unfold Page.add.
  destruct (Page.has s x) eqn:Hhas; [auto|].
  assert (Hnot : ~ In x s).
  { intros H. apply has_spec in H. congruence. }
  split.
  - apply NoDup_app; [exact Hnd | repeat constructor; auto |].
    intros y Hy [<- | []]. contradiction.
  - apply incl_app; [exact Hincl|]. intros y [<- | []]. exact Hx.
Qed.

Lemma delete_inv (l : list string) (s : list string) (x : string) :
  NoDup s -> incl s l ->
  NoDup (Page.delete s x) /\ incl (Page.delete s x) l.
Proof.
  intros Hnd Hincl. unfold Page.delete. split.
  - now apply NoDup_filter.
  - intros y Hy. apply filter_In in Hy. apply Hincl. tauto.
Qed.

Lemma fold_add_inv (A : Type) (l : list string) (pick : A -> option string)
    (items : list A) : forall s : list string,
  (forall a x, In a items -> pick a = Some x -> In x l) ->
  NoDup s -> incl s l ->
  let s' := fold_left (fun sel a => match pick a with
                                    | Some x => Page.add sel x
                                    | None => sel
                                    end) items s in
  NoDup s' /\ incl s' l.
Proof.
  induction items as [|a items IH]; intros s Hpick Hnd Hincl; [now split|].
  cbn [fold_left]. apply IH.
  - intros b x Hb. apply Hpick. now right.
  - destruct (pick a) as [x|] eqn:Ha; [|exact Hnd].
    apply (@add_inv l s x Hnd Hincl). eapply Hpick; [now left | exact Ha].
  - destruct (pick a) as [x|] eqn:Ha; [|exact Hincl].
    apply (@add_inv l s x Hnd Hincl). eapply Hpick; [now left | exact Ha].
Qed.

Lemma step_inv (dateOf : string -> option Z) (listing : list Tweet)
    (st : Page.State) (a : Page.Action) :
  pageInv listing st -> pageInv listing (Page.step dateOf st a).
Proof.
  intros (Hnd & Hsel & Hsub & Hlen).
  destruct a as [k | | | oneYearAgo | inProgress]; cbn [Page.step].
  - destruct (nth_error (Page.tweets st) k) as [tweet|] eqn:Hk;
      [|repeat split; assumption].
    unfold Page.toggleTweet, pageInv. cbn [Page.tweets Page.selectedTweets].
    assert (Hin : In (id tweet) (map id (Page.tweets st)))
      by (apply in_map; eapply nth_error_In; exact Hk).
    destruct (Page.has (Page.selectedTweets st) (id tweet)).
    + destruct (@delete_inv _ _ (id tweet) Hnd Hsel).
      repeat split; assumption.
    + destruct (@add_inv _ _ (id tweet) Hnd Hsel Hin).
      repeat split; assumption.
  - unfold Page.selectAll, pageInv, Page.ofArray.
    cbn [Page.tweets Page.selectedTweets].
    destruct (@fold_add_inv string (map id (Page.tweets st))
                (fun x => Some x) (map id (Page.tweets st)) [])
      as [H1 H2].
    + intros a x Ha Hx. congruence.
    + constructor.
    + intros x [].
    + cbv zeta in H1, H2. repeat split; assumption.
  - unfold Page.selectNone, pageInv. cbn [Page.tweets Page.selectedTweets].
    repeat split; try assumption; [constructor | intros x []].
  - unfold Page.selectOld, pageInv. cbn [Page.tweets Page.selectedTweets].
    destruct (@fold_add_inv Tweet (map id (Page.tweets st))
                (fun tweet => match dateOf (created_at tweet) with
                              | Some tweetDate =>
                                  if tweetDate <? oneYearAgo
                                  then Some (id tweet) else None
                              | None => None
                              end) (Page.tweets st) [])
      as [H1 H2].
    + intros tweet x Ht Hx.
      destruct (dateOf (created_at tweet)) as [tweetDate|]; [|discriminate].
      destruct (tweetDate <? oneYearAgo); [|discriminate].
      inversion Hx; subst. now apply in_map.
    + constructor.
    + intros x [].
    + cbv zeta in H1, H2.
      assert (Heq : forall (items : list Tweet) (s : list string),
                fold_left
                  (fun sel tweet =>
                     match dateOf (created_at tweet) with
                     | Some tweetDate =>
                         if tweetDate <? oneYearAgo
                         then Page.add sel (id tweet) else sel
                     | None => sel
                     end) items s
                = fold_left
                    (fun sel tweet =>
                       match
                         match dateOf (created_at tweet) with
                         | Some tweetDate =>
                             if tweetDate <? oneYearAgo
                             then Some (id tweet) else None
                         | None => None
                         end
                       with
                       | Some x => Page.add sel x
                       | None => sel
                       end) items s).
      { induction items as [|tweet items IH]; intros s; [reflexivity|].
        cbn [fold_left]. rewrite IH. f_equal.
        destruct (dateOf (created_at tweet)) as [tweetDate|]; [|reflexivity].
        now destruct (tweetDate <? oneYearAgo). }
      rewrite Heq. repeat split; assumption.
  - unfold Page.pollDeletionProgress.
    destruct inProgress; [repeat split; assumption|].
    unfold pageInv. cbn [Page.tweets Page.selectedTweets].
    split; [constructor|]. split; [intros x []|]. split.
    + intros t Ht. apply filter_In in Ht. apply Hsub. tauto.
    + etransitivity; [apply filter_length_le | exact Hlen].
Qed.

Lemma run_inv (dateOf : string -> option Z) (listing : list Tweet)
    (acts : list Page.Action) : forall st : Page.State,
  pageInv listing st -> pageInv listing (Page.run dateOf acts st).
Proof.
  induction acts as [|a acts IH]; intros st Hinv; [exact Hinv|].
  apply IH. now apply step_inv.
Qed.

Lemma loaded_inv (listing : list Tweet) (count : nat) :
  pageInv listing
    (Page.loadTweets (Routes.TweetsListed listing count) Page.initial).
Proof.
  unfold pageInv. simpl. repeat split;
    [constructor | intros x [] | apply incl_refl | lia].
Qed.

Lemma request_inv (listing : list Tweet) (st : Page.State)
    (confirmed : bool) (ids : list string) :
  pageInv listing st ->
  Page.deleteSelected confirmed st = Some ids ->
  confirmed = true
  /\ ids <> []
  /\ NoDup ids
  /\ incl ids (map id listing)
  /\ (List.length ids <= List.length listing)%nat.
Proof.
  intros (Hnd & Hsel & Hsub & Hlen). unfold Page.deleteSelected.
  destruct (Nat.eqb_spec (List.length (Page.selectedTweets st)) 0)
    as [|Hne]; [discriminate|].
  destruct confirmed; [|discriminate].
  intros H. inversion H; subst ids; clear H.
  split; [reflexivity|]. split; [now destruct (Page.selectedTweets st)|].
  split; [exact Hnd|]. split.
  - intros x Hx. apply Hsel in Hx. apply in_map_iff in Hx.
    destruct Hx as (t & <- & Ht). apply in_map. now apply Hsub.
  - apply (NoDup_incl_length Hnd) in Hsel. rewrite length_map in Hsel. lia.
Qed.

(** X19.  Whatever is clicked on the page after the posts were loaded, and
    however many runs were polled to their end in between, the request sent
    by [deleteSelected] was confirmed, is not empty, names no id twice and
    names only ids of the posts that were loaded, so that it is no longer
    than the listing. *)
Theorem page_request_within_listing (dateOf : string -> option Z)
    (listing : list Tweet) (count : nat) (acts : list Page.Action)
    (confirmed : bool) (ids : list string) :
  let page := Page.run dateOf acts
                (Page.loadTweets (Routes.TweetsListed listing count)
                   Page.initial) in
  Page.deleteSelected confirmed page = Some ids ->
  confirmed = true
  /\ ids <> []
  /\ NoDup ids
  /\ incl ids (map id listing)
  /\ (List.length ids <= List.length listing)%nat.
Proof.
  intros page. apply request_inv. apply run_inv, loaded_inv.
Qed.

(** All three posts are selected, then the second card is clicked twice:
    its id moves to the end of the selection. *)
Lemma page_request_within_listing_witness :
  let listing := map Sample.tweet ["a"; "b"; "c"] in
  let acts := [Page.ClickSelectAll; Page.ClickCard 1; Page.ClickCard 1] in
  let page := Page.run (fun _ => None) acts
                (Page.loadTweets (Routes.TweetsListed listing 3)
                   Page.initial) in
  Page.deleteSelected true page = Some ["a"; "c"; "b"]
  /\ true = true
  /\ ["a"; "c"; "b"] <> []
  /\ NoDup ["a"; "c"; "b"]
  /\ incl ["a"; "c"; "b"] (map id listing)
  /\ (List.length ["a"; "c"; "b"] <= List.length listing)%nat.
Proof.
  intros listing acts page.
  assert (H : Page.deleteSelected true page = Some ["a"; "c"; "b"])
    by (vm_compute; reflexivity).
  split; [exact H|].
  exact (@page_request_within_listing (fun _ => None) listing 3 acts true
           ["a"; "c"; "b"] H).
Defined.

(* ------------------------------------------------------------------ *)
(** The page and the server together. *)

(** Every deleter the server can hold has the daily limit of the
    constructor. *)
Lemma web_item_cap (w : World) (tweet : Web.TweetRef) (st : Web.Job) :
  maxDeletionsPerDay (Web.job_deleter st) = 15 ->
  maxDeletionsPerDay (Web.job_deleter (Web.item w tweet st)) = 15.
Proof.
  intros H. unfold Web.item.
  destruct (reinitialized w (Web.job_calls st)); item_cases; simpl;
    solve [reflexivity | exact H].
Qed.

Lemma reachable_cap (s : Web.Server) :
  reachable s ->
  forall d, Web.deleter s = Some d -> maxDeletionsPerDay d = 15.
Proof.
  induction 1 as [| s b d0 valid _ _ | s body _ IH | s w tweet st _ IH Hd _
                  | s w fuel ids _ IH]; intros d Hdel.
  - discriminate.
  - inversion Hdel; subst. reflexivity.
  - rewrite postDeleteTweets_keeps_deleter in Hdel. now apply IH.
  - inversion Hdel; subst. apply web_item_cap. now apply IH.
  - unfold Web.processDeletion in Hdel.
    destruct (Web.deleter s) as [d0|] eqn:Hd0; [|discriminate].
    pose proof (@web_batches_inv w
                  (fun st => maxDeletionsPerDay (Web.job_deleter st) = 15)
                  (fun tweet st H => web_item_cap w tweet st H)
                  (fun st e _ H => H) (fun st i H => H)
                  (map Web.mkTweetRef ids) fuel
                  {| Web.job_deleter := d0;
                     Web.job_stats := Web.deletionStats s;
                     Web.job_i := 0; Web.job_calls := 0;
                     Web.job_trace := [] |} (IH d0 eq_refl)) as Hcap.
    destruct (Web.batches w (map Web.mkTweetRef ids) fuel _) as [st fin].
    cbn [fst] in Hcap.
    destruct fin; [destruct (writeFileOk w)|]; simpl in Hdel;
      inversion Hdel; subst; try exact Hcap;
      simpl; destruct (reinitialized w (Web.job_calls st));
      solve [reflexivity | exact Hcap].
Qed.

Lemma getTweets_length (api : Cli.Timeline) (s : Web.Server)
    (listing : list Tweet) (count : nat) :
  reachable s ->
  Routes.getTweets api s = Routes.TweetsListed listing count ->
  count = List.length listing /\ (List.length listing <= 15)%nat.
Proof.
  intros Hr. unfold Routes.getTweets.
  destruct (Web.deleter s) as [d|] eqn:Hd; [|discriminate].
  intros H. inversion H; subst; clear H. split; [reflexivity|].
  pose proof (reachable_cap Hr Hd) as Hcap.
  unfold Cli.fetchUserTweets.
  destruct (Cli.me api) as [user|]; [|simpl; lia].
  destruct (Cli.userTimeline api user (Z.min 100 10)) as [data|];
    [|simpl; lia].
  rewrite Hcap. change 15 with (Z.of_nat 15).
  rewrite slice_prefix, length_firstn. lia.
Qed.

(** The counters of a run that starts from zero. *)
Lemma web_run_bounded (w : World) (fuel : nat) (ids : list string)
    (s1 : Web.Server) :
  Web.deletionStats s1
  = {| deleted := 0; failed := 0; total := List.length ids |} ->
  let run := Web.processDeletion w fuel ids s1 in
  Forall (withinTotal (List.length ids))
    (snapshotsOf (Web.trace run) ++ [Web.deletionStats (Web.server run)]).
Proof.
  intros Hstats run. subst run. unfold Web.processDeletion.
  destruct (Web.deleter s1) as [d|] eqn:Hd1.
  2:{ simpl. rewrite Hstats.
      constructor; [split; simpl; lia | constructor]. }
  set (st0 := {| Web.job_deleter := d; Web.job_stats := Web.deletionStats s1;
                 Web.job_i := 0; Web.job_calls := 0; Web.job_trace := [] |}).
  pose proof (@web_batches_bounded w (map Web.mkTweetRef ids) fuel st0)
    as Hloop.
  rewrite length_map in Hloop.
  assert (Hinv : webLoopInv (List.length ids) st0).
  { unfold webLoopInv, st0, processed. simpl. rewrite Hstats. simpl.
    destruct (Z.ltb_spec 0 (tweetsPerBatch d)); lia. }
  specialize (Hloop Hinv). cbv zeta in Hloop.
  destruct (Web.batches w (map Web.mkTweetRef ids) fuel st0) as [st fin].
  simpl in Hloop. destruct Hloop as (Hfin & news & Hnews & Hall).
  simpl in Hnews.
  assert (Hgoal : Forall (withinTotal (List.length ids))
                    (snapshotsOf (Web.job_trace st) ++ [Web.job_stats st])).
  { rewrite Hnews. apply Forall_app. split; [exact Hall|].
    constructor; [exact Hfin | constructor]. }
  destruct fin; [destruct (writeFileOk w)|]; simpl; try exact Hgoal.
  rewrite snapshotsOf_app. simpl. now rewrite app_nil_r.
Qed.

(** X20.  A run started from the page: the posts were loaded from
    [GET /api/tweets] on a server in a state it can reach, the request was
    built by [deleteSelected] after any clicks, and
    [POST /api/delete-tweets] accepted it.  Then [total] is at most 15, and
    every snapshot of the counters the job publishes, and the counters it
    leaves behind, are reported by [GET /api/deletion-progress] with the
    exact percentage, rounded to the nearest integer, a half going up. *)
Theorem page_runs_report_exact_percent (dateOf : string -> option Z)
    (api : Cli.Timeline) (s0 s s1 : Web.Server) (listing : list Tweet)
    (count : nat) (acts : list Page.Action) (confirmed : bool)
    (ids ids' : list string) (resp : Web.Response) (w : World)
    (fuel : nat) :
  reachable s0 ->
  Routes.getTweets api s0 = Routes.TweetsListed listing count ->
  let page := Page.run dateOf acts
                (Page.loadTweets (Routes.TweetsListed listing count)
                   Page.initial) in
  Page.deleteSelected confirmed page = Some ids ->
  Web.postDeleteTweets (Some ids) s = (resp, s1, Some ids') ->
  let run := Web.processDeletion w fuel ids' s1 in
  (total (Web.deletionStats s1) <= 15)%nat
  /\ Forall (fun st => Web.percent st = specPercent st)
       (snapshotsOf (Web.trace run))
  /\ Web.progress (Web.deletionProgress (Web.server run))
     = specPercent (Web.deletionStats (Web.server run)).
Proof.
  intros Hr Hget page Hreq Hpost run.
  destruct (getTweets_length api Hr Hget) as [_ Hlen].
  pose proof (@request_inv listing page confirmed ids
                (run_inv dateOf acts (loaded_inv listing count)) Hreq)
    as (_ & _ & _ & _ & Hids).
  apply postDeleteTweets_started in Hpost.
  destruct Hpost as (-> & _ & _ & _ & _ & _ & Hstats).
  pose proof (web_run_bounded w fuel ids s1 Hstats) as Hall.
  fold run in Hall. apply Forall_app in Hall. destruct Hall as [Hsnaps Hlast].
  assert (Hexact : forall st, withinTotal (List.length ids) st ->
                              Web.percent st = specPercent st).
  { intros [d f t] [Hc Ht]. simpl in Hc, Ht. apply percent_agrees; lia. }
  split; [rewrite Hstats; simpl; lia|]. split.
  - eapply Forall_impl; [exact Hexact | exact Hsnaps].
  - inversion Hlast; subst. unfold Web.deletionProgress. simpl.
    now apply Hexact.
Qed.

(** The fifteen posts of the listing are all selected and submitted; the
    job has gone through its first batch of five. *)
Lemma page_runs_report_exact_percent_witness :
  let s0 := Sample.ready 5 in
  let listing := Cli.fetchUserTweets (newTweetDeleter (Some 5) None)
                   Sample.timeline 100 in
  let page := Page.run (fun _ => None) [Page.ClickSelectAll]
                (Page.loadTweets (Routes.TweetsListed listing 15)
                   Page.initial) in
  let ids := map id listing in
  let s1 := snd (fst (Web.postDeleteTweets (Some ids) s0)) in
  let run := Web.processDeletion Cases.flaky 1 ids s1 in
  map Web.percent (snapshotsOf (Web.trace run)) = [7; 13; 20; 27; 33]
  /\ (total (Web.deletionStats s1) <= 15)%nat
  /\ Forall (fun st => Web.percent st = specPercent st)
       (snapshotsOf (Web.trace run))
  /\ Web.progress (Web.deletionProgress (Web.server run))
     = specPercent (Web.deletionStats (Web.server run)).
Proof.
  intros s0 listing page ids s1 run.
  split; [vm_compute; reflexivity|].
  assert (Hget : Routes.getTweets Sample.timeline s0
                 = Routes.TweetsListed listing 15)
    by (vm_compute; reflexivity).
  assert (Hreq : Page.deleteSelected true page = Some ids)
    by (vm_compute; reflexivity).
  assert (Hpost : Web.postDeleteTweets (Some ids) s0
                  = (Web.DeletionStarted 15, s1, Some ids))
    by (vm_compute; reflexivity).
  exact (@page_runs_report_exact_percent (fun _ => None) Sample.timeline
           s0 s0 s1 listing 15 [Page.ClickSelectAll] true ids ids
           (Web.DeletionStarted 15) Cases.flaky 1
           (reach_initialize (Some 5) None true reach_initial)
           Hget Hreq Hpost).
Defined.

(* ================================================================== *)
(** ** No call on an id that was not handed in *)

Lemma attemptedIds_app (a b : list Event) :
  attemptedIds (a ++ b) = attemptedIds a ++ attemptedIds b.
Proof. unfold attemptedIds. now rewrite attemptsOf_app, map_app. Qed.

Lemma slice_incl (A : Type) (l : list A) (start stop : Z) :
  incl (JS.slice l start stop) l.
Proof.
  unfold JS.slice. intros x Hx.
  set (k := Z.to_nat (JS.relIndex (Z.of_nat (List.length l)) start)) in *.
  set (n := Z.to_nat _) in Hx.
  rewrite <- (firstn_skipn k l). apply in_or_app. right.
  rewrite <- (firstn_skipn n (skipn k l)). apply in_or_app. now left.
Qed.

Lemma web_item_attempt (w : World) (tweet : Web.TweetRef) (st : Web.Job) :
  attemptedIds (Web.job_trace (Web.item w tweet st))
  = attemptedIds (Web.job_trace st) ++ [Web.ref_id tweet].
Proof.
  unfold Web.item. item_cases; simpl; now rewrite attemptedIds_app.
Qed.

Lemma web_forOf_attempts (w : World) (batch : list Web.TweetRef) :
  forall st : Web.Job,
    attemptedIds (Web.job_trace (Web.forOf w batch st))
    = attemptedIds (Web.job_trace st) ++ map Web.ref_id batch.
Proof.
  induction batch as [|tweet batch IH]; intros st; simpl;
    [now rewrite app_nil_r|].
  unfold Web.forOf in *. rewrite IH, web_item_attempt, <- app_assoc.
  reflexivity.
Qed.

Lemma web_batches_attempts (w : World) (tweets : list Web.TweetRef)
    (fuel : nat) : forall st : Web.Job,
  incl (attemptedIds (Web.job_trace st)) (map Web.ref_id tweets) ->
  incl (attemptedIds (Web.job_trace (fst (Web.batches w tweets fuel st))))
    (map Web.ref_id tweets).
Proof.
  induction fuel as [|fuel IH]; intros st Hst; [exact Hst|].
  cbn [Web.batches].
  destruct (Web.job_i st <? Z.of_nat (List.length tweets)); [|exact Hst].
  apply IH. cbn [Web.setI Web.job_trace].
  set (batch := JS.slice tweets _ _).
  assert (H1 : incl (attemptedIds
                       (Web.job_trace
                          (Web.forOf w batch
                             (Web.emit st [EvBatch (map Web.ref_id batch)]))))
                 (map Web.ref_id tweets)).
  { rewrite web_forOf_attempts. simpl.
    rewrite attemptedIds_app, app_nil_r.
    apply incl_app; [exact Hst|]. apply incl_map, slice_incl. }
  destruct (_ <? _); [|exact H1].
  simpl. rewrite attemptedIds_app, app_nil_r. exact H1.
Qed.

Lemma cli_item_attempt (w : World) (tweet : Tweet) (j : Z) (st : Cli.Job) :
  attemptedIds (Cli.job_trace (fst (Cli.item w tweet j st)))
  = attemptedIds (Cli.job_trace st) ++ [id tweet].
Proof.
  unfold Cli.item. item_cases; simpl; now rewrite attemptedIds_app.
Qed.

Lemma cli_items_attempts (w : World) (ids : list string)
    (batch : list Tweet) (fuel : nat) : forall (j : Z) (st : Cli.Job),
  incl (map id batch) ids ->
  incl (attemptedIds (Cli.job_trace st)) ids ->
  incl (attemptedIds (Cli.job_trace (fst (Cli.items w fuel batch j st))))
    ids.
Proof.
  induction fuel as [|fuel IH]; intros j st Hbatch Hst; [exact Hst|].
  cbn [Cli.items].
  destruct (j <? Z.of_nat (List.length batch)); [|exact Hst].
  destruct (if j <? 0 then None else nth_error batch (Z.to_nat j))
    as [tweet|] eqn:Hnth.
  - assert (Hin : In tweet batch).
    { destruct (j <? 0); [discriminate|]. eapply nth_error_In; exact Hnth. }
    pose proof (cli_item_attempt w tweet j st) as Hitem.
    destruct (Cli.item w tweet j st) as [st' j']. cbn [fst] in Hitem.
    apply IH; [exact Hbatch|]. rewrite Hitem.
    apply incl_app; [exact Hst|]. intros x [<- | []].
    apply Hbatch. now apply in_map.
  - apply IH; [exact Hbatch | exact Hst].
Qed.

Lemma cli_batches_attempts (w : World) (tweets : list Tweet) (fuel : nat) :
  forall (i : Z) (st : Cli.Job),
    incl (attemptedIds (Cli.job_trace st)) (map id tweets) ->
    incl (attemptedIds (Cli.job_trace (fst (Cli.batches w tweets fuel i st))))
      (map id tweets).
Proof.
  induction fuel as [|fuel IH]; intros i st Hst; [exact Hst|].
  cbn [Cli.batches].
  destruct (i <? Z.of_nat (List.length tweets)); [|exact Hst].
  set (batch := JS.slice tweets i (i + tweetsPerBatch (Cli.job_this st))).
  pose proof (@cli_items_attempts w (map id tweets) batch fuel 0
                (Cli.emit st [EvBatch (map id batch)])
                (incl_map id (@slice_incl _ tweets _ _))) as H1.
  assert (H0 : incl (attemptedIds
                       (Cli.job_trace (Cli.emit st [EvBatch (map id batch)])))
                 (map id tweets)).
  { simpl. rewrite attemptedIds_app, app_nil_r. exact Hst. }
  specialize (H1 H0).
  destruct (Cli.items w fuel batch 0 _) as [st1 fin]. cbn [fst] in H1.
  destruct fin; [|exact H1].
  apply IH. destruct (_ <? _); [|exact H1].
  simpl. rewrite attemptedIds_app, app_nil_r. exact H1.
Qed.

(** X21.  Neither scheduler ever calls [deleteTweet] on an id it was not
    handed: whatever the batch size and the replies of the platform, and at
    any point of a run, every id the web job has attempted is one of the ids
    submitted, and every id the command-line scheduler has attempted is the
    id of one of its posts. *)
Theorem attempts_only_on_submitted :
  (forall w fuel ids s,
     incl (attemptedIds (Web.trace (Web.processDeletion w fuel ids s))) ids)
  /\ (forall w fuel this tweets,
        incl (attemptedIds
                (Cli.job_trace
                   (fst (Cli.deleteTweetsInBatches w fuel this tweets))))
          (map id tweets)).
Proof.
  split.
  - intros w fuel ids s. unfold Web.processDeletion.
    destruct (Web.deleter s) as [d|]; [|intros x []].
    pose proof (@web_batches_attempts w (map Web.mkTweetRef ids) fuel
                  {| Web.job_deleter := d;
                     Web.job_stats := Web.deletionStats s;
                     Web.job_i := 0; Web.job_calls := 0;
                     Web.job_trace := [] |}
                  (fun x (H : In x []) => match H with end)) as Hrun.
    rewrite map_map, map_id in Hrun.
    destruct (Web.batches w (map Web.mkTweetRef ids) fuel _) as [st fin].
    cbn [fst] in Hrun.
    destruct fin; [destruct (writeFileOk w)|]; simpl; try exact Hrun.
    rewrite attemptedIds_app, app_nil_r. exact Hrun.
  - intros w fuel this tweets. unfold Cli.deleteTweetsInBatches.
    apply cli_batches_attempts. intros x [].
Qed.
